(** * Revision projection engine: a shallow embedding of [docs.py] and
    [doc_transformation/docx_processor.py], and the properties of its
    extractor, span locators, run splicers and orchestrator.

    Conventions of the embedding.
    - A Python [str] is a [list ascii]: a character is a code point below
      256. [len], slicing and [+] are [length], [take]/[drop] and [++];
      white space is what [str.isspace] tells of these code points.
    - An lxml element is a finite tree with [tag], [attrib], [text], [tail]
      and [children], as [lxml.etree] presents it. The strings of a parsed
      tree are ones XML can hold, and so are the author, the date and the
      id of a change record, which come from a parsed tree or from the
      clock and the identifier source. A text the model server answered
      may be any string: lxml raises [ValueError] when it is to be stored
      and XML cannot hold it.
    - A call that may raise returns a [result]; the outcome of one call of
      [_get_llm_response] is an [option pystr], [None] when it raised. The
      status callback is a sink that returns.
    - Object identity of an element is its position: a path below the
      paragraph, or a label on the children of the element being mutated.
    - A document is walked through the paragraph elements the source
      selects, taken as values. In [docs.py], which selects every
      paragraph of the tree, these are the paragraphs of the document
      after a change as long as no paragraph lies inside another.
    - An archive is the list of its entries, names with contents. The
      directory [docs.py] unpacks it into is a finite map from paths to
      files and directories, with the outcomes of POSIX as CPython 3.11
      reports them; file system limits are not modelled.
    - The model server is met through what it answers: the responses to
      the requests of [ollama_client.py], and the outcomes of the calls of
      [_get_llm_response] during a run.

    The file has the embedding first ([PyStr], [Xml], [Zip], [Docs],
    [OllamaClient], [DocxProcessor]), then the vocabulary of the
    statements, then the lemmas and the theorems: those for the claims C1
    to C10 of the specification and the further properties X1 to X30 of
    the code, each with the part of the code it is about. *)

From Stdlib Require Import Ascii String ZArith Lia Sorted.
From stdpp Require Import base option list strings gmap.

Open Scope list_scope.

(* ===================================================================== *)
(** ** Python strings *)
(* ===================================================================== *)

Module PyStr.

Abbreviation pystr := (list ascii).

(** A literal. *)
Definition lit (s : string) : pystr := list_ascii_of_string s.
Global Arguments lit : simpl never.

(** [str.isspace] on one character. A character is a code point below
    256; the white space among them is: tab, line feed, vertical tab, form
    feed, carriage return (9 to 13), the separators 28 to 31, the space
    (32), the next line control (133) and the no-break space (160). *)
Definition isspace (c : ascii) : bool :=
  let n := nat_of_ascii c in
  ((9 <=? n) && (n <=? 13)) || ((28 <=? n) && (n <=? 32)) || (n =? 133) || (n =? 160).

Fixpoint lstrip (s : pystr) : pystr :=
  match s with
  | c :: s' => if isspace c then lstrip s' else s
  | [] => []
  end.

Definition rstrip (s : pystr) : pystr := rev (lstrip (rev s)).

(** [s.strip()] *)
Definition strip (s : pystr) : pystr := rstrip (lstrip s).

(** [''.join(parts)] *)
Definition join (parts : list pystr) : pystr := concat parts.

(** [s.startswith(sub)] *)
Fixpoint startswith (s sub : pystr) : bool :=
  match sub, s with
  | [], _ => true
  | _ :: _, [] => false
  | c :: sub', d :: s' => bool_decide (c = d) && startswith s' sub'
  end.

(** The scan behind [s.find(sub)]: the lowest index at which [sub] starts,
    counted from [i]. *)
Fixpoint find_from (i : nat) (s sub : pystr) : option nat :=
  if startswith s sub then Some i
  else match s with
       | [] => None
       | _ :: s' => find_from (S i) s' sub
       end.

(** [s.find(sub)]; [None] stands for the result [-1]. *)
Definition find (s sub : pystr) : option nat := find_from 0 s sub.

(** [sub in s] *)
Definition contains (s sub : pystr) : bool :=
  match find s sub with Some _ => true | None => false end.

(** [sub] occurs in [s] at index [i]. *)
Definition occurs_at (s sub : pystr) (i : nat) : Prop :=
  take (length sub) (drop i s) = sub.

(** [s[:k]] and [s[k:]] for [0 <= k]. *)
Definition upto (k : nat) (s : pystr) : pystr := take k s.
Definition from (k : nat) (s : pystr) : pystr := drop k s.

Definition isdigit (c : ascii) : bool :=
  let n := nat_of_ascii c in (48 <=? n) && (n <=? 57).

Fixpoint take_digits (s : pystr) : pystr :=
  match s with
  | c :: s' => if isdigit c then c :: take_digits s' else []
  | [] => []
  end.

(** [re.search(r'\d+', s)]: the first maximal block of digits, if any. *)
Fixpoint search_digits (s : pystr) : option pystr :=
  match s with
  | [] => None
  | c :: s' => if isdigit c then Some (c :: take_digits s') else search_digits s'
  end.

(** [int(ds)] for a block of digits. *)
Definition int_of_digits (ds : pystr) : nat :=
  fold_left (fun acc c => 10 * acc + (nat_of_ascii c - 48)) ds 0.

(** The double quote character. *)
Definition double_quote : pystr := ["034"%char].

(** [s.endswith(sub)] *)
Definition endswith (s sub : pystr) : bool := startswith (rev s) (rev sub).

(** [s.split(sep)[0]] for a separator of one character: the text ahead of
    the first separator. *)
Fixpoint split_head (sep : ascii) (s : pystr) : pystr :=
  match s with
  | [] => []
  | c :: s' => if Ascii.eqb c sep then [] else c :: split_head sep s'
  end.

End PyStr.
Import PyStr.

(** Outcome of a call that may raise. *)
Inductive exn := IndexError | TypeError | ValueError | KeyError | OSError | ConnectionError.

Inductive result (A : Type) :=
| Ok (a : A)
| Raise (e : exn).
Arguments Ok {A} a.
Arguments Raise {A} e.

Global Instance result_ret : MRet result := fun A a => Ok a.
Global Instance result_bind : MBind result := fun A B k r =>
  match r with Ok a => k a | Raise e => Raise e end.
Global Instance result_fmap : FMap result := fun A B f r =>
  match r with Ok a => Ok (f a) | Raise e => Raise e end.

(* ===================================================================== *)
(** ** The element tree of [lxml.etree] *)
(* ===================================================================== *)

Module Xml.

#[warnings="-register-all"]
Inductive element : Type :=
  Element (tag : string) (attrib : list (string * pystr))
          (text tail : pystr) (children : list element).

Definition tag (e : element) : string := let 'Element t _ _ _ _ := e in t.
Definition attrib (e : element) := let 'Element _ a _ _ _ := e in a.
Definition text (e : element) : pystr := let 'Element _ _ x _ _ := e in x.
Definition tail (e : element) : pystr := let 'Element _ _ _ x _ := e in x.
Definition children (e : element) : list element := let 'Element _ _ _ _ c := e in c.

Definition has_tag (tg : string) (e : element) : bool := String.eqb (tag e) tg.

(** The characters XML can hold, among the code points below 256: tab,
    line feed, carriage return, and everything from the space on. *)
Definition xml_char (c : ascii) : bool :=
  let n := nat_of_ascii c in (n =? 9) || (n =? 10) || (n =? 13) || (32 <=? n).

(** lxml stores a string as a text or as an attribute value only when
    every character of it is one XML can hold, and raises [ValueError]
    otherwise. *)
Definition xml_compatible (s : pystr) : bool := forallb xml_char s.

(** [e.get(name, default)] *)
Fixpoint attr_lookup (name : string) (a : list (string * pystr)) : option pystr :=
  match a with
  | [] => None
  | (k, v) :: a' => if String.eqb k name then Some v else attr_lookup name a'
  end.

Definition get (e : element) (name : string) (default : pystr) : pystr :=
  match attr_lookup name (attrib e) with Some v => v | None => default end.

(** [e.set(name, value)] *)
Fixpoint attr_set (name : string) (v : pystr) (a : list (string * pystr)) :=
  match a with
  | [] => [(name, v)]
  | (k, w) :: a' => if String.eqb k name then (k, v) :: a' else (k, w) :: attr_set name v a'
  end.

(** The text nodes selected by [.//tg/text()] inside the subtree of [e],
    in document order. [under] tells whether the parent of [e] is itself
    selected, in which case the tail of [e] is one of its text nodes. *)
Fixpoint text_nodes (tg : string) (under : bool) (e : element) : list pystr :=
  match e with
  | Element t _ tx tl cs =>
      let here := String.eqb t tg in
      (if here then [tx] else [])
        ++ flat_map (text_nodes tg here) cs
        ++ (if under then [tl] else [])
  end.

(** [''.join(e.xpath('.//tg/text()'))]: only proper descendants of [e] are
    selected by [.//tg]. *)
Definition xpath_text (tg : string) (e : element) : pystr :=
  join (flat_map (text_nodes tg false) (children e)).

(** [e.xpath('.//tg')]: the proper descendants with that tag, in document
    order. *)
Fixpoint self_and_descendants (tg : string) (e : element) : list element :=
  match e with
  | Element t _ _ _ cs =>
      (if String.eqb t tg then [e] else []) ++ flat_map (self_and_descendants tg) cs
  end.

Definition xpath_desc (tg : string) (e : element) : list element :=
  flat_map (self_and_descendants tg) (children e).

(** [e.xpath('./tg')]: the children with that tag, with their positions. *)
Definition xpath_child (tg : string) (e : element) : list (nat * element) :=
  filter (fun ic => has_tag tg ic.2 = true) (imap (fun i c => (i, c)) (children e)).

(** [root.xpath('//ptag/ctag')]: the elements tagged [ctag] whose parent is
    tagged [ptag], anywhere in the document, in document order. *)
Fixpoint select_under (ptag ctag : string) (parent_ok : bool) (e : element) : list element :=
  match e with
  | Element t _ _ _ cs =>
      (if parent_ok && String.eqb t ctag then [e] else [])
        ++ flat_map (select_under ptag ctag (String.eqb t ptag)) cs
  end.

Definition xpath_root (ptag ctag : string) (root : element) : list element :=
  select_under ptag ctag false root.

(** Positions below an element: the list of child indices to follow. *)
Abbreviation path := (list nat).

Fixpoint paths_from (tg : string) (e : element) : list (path * element) :=
  match e with
  | Element _ _ _ _ cs =>
      (fix go (i : nat) (l : list element) : list (path * element) :=
         match l with
         | [] => []
         | c :: l' =>
             ((if has_tag tg c then [([i], c)] else [])
                ++ map (fun pe : path * element => (i :: pe.1, pe.2)) (paths_from tg c))
               ++ go (S i) l'
         end) 0 cs
  end.

(** The inner loop of [paths_from], over the children from position [i]. *)
Fixpoint children_paths (tg : string) (i : nat) (l : list element) : list (path * element) :=
  match l with
  | [] => []
  | c :: l' =>
      ((if has_tag tg c then [([i], c)] else [])
         ++ map (fun pe : path * element => (i :: pe.1, pe.2)) (paths_from tg c))
        ++ children_paths tg (S i) l'
  end.

(** [e.findall('.//tg')], each element with its position below [e]. *)
Definition findall (tg : string) (e : element) : list (path * element) :=
  paths_from tg e.

Fixpoint subelement (e : element) (p : path) : option element :=
  match p with
  | [] => Some e
  | i :: p' => match children e !! i with
               | Some c => subelement c p'
               | None => None
               end
  end.

Definition with_children (e : element) (cs : list element) : element :=
  let 'Element t a x y _ := e in Element t a x y cs.

(** The tree [e] with the children of the element at [p] replaced. *)
Fixpoint set_children_at (e : element) (p : path) (cs : list element) : element :=
  match p with
  | [] => with_children e cs
  | i :: p' =>
      match children e !! i with
      | Some c => with_children e (<[i := set_children_at c p' cs]> (children e))
      | None => e
      end
  end.

(** [parent.insert(pos, x)] for [0 <= pos]: past the end it appends. *)
Definition insert_at {A} (pos : nat) (x : A) (l : list A) : list A :=
  take pos l ++ x :: drop pos l.

(** Children that remember which child of the element they were when the
    call started; an element created during the call has no such label.
    This is the identity that [index] and [remove] compare. *)
Abbreviation kid := (option nat * element)%type.

Definition label_children (cs : list element) : list kid :=
  imap (fun i c => (Some i, c)) cs.

Definition unlabel (ks : list kid) : list element := map snd ks.

Definition is_kid (i : nat) (k : kid) : bool := bool_decide (k.1 = Some i).

(** [parent.index(child)] *)
Fixpoint kid_index (i : nat) (ks : list kid) : result nat :=
  match ks with
  | [] => Raise ValueError
  | k :: ks' => if is_kid i k then Ok 0 else n ← kid_index i ks'; Ok (S n)
  end.

(** [parent.remove(child)]: the child goes with its tail. *)
Fixpoint kid_remove (i : nat) (ks : list kid) : result (list kid) :=
  match ks with
  | [] => Raise ValueError
  | k :: ks' => if is_kid i k then Ok ks' else r ← kid_remove i ks'; Ok (k :: r)
  end.

Definition kid_insert (pos : nat) (e : element) (ks : list kid) : list kid :=
  insert_at pos (None, e) ks.

(** [for t in e.xpath('.//w:t'): t.text = s; t.set(xml:space, 'preserve')] *)
Fixpoint set_t_self (s : pystr) (e : element) : element :=
  match e with
  | Element t a tx tl cs =>
      let cs' := map (set_t_self s) cs in
      if String.eqb t "w:t"
      then Element t (attr_set "xml:space" (lit "preserve") a) s tl cs'
      else Element t a tx tl cs'
  end.

Definition set_t_text (s : pystr) (e : element) : element :=
  with_children e (map (set_t_self s) (children e)).

End Xml.
Import Xml.

(* ===================================================================== *)
(** ** Archives of [zipfile] *)
(* ===================================================================== *)

Module Zip.

(** An archive: its entries in directory order, names with contents. A
    name is the [filename] of the entry as [zipfile] presents it. *)
Definition archive := list (string * list Byte.byte).

(** [z.read(name)]: the directory of names keeps the last entry of a name. *)
Fixpoint read (z : archive) (name : string) : result (list Byte.byte) :=
  match z with
  | [] => Raise KeyError
  | (n, data) :: rest =>
      match read rest name with
      | Ok d => Ok d
      | Raise e => if String.eqb n name then Ok data else Raise e
      end
  end.

End Zip.
Import Zip.

(* ===================================================================== *)
(** ** [docs.py] *)
(* ===================================================================== *)

Module Docs.

(** One entry of the list returned by [extract_tracked_changes]. *)
Record change := { type : string; text : pystr }.

Definition marked_texts (kind : string) (tg : string) (tree : element) : list change :=
  flat_map (fun m => let text := strip (xpath_text "w:t" m) in
                     if bool_decide (text = []) then []
                     else [{| type := kind; text := text |}])
           (xpath_desc tg tree).

Definition extract_tracked_changes (tree : element) : list change :=
  marked_texts "insert" "w:ins" tree ++ marked_texts "delete" "w:del" tree.

Definition _create_run (text : pystr) : element :=
  Element "w:r" [] [] []
    [Element "w:t"
       (if bool_decide (strip text = text) then [] else [("w:space", lit "preserve")])
       text [] []].

(** [date] is the reading of the clock taken when the caller passes none. *)
Definition _wrap_tracked_change (change_type : string) (run_element : element)
    (author date : pystr) : element :=
  Element (if String.eqb change_type "insert" then "w:ins" else "w:del")
    [("w:author", author); ("w:date", date)] [] [] [run_element].

(** The walk over the cumulative run lengths (the [for i, rt in
    enumerate(run_texts)] loop): [start] and the result are the pairs
    (run index, offset) found so far. *)
Fixpoint locate_loop (idx len_c : nat) (run_texts : list pystr) (i current_pos : nat)
    (start : option (nat * nat)) : option (nat * nat) * option (nat * nat) :=
  match run_texts with
  | [] => (start, None)
  | rt :: rest =>
      let run_len := length rt in
      let run_start := current_pos in
      let run_end := current_pos + run_len in
      let start' :=
        match start with
        | None => if (run_start <=? idx) && (idx <? run_end)
                  then Some (i, idx - run_start) else None
        | Some _ => start
        end in
      if bool_decide (is_Some start') && (run_start <? idx + len_c) && (idx + len_c <=? run_end)
      then (start', Some (i, idx + len_c - run_start))
      else locate_loop idx len_c rest (S i) (current_pos + run_len) start'
  end.

(** What the locator hands to the splicer. [start] is [None] when no run
    satisfied the start condition. *)
Inductive located :=
| NoMatch
| Located (start : option (nat * nat)) (end_run_idx end_offset : nat).

(** Lines 91 to 125: the first occurrence of [c_text] in the paragraph text,
    converted to run indices and offsets. When the loop found no end,
    [end_run_idx = len(run_texts) - 1], which is [-1] on the empty list,
    where [run_texts[-1]] raises. *)
Definition locate (run_texts : list pystr) (c_text : pystr) : result located :=
  match find (join run_texts) c_text with
  | None => Ok NoMatch
  | Some idx =>
      match locate_loop idx (length c_text) run_texts 0 0 None with
      | (start, Some (end_run_idx, end_offset)) => Ok (Located start end_run_idx end_offset)
      | (start, None) =>
          match length run_texts with
          | 0 => Raise IndexError
          | S n => match run_texts !! n with
                   | Some rt => Ok (Located start n (length rt))
                   | None => Raise IndexError
                   end
          end
      end
  end.

(** [l[i]] for [0 <= i] *)
Definition getitem {A} (l : list A) (i : nat) : result A :=
  match l !! i with Some x => Ok x | None => Raise IndexError end.

(** Lines 122 to 125 on their own: the end the loop found, or else the last
    run with the length of its text. *)
Definition end_or_clamp (run_texts : list pystr) (found : option (nat * nat))
    : result (nat * nat) :=
  match found with
  | Some (end_run_idx, end_offset) => Ok (end_run_idx, end_offset)
  | None =>
      match length run_texts with
      | 0 => Raise IndexError
      | S end_run_idx => rt ← getitem run_texts end_run_idx; Ok (end_run_idx, length rt)
      end
  end.

Definition changed_part (start_run_idx start_offset end_run_idx end_offset : nat)
    (run_texts : list pystr) (run_i : nat) : result pystr :=
  rt ← getitem run_texts run_i;
  Ok (if run_i =? start_run_idx then from start_offset rt
      else if run_i =? end_run_idx then upto end_offset rt
      else rt).

(** [range(start_run_idx, end_run_idx + 1)] *)
Definition covered (start_run_idx end_run_idx : nat) : list nat :=
  seq start_run_idx (S end_run_idx - start_run_idx).

(** [parent.remove(runs[run_i])] for one [run_i]: the run has to be a child
    of [parent], that is, sit directly below [parent_path]. *)
Definition remove_run (parent_path : path) (runs : list (path * element))
    (ks : list kid) (run_i : nat) : result (list kid) :=
  r ← getitem runs run_i;
  match reverse r.1 with
  | ci :: rpp => if bool_decide (reverse rpp = parent_path)
                 then kid_remove ci ks else Raise ValueError
  | [] => Raise ValueError
  end.

Fixpoint remove_runs (parent_path : path) (runs : list (path * element))
    (ks : list kid) (range : list nat) : result (list kid) :=
  match range with
  | [] => Ok ks
  | run_i :: range' =>
      ks' ← remove_run parent_path runs ks run_i;
      remove_runs parent_path runs ks' range'
  end.

Fixpoint collect {A} (l : list (result A)) : result (list A) :=
  match l with
  | [] => Ok []
  | r :: l' => x ← r; xs ← collect l'; Ok (x :: xs)
  end.

(** Lines 127 to 175: the run splicer. *)
Definition splice (now : pystr) (p : element) (runs : list (path * element))
    (run_texts : list pystr) (c_type : string)
    (start : option (nat * nat)) (end_run_idx end_offset : nat) : result element :=
  match start with
  | None => Raise TypeError
  | Some (start_run_idx, start_offset) =>
      rt_start ← getitem run_texts start_run_idx;
      let before_text := upto start_offset rt_start in
      changed_text_parts ←
        collect (map (changed_part start_run_idx start_offset end_run_idx end_offset run_texts)
                     (covered start_run_idx end_run_idx));
      let changed_text := join changed_text_parts in
      rt_end ← getitem run_texts end_run_idx;
      let after_text := from end_offset rt_end in
      r_start ← getitem runs start_run_idx;
      let parent_path := removelast r_start.1 in
      match subelement p parent_path with
      | None => Raise ValueError
      | Some parent =>
          ks ← remove_runs parent_path runs (label_children (children parent))
                           (covered start_run_idx end_run_idx);
          let kids := unlabel ks in
          let insert_pos := start_run_idx in
          let '(kids, insert_pos) :=
            if bool_decide (before_text = []) then (kids, insert_pos)
            else (insert_at insert_pos (_create_run before_text) kids, S insert_pos) in
          let r_changed := _create_run changed_text in
          let wrapped := _wrap_tracked_change c_type r_changed (lit "AutoScript") now in
          let kids := insert_at insert_pos wrapped kids in
          let insert_pos := S insert_pos in
          let kids :=
            if bool_decide (after_text = []) then kids
            else insert_at insert_pos (_create_run after_text) kids in
          Ok (set_children_at p parent_path kids)
      end
  end.

(** The run texts of a paragraph, as the loop body computes them. *)
Definition run_texts_of (p : element) : list pystr :=
  map (fun r : path * element => xpath_text "w:t" r.2) (findall "w:r" p).

(** The body of [for p in paragraphs]: [None] is [continue], [Some p'] the
    paragraph after the change, followed by [break]. *)
Definition apply_to_paragraph (now : pystr) (p : element) (c_text : pystr)
    (c_type : string) : result (option element) :=
  let runs := findall "w:r" p in
  let run_texts := run_texts_of p in
  loc ← locate run_texts c_text;
  match loc with
  | NoMatch => Ok None
  | Located start end_run_idx end_offset =>
      p' ← splice now p runs run_texts c_type start end_run_idx end_offset;
      Ok (Some p')
  end.

(** One iteration of [for change in changes_map] over the paragraphs of the
    document, in document order. The result tells the position of the
    paragraph that took the change, if any did. The paragraphs are the
    subtrees that [findall] yields, as values; they are the paragraphs of
    the document after the change where no paragraph lies inside
    another. *)
Fixpoint apply_change (now : pystr) (paragraphs : list element) (c_text : pystr)
    (c_type : string) : result (list element * option nat) :=
  match paragraphs with
  | [] => Ok ([], None)
  | p :: rest =>
      r ← apply_to_paragraph now p c_text c_type;
      match r with
      | Some p' => Ok (p' :: rest, Some 0)
      | None =>
          ra ← apply_change now rest c_text c_type;
          Ok (p :: ra.1, match ra.2 with Some i => Some (S i) | None => None end)
      end
  end.

(** An entry of [changes_map]. *)
Record mapped_change := { mc_type : string; chinese_text : pystr }.

(** [apply_tracked_changes_to_chinese_doc] on the paragraphs of the
    document: the changes are applied one after the other; [clock k] is
    the time read while change [k] is wrapped. *)
Fixpoint apply_tracked_changes_to_chinese_doc (clock : nat -> pystr) (k : nat)
    (paragraphs : list element) (changes_map : list mapped_change) : result (list element) :=
  match changes_map with
  | [] => Ok paragraphs
  | change :: rest =>
      r ← apply_change (clock k) paragraphs (chinese_text change) (mc_type change);
      apply_tracked_changes_to_chinese_doc clock (S k) r.1 rest
  end.

(** Lines 69 to 76 and 183 to 188: the archive is unpacked into a fresh
    directory, the payload is parsed from the directory and written back,
    and the directory is packed again. The directory is modelled as POSIX
    presents it to CPython 3.11: a finite map from the paths below it to
    what they hold, a file with its bytes or a directory. *)

(** [name.split('/')] *)
Fixpoint split_slash (name : string) : list string :=
  match name with
  | EmptyString => [EmptyString]
  | String c rest =>
      let parts := split_slash rest in
      if Ascii.eqb c "/" then EmptyString :: parts
      else match parts with
           | first :: others => String c first :: others
           | [] => [String c EmptyString]
           end
  end.

Definition invalid_path_parts : list string := [""; "."; ".."]%string.

(** The place of a member below the directory it is extracted to: the
    components of its name, without the empty ones, [.] and [..]. *)
Definition path_of (name : string) : list string :=
  List.filter (fun x => negb (existsb (String.eqb x) invalid_path_parts)) (split_slash name).

(** [ZipInfo.is_dir]: [filename[-1] == '/']. *)
Definition is_dir (name : string) : result bool :=
  match last (list_ascii_of_string name) with
  | Some c => Ok (Ascii.eqb c "/")
  | None => Raise IndexError
  end.

(** What a directory holds at a path below it. *)
Inductive node := File (data : list Byte.byte) | Dir.

Abbreviation directory := (gmap (list string) node).

(** [os.makedirs] of the directory [parent/dirs], from [parent] down. *)
Fixpoint makedirs (tmp_dir : directory) (parent dirs : list string) : result directory :=
  match dirs with
  | [] => Ok tmp_dir
  | d :: rest =>
      let here := parent ++ [d] in
      match tmp_dir !! here with
      | Some (File _) => Raise OSError
      | Some Dir => makedirs tmp_dir here rest
      | None => makedirs (<[here := Dir]> tmp_dir) here rest
      end
  end.

(** [ZipFile._extract_member]: the directories above the target are made,
    a member whose name ends in a slash becomes a directory, any other
    is written as a file, over a file that is there already. A file
    where a directory is needed, or a directory where a file is to be
    written, is an [OSError]. *)
Definition extract_member (tmp_dir : directory) (name : string) (data : list Byte.byte)
    : result directory :=
  let arcname := path_of name in
  tmp_dir ← makedirs tmp_dir [] (removelast arcname);
  dir ← is_dir name;
  match arcname with
  | [] => if (dir : bool) then Ok tmp_dir else Raise OSError
  | _ :: _ =>
      match tmp_dir !! arcname with
      | Some Dir => if dir then Ok tmp_dir else Raise OSError
      | Some (File _) => if dir then Raise OSError else Ok (<[arcname := File data]> tmp_dir)
      | None => Ok (<[arcname := if dir then Dir else File data]> tmp_dir)
      end
  end.

(** [for zipinfo in self.namelist(): self._extract_member(zipinfo, ...)]:
    a name stands for the last entry that bears it. *)
Fixpoint extract_members (z : archive) (members : list string) (tmp_dir : directory)
    : result directory :=
  match members with
  | [] => Ok tmp_dir
  | name :: rest =>
      data ← read z name;
      tmp_dir ← extract_member tmp_dir name data;
      extract_members z rest tmp_dir
  end.

Definition extractall (z : archive) : result directory :=
  extract_members z (map fst z) ∅.

(** [shutil.make_archive]: one empty entry, named with a closing slash,
    for every directory below [tmp_dir], and one entry for every file.
    The entries are written in the order of the directory listing, which
    the model leaves open: the list stands for the entries it holds. *)
Definition name_of (q : list string) : string := String.concat "/" q.

Definition entry_of (qn : list string * node) : string * list Byte.byte :=
  match qn.2 with
  | File data => (name_of qn.1, data)
  | Dir => ((name_of qn.1 ++ "/")%string, [])
  end.

Definition make_archive (tmp_dir : directory) : archive :=
  map entry_of (map_to_list tmp_dir).

(** [os.path.join(tmp_dir, 'word/document.xml')] *)
Definition doc_xml_path : list string := ["word"; "document.xml"]%string.

(** [regenerate] stands for parsing the payload, applying the changes and
    writing the tree; parsing raises [OSError] when the payload is no
    file. *)
Definition repack (z : archive) (regenerate : list Byte.byte -> list Byte.byte)
    : result archive :=
  tmp_dir ← extractall z;
  match tmp_dir !! doc_xml_path with
  | Some (File xml) => Ok (make_archive (<[doc_xml_path := File (regenerate xml)]> tmp_dir))
  | _ => Raise OSError
  end.

End Docs.

(* ===================================================================== *)
(** ** [ollama_client.py] *)
(* ===================================================================== *)

Module OllamaClient.

(** What a request to the server comes to: [None] when the request or the
    decoding of its body raised, else the status code with what the body
    holds. For [/api/tags] that is the [name] of each listed model, the
    empty text for a model without one; for [/api/generate] the [response]
    field, if the body has one. *)
Definition tags_response := option (nat * list pystr).
Definition generate_response := option (nat * option pystr).

Definition is_available (model : pystr) (resp : tags_response) : bool :=
  match resp with
  | None => false
  | Some (status_code, names) =>
      if negb (status_code =? 200) then false
      else existsb (fun name => startswith name (split_head ":" model)) names
  end.

Definition query (resp : generate_response) : option pystr :=
  match resp with
  | None => None
  | Some (status_code, response) =>
      if negb (status_code =? 200) then None
      else Some (strip (default [] response))
  end.

End OllamaClient.

(* ===================================================================== *)
(** ** [doc_transformation/docx_processor.py] *)
(* ===================================================================== *)

Module DocxProcessor.

Definition _get_paragraph_text (p_element : element) : pystr :=
  xpath_text "w:t" p_element.

(** One entry of [runs_info]. *)
Record run_info := {
  ri_text : pystr;
  ri_element : element;
  is_insertion : bool;
  is_deletion : bool
}.

Definition nonempty {A} (l : list A) : bool :=
  match l with [] => false | _ :: _ => true end.

Definition _get_paragraph_text_with_structure (p_element : element) : list run_info :=
  flat_map (fun ir : nat * element =>
              let run := ir.2 in
              let run_text := xpath_text "w:t" run in
              if nonempty run_text
              then [{| ri_text := run_text; ri_element := run;
                       is_insertion := nonempty (xpath_desc "w:ins" run);
                       is_deletion := nonempty (xpath_desc "w:del" run) |}]
              else [])
           (xpath_child "w:r" p_element).

Inductive change_type := insertion | deletion.

(** One change dictionary. *)
Record change := {
  c_type : change_type;
  c_text : pystr;
  original_context : pystr;
  current_context : pystr;
  paragraph_index : nat;
  author : pystr;
  date : pystr;
  change_id : pystr;
  c_element : element
}.

(** What the extractor reads from outside the document: the [k]-th reading
    of [datetime.now().isoformat()] and of [str(uuid.uuid4().int)[:8]].
    Both are evaluated once for each change that is recorded, as the
    default arguments of [get]. *)
Record world := {
  now : nat -> pystr;
  uuid8 : nat -> pystr
}.

(** The loop [for run_info in runs_info] with its two accumulators. *)
Definition context_step (acc : list pystr * list pystr) (ri : run_info)
    : list pystr * list pystr :=
  let '(original_text_parts, current_text_parts) := acc in
  if is_deletion ri then
    let deleted_text := xpath_text "w:delText" (ri_element ri) in
    (original_text_parts ++ [deleted_text], current_text_parts)
  else if negb (is_insertion ri) then
    (original_text_parts ++ [ri_text ri], current_text_parts ++ [ri_text ri])
  else
    (original_text_parts, current_text_parts ++ [ri_text ri]).

Definition context_parts (runs_info : list run_info) : list pystr * list pystr :=
  fold_left context_step runs_info ([], []).

(** [(original_paragraph_text, current_paragraph_text)] *)
Definition paragraph_contexts (p : element) : pystr * pystr :=
  let parts := context_parts (_get_paragraph_text_with_structure p) in
  (strip (join parts.1), strip (join parts.2)).

(** The loops over [insertions] and over [deletions]: [kind] and [text_tag]
    are [insertion] with [w:t], or [deletion] with [w:delText]. [k] counts
    the readings of the clock taken so far. *)
Fixpoint marker_changes (w : world) (k : nat) (kind : change_type) (text_tag : string)
    (original current : pystr) (para_idx : nat) (markers : list element)
    : list change * nat :=
  match markers with
  | [] => ([], k)
  | m :: rest =>
      let marked_text := strip (xpath_text text_tag m) in
      if nonempty marked_text then
        let c := {| c_type := kind; c_text := marked_text;
                    original_context := original; current_context := current;
                    paragraph_index := para_idx;
                    author := get m "w:author" (lit "Unknown");
                    date := get m "w:date" (now w k);
                    change_id := get m "w:id" (uuid8 w k);
                    c_element := m |} in
        let r := marker_changes w (S k) kind text_tag original current para_idx rest in
        (c :: r.1, r.2)
      else marker_changes w k kind text_tag original current para_idx rest
  end.

(** The body of [for para_idx, p in enumerate(...)]. *)
Definition extract_paragraph (w : world) (k : nat) (para_idx : nat) (p : element)
    : list change * nat :=
  let '(original_paragraph_text, current_paragraph_text) := paragraph_contexts p in
  if negb (nonempty original_paragraph_text) && negb (nonempty current_paragraph_text)
  then ([], k)
  else
    let ins := marker_changes w k insertion "w:t" original_paragraph_text
                 current_paragraph_text para_idx (xpath_desc "w:ins" p) in
    let del := marker_changes w ins.2 deletion "w:delText" original_paragraph_text
                 current_paragraph_text para_idx (xpath_desc "w:del" p) in
    (ins.1 ++ del.1, del.2).

Fixpoint extract_paragraphs (w : world) (k : nat) (para_idx : nat) (ps : list element)
    : list change :=
  match ps with
  | [] => []
  | p :: rest =>
      let r := extract_paragraph w k para_idx p in
      r.1 ++ extract_paragraphs w r.2 (S para_idx) rest
  end.

(** [_extract_changes_from_english_docx], from the parsed
    [word/document.xml] on. *)
Definition _extract_changes_from_english_docx (w : world) (root : element) : list change :=
  extract_paragraphs w 0 0 (xpath_root "w:body" "w:p" root).

Definition marker_attrib (author date change_id : pystr) : list (string * pystr) :=
  [("w:author", author); ("w:date", date); ("w:id", change_id)].

(** The element that [_create_track_changes_element] returns. The strings
    it stores are the author, the date and the id of a change record, which
    the extractor read from attributes of a parsed document or took from
    the clock and the identifier source, and a text: a slice of text read
    from the tree for a deletion, the translated text for an insertion.
    The translated text comes from the model server and may be one that
    lxml refuses; [_apply_insertion_change] tells. *)
Definition _create_track_changes_element (kind : change_type) (text author date change_id : pystr)
    : element :=
  match kind with
  | insertion =>
      Element "w:r" [] [] []
        [Element "w:ins" (marker_attrib author date change_id) [] []
           [Element "w:t" [("xml:space", lit "preserve")] text [] []]]
  | deletion =>
      Element "w:r" [] [] []
        [Element "w:del" (marker_attrib author date change_id) [] []
           [Element "w:delText" [("xml:space", lit "preserve")] text [] []]]
  end.

(** Lines 240 to 246. [position_str] is the outcome of
    [_get_llm_response(position_prompt)]; a missing match of [\d+] raises
    inside the [try] as well. *)
Definition insertion_position (position_str : option pystr) (chinese_text : pystr) : nat :=
  match position_str with
  | Some s =>
      match search_digits s with
      | Some ds => Nat.max 0 (Nat.min (int_of_digits ds) (length chinese_text))
      | None => length chinese_text
      end
  | None => length chinese_text
  end.

(** Lines 254 to 260: the first run whose closed range of positions holds
    [position], as (index into [runs], offset in the run). *)
Fixpoint find_target_run (position : nat) (runs : list (nat * element))
    (i current_pos : nat) : option (nat * nat) :=
  match runs with
  | [] => None
  | run :: rest =>
      let run_text := xpath_text "w:t" run.2 in
      if (current_pos <=? position) && (position <=? current_pos + length run_text)
      then Some (i, position - current_pos)
      else find_target_run position rest (S i) (current_pos + length run_text)
  end.

(** Lines 228 to 298. The new run is built at line 263, ahead of every
    change to the paragraph: there lxml raises [ValueError] for a
    translated text that XML cannot hold. *)
Definition _apply_insertion_change (target_para_element : element)
    (text_to_insert chinese_text : pystr) (ch : change) (position_str : option pystr)
    : result element :=
  let position := insertion_position position_str chinese_text in
  let runs := xpath_child "w:r" target_para_element in
  let target := find_target_run position runs 0 0 in
  let ins_run := _create_track_changes_element insertion text_to_insert
                   (author ch) (date ch) (change_id ch) in
  let kids := children target_para_element in
  if negb (xml_compatible text_to_insert) then Raise ValueError else
  match target with
  | None => Ok (with_children target_para_element (kids ++ [ins_run]))
  | Some (target_run_index, offset_in_run) =>
      if negb (nonempty runs)
      then Ok (with_children target_para_element (kids ++ [ins_run]))
      else
        match runs !! target_run_index with
        | None => Raise IndexError
        | Some (ci, target_run) =>
            let run_text := xpath_text "w:t" target_run in
            if offset_in_run =? 0 then
              Ok (with_children target_para_element (insert_at ci ins_run kids))
            else if length run_text <=? offset_in_run then
              Ok (with_children target_para_element (insert_at (ci + 1) ins_run kids))
            else
              let before_text := upto offset_in_run run_text in
              let after_text := from offset_in_run run_text in
              let target_run := set_t_text before_text target_run in
              let kids := <[ci := target_run]> kids in
              let kids := insert_at (ci + 1) ins_run kids in
              let kids :=
                if nonempty after_text
                then insert_at (ci + 2) (set_t_text after_text target_run) kids
                else kids in
              Ok (with_children target_para_element kids)
        end
  end.

(** One entry of [runs_to_modify]; [rm_child] is the run's position among
    the children of the paragraph when the call started. *)
Record run_mod := {
  rm_index : nat;
  rm_child : nat;
  rm_element : element;
  rm_text : pystr;
  run_start : nat;
  run_end : nat;
  delete_start_in_run : nat;
  delete_end_in_run : nat
}.

(** Lines 329 to 348. *)
Fixpoint runs_to_modify (delete_start delete_end : nat) (runs : list (nat * element))
    (i current_pos : nat) : list run_mod :=
  match runs with
  | [] => []
  | run :: rest =>
      let run_text := xpath_text "w:t" run.2 in
      let rs := current_pos in
      let re := current_pos + length run_text in
      (if (rs <? delete_end) && (delete_start <? re)
       then [{| rm_index := i; rm_child := run.1; rm_element := run.2; rm_text := run_text;
                run_start := rs; run_end := re;
                delete_start_in_run := Nat.max rs delete_start - rs;
                delete_end_in_run := Nat.min re delete_end - rs |}]
       else [])
        ++ runs_to_modify delete_start delete_end rest (S i) (current_pos + length run_text)
  end.

(** [s[a:b]] for [0 <= a] and [0 <= b]. *)
Definition slice (a b : nat) (s : pystr) : pystr := take (b - a) (drop a s).

(** The body of [for run_info in reversed(runs_to_modify)]. *)
Definition delete_in_run (ch : change) (ks : list kid) (run_info : run_mod)
    : result (list kid) :=
  let run_element := rm_element run_info in
  let run_text := rm_text run_info in
  let start_offset := delete_start_in_run run_info in
  let end_offset := delete_end_in_run run_info in
  let before_text := upto start_offset run_text in
  let deleted_text := slice start_offset end_offset run_text in
  let after_text := from end_offset run_text in
  run_index ← kid_index (rm_child run_info) ks;
  let insert_offset := 0 in
  let '(ks, insert_offset) :=
    if nonempty before_text
    then (kid_insert run_index (set_t_text before_text run_element) ks, insert_offset + 1)
    else (ks, insert_offset) in
  let del_run := _create_track_changes_element deletion deleted_text
                   (author ch) (date ch) (change_id ch) in
  let ks := kid_insert (run_index + insert_offset) del_run ks in
  let insert_offset := insert_offset + 1 in
  let ks :=
    if nonempty after_text
    then kid_insert (run_index + insert_offset) (set_t_text after_text run_element) ks
    else ks in
  kid_remove (rm_child run_info) ks.

Fixpoint delete_in_runs (ch : change) (ks : list kid) (todo : list run_mod)
    : result (list kid) :=
  match todo with
  | [] => Ok ks
  | run_info :: rest => ks' ← delete_in_run ch ks run_info; delete_in_runs ch ks' rest
  end.

(** [text_to_delete_raw] is the outcome of
    [_get_llm_response(identification_prompt)]. The result pairs the
    returned flag with the paragraph as the call leaves it. *)
Definition _apply_deletion_change (target_para_element : element) (chinese_text : pystr)
    (ch : change) (text_to_delete_raw : option pystr) : result (bool * element) :=
  match text_to_delete_raw with
  | None => Ok (false, target_para_element)
  | Some raw =>
      let text_to_delete := strip raw in
      if negb (nonempty text_to_delete) || negb (contains chinese_text text_to_delete)
      then Ok (false, target_para_element)
      else
        match find chinese_text text_to_delete with
        | None => Ok (false, target_para_element)
        | Some delete_start =>
            let delete_end := delete_start + length text_to_delete in
            let runs := xpath_child "w:r" target_para_element in
            let todo := runs_to_modify delete_start delete_end runs 0 0 in
            ks ← delete_in_runs ch (label_children (children target_para_element))
                                (reverse todo);
            Ok (true, with_children target_para_element (unlabel ks))
        end
  end.

(** Lines 399 to 408. A paragraph element is named by its position in
    [chinese_paragraphs]; the dictionary is keyed by the paragraph text. *)
Definition para_map_step (acc : gmap pystr nat * list pystr) (ip : nat * element)
    : gmap pystr nat * list pystr :=
  let para_text := _get_paragraph_text ip.2 in
  if nonempty (strip para_text)
  then (<[para_text := ip.1]> acc.1, acc.2 ++ [para_text])
  else acc.

(** [(chinese_para_map, all_chinese_paras)] *)
Definition build_para_map (chinese_paragraphs : list element) : gmap pystr nat * list pystr :=
  fold_left para_map_step (imap (fun i p => (i, p)) chinese_paragraphs) (∅, []).

(** [all_chinese_paras[index], chinese_para_elements[all_chinese_paras[index]]],
    the pair both strategies of the matcher return for the index they chose. *)
Definition paragraph_at (all_chinese_paras : list pystr) (chinese_para_elements : gmap pystr nat)
    (index : nat) : option (pystr * nat) :=
  match all_chinese_paras !! index with
  | Some para_text =>
      match chinese_para_elements !! para_text with
      | Some p => Some (para_text, p)
      | None => None
      end
  | None => None
  end.

(** [_find_best_chinese_paragraph_match]. [response] is the answer to the
    alignment prompt; [best_match] is the index the similarity scores of
    the second strategy single out, when one of them exceeds the
    threshold. *)
Definition _find_best_chinese_paragraph_match (all_chinese_paras : list pystr)
    (chinese_para_elements : gmap pystr nat) (response : pystr) (best_match : option nat)
    : option (pystr * nat) :=
  let second :=
    match best_match with
    | Some i => paragraph_at all_chinese_paras chinese_para_elements i
    | None => None
    end in
  match search_digits response with
  | Some ds =>
      let index := int_of_digits ds in
      if index <? length all_chinese_paras
      then paragraph_at all_chinese_paras chinese_para_elements index
      else second
  | None => second
  end.

Record counters := {
  successful_changes : nat;
  failed_changes : nat
}.

Definition succeeded (n : counters) : counters :=
  {| successful_changes := successful_changes n + 1; failed_changes := failed_changes n |}.

Definition failed (n : counters) : counters :=
  {| successful_changes := successful_changes n; failed_changes := failed_changes n + 1 |}.

(** The outcomes of the calls of [_get_llm_response] made for one change:
    the translation of an inserted text and the position to insert it at,
    or the text to delete. *)
Record answers := {
  translation : option pystr;
  position_answer : option pystr;
  identification : option pystr
}.

(** Lines 437 to 458: the [try] block for one change, on the counters and
    the target paragraph. The status callback is a sink that returns. *)
Definition apply_one (chinese_text : pystr) (st : counters * element) (ch : change)
    (a : answers) : counters * element :=
  let '(n, target_para_element) := st in
  match c_type ch with
  | insertion =>
      match translation a with
      | None => (failed n, target_para_element)
      | Some text_to_insert =>
          match _apply_insertion_change target_para_element text_to_insert chinese_text ch
                  (position_answer a) with
          | Ok p' => (succeeded n, p')
          | Raise _ => (failed n, target_para_element)
          end
      end
  | deletion =>
      match _apply_deletion_change target_para_element chinese_text ch (identification a) with
      | Ok (true, p') => (succeeded n, p')
      | Ok (false, p') => (failed n, p')
      | Raise _ => (failed n, target_para_element)
      end
  end.

(** [for change in para_changes], each change with its answers. *)
Fixpoint apply_group (chinese_text : pystr) (st : counters * element)
    (para_changes : list (change * answers)) : counters * element :=
  match para_changes with
  | [] => st
  | (ch, a) :: rest => apply_group chinese_text (apply_one chinese_text st ch a) rest
  end.

Definition document_xml : string := "word/document.xml".

(** Lines 468 to 473, one [item] of [z_in.infolist()]. *)
Definition copy_item (z_in : archive) (item : string * list Byte.byte) : result archive :=
  if negb (String.eqb item.1 document_xml)
  then data ← read z_in item.1; Ok [(item.1, data)]
  else Ok [].

Fixpoint copy_items (z_in : archive) (items : archive) : result archive :=
  match items with
  | [] => Ok []
  | item :: rest => e ← copy_item z_in item; es ← copy_items z_in rest; Ok (e ++ es)
  end.

(** The archive written to [output_path]; [final_xml_string] is the
    serialised tree. *)
Definition write_output (z_in : archive) (final_xml_string : list Byte.byte) : result archive :=
  es ← copy_items z_in z_in;
  Ok (es ++ [(document_xml, final_xml_string)]).

(** [_create_updated_docx] as a function of the input archive: the
    payload is read at line 396, and [regenerate] stands for parsing it,
    applying the changes and serialising the tree. *)
Definition output_archive (z_in : archive) (regenerate : list Byte.byte -> list Byte.byte)
    : result archive :=
  chinese_xml_content ← read z_in document_xml;
  write_output z_in (regenerate chinese_xml_content).

(** [_get_llm_response], for the client [_client] with its model, on what
    the server answers to the two requests the call makes. *)
Definition _get_llm_response (model : pystr) (tags : OllamaClient.tags_response)
    (generate : OllamaClient.generate_response) : result pystr :=
  if negb (OllamaClient.is_available model tags) then Raise ConnectionError
  else
    match OllamaClient.query generate with
    | None => Raise ConnectionError
    | Some result =>
        let result := strip result in
        if startswith result double_quote && endswith result double_quote
        then Ok (slice 1 (length result - 1) result)
        else Ok result
    end.

(** The outcome of a call as [apply_one] takes it. *)
Definition outcome (r : result pystr) : option pystr :=
  match r with Ok s => Some s | Raise _ => None end.

(** Lines 413 to 419: [changes_by_para], a dictionary whose keys keep the
    order in which they were first inserted. *)
Fixpoint group_append (para_idx : nat) (ch : change) (groups : list (nat * list change))
    : list (nat * list change) :=
  match groups with
  | [] => [(para_idx, [ch])]
  | (k, para_changes) :: rest =>
      if k =? para_idx then (k, para_changes ++ [ch]) :: rest
      else (k, para_changes) :: group_append para_idx ch rest
  end.

Definition changes_by_para (changes : list change) : list (nat * list change) :=
  fold_left (fun groups ch => group_append (paragraph_index ch) ch groups) changes [].

(** What the model answers during one call of [_create_updated_docx]. For
    the group of the English paragraph [para_idx]: the answer to the
    alignment prompt, [None] when [_get_llm_response] raised, and the index
    the similarity scores single out; for the [j]-th change of the group,
    the answers used while it is applied. *)
Record oracle := {
  alignment : nat -> option pystr;
  best_match : nat -> option nat;
  change_answers : nat -> nat -> answers
}.

(** Lines 422 to 458, one group. The target element is the paragraph at
    the position the dictionary holds; [not target_para_element] is true
    for an element without children. A [ConnectionError] of the alignment
    call is not caught by the matcher and leaves the function. *)
Definition process_group (o : oracle) (all_chinese_paras : list pystr)
    (chinese_para_map : gmap pystr nat) (st : counters * list element)
    (group : nat * list change) : result (counters * list element) :=
  let '(n, chinese_paragraphs) := st in
  let '(para_idx, para_changes) := group in
  let skipped :=
    ({| successful_changes := successful_changes n;
        failed_changes := failed_changes n + length para_changes |}, chinese_paragraphs) in
  match alignment o para_idx with
  | None => Raise ConnectionError
  | Some response =>
      match _find_best_chinese_paragraph_match all_chinese_paras chinese_para_map response
              (best_match o para_idx) with
      | None => Ok skipped
      | Some (chinese_text, i) =>
          target_para_element ← Docs.getitem chinese_paragraphs i;
          if negb (nonempty chinese_text) || negb (nonempty (children target_para_element))
          then Ok skipped
          else
            let r := apply_group chinese_text (n, target_para_element)
                       (imap (fun j ch => (ch, change_answers o para_idx j)) para_changes) in
            Ok (r.1, <[i := r.2]> chinese_paragraphs)
      end
  end.

Fixpoint process_groups (o : oracle) (all_chinese_paras : list pystr)
    (chinese_para_map : gmap pystr nat) (st : counters * list element)
    (groups : list (nat * list change)) : result (counters * list element) :=
  match groups with
  | [] => Ok st
  | group :: rest =>
      st' ← process_group o all_chinese_paras chinese_para_map st group;
      process_groups o all_chinese_paras chinese_para_map st' rest
  end.

(** Lines 399 to 458 on the body paragraphs of the parsed payload: the
    counters of the final report and the paragraphs as the loop leaves
    them. *)
Definition apply_changes_by_para (o : oracle) (chinese_paragraphs : list element)
    (changes : list change) : result (counters * list element) :=
  let '(chinese_para_map, all_chinese_paras) := build_para_map chinese_paragraphs in
  process_groups o all_chinese_paras chinese_para_map
    ({| successful_changes := 0; failed_changes := 0 |}, chinese_paragraphs)
    (changes_by_para changes).

(** The XML library: [fromstring] parses a payload, and [tostring root ps]
    writes the tree [root] once its body paragraphs have become [ps]. *)
Record codec := {
  fromstring : list Byte.byte -> result element;
  tostring : element -> list element -> list Byte.byte
}.

(** [_create_updated_docx]: the counters and the archive written to
    [output_path]. *)
Definition _create_updated_docx (cd : codec) (o : oracle) (z_in : archive)
    (changes : list change) : result (counters * archive) :=
  chinese_xml_content ← read z_in document_xml;
  chinese_root ← fromstring cd chinese_xml_content;
  r ← apply_changes_by_para o (xpath_root "w:body" "w:p" chinese_root) changes;
  z_out ← write_output z_in (tostring cd chinese_root r.2);
  Ok (r.1, z_out).

(** [run_document_processing]: the archive at [output_path] when the call
    returns, [None] when none was written. Every exception is caught and
    reported to the status callback. *)
Definition run_document_processing (w : world) (cd : codec) (o : oracle)
    (english chinese : archive) : option archive :=
  match (xml ← read english document_xml; fromstring cd xml) with
  | Raise _ => None
  | Ok root =>
      let changes := _extract_changes_from_english_docx w root in
      if negb (nonempty changes) then Some chinese
      else
        match _create_updated_docx cd o chinese changes with
        | Ok r => Some r.2
        | Raise _ => None
        end
  end.

End DocxProcessor.

(* ===================================================================== *)
(** ** Vocabulary of the statements *)
(* ===================================================================== *)

(** The character position at which run [i] starts. *)
Definition run_offset (rts : list pystr) (i : nat) : nat := length (join (take i rts)).

(** The runs of a paragraph as [docs.py] sees them, and a run that holds no
    further run. *)
Definition runs_of (p : element) : list element := map snd (findall "w:r" p).

Definition plain_run (r : element) : Prop :=
  has_tag "w:r" r = true /\ findall "w:r" r = [].

(** A paragraph whose children are exactly its runs. *)
Definition flat (p : element) : Prop := Forall plain_run (children p).

(** [1] for a text that is not empty, [0] for the empty text. *)
Definition present (s : pystr) : nat := if bool_decide (s = []) then 0 else 1.

(** The run that carries [s], when [s] is not empty. *)
Definition optional_text (s : pystr) : list pystr := if bool_decide (s = []) then [] else [s].

(** The text a covered run contributes to the marked run (lines 139 to
    147). *)
Definition part_of (s so e eo : nat) (rts : list pystr) (i : nat) : pystr :=
  let rt := default [] (rts !! i) in
  if i =? s then from so rt else if i =? e then upto eo rt else rt.

Definition marked_text (s so e eo : nat) (rts : list pystr) : pystr :=
  join (map (part_of s so e eo rts) (Docs.covered s e)).

Definition new_children (now : pystr) (c_type : string) (before marked after : pystr)
    : list element :=
  (if bool_decide (before = []) then [] else [Docs._create_run before])
    ++ [Docs._wrap_tracked_change c_type (Docs._create_run marked) (lit "AutoScript") now]
    ++ (if bool_decide (after = []) then [] else [Docs._create_run after]).

Definition new_runs (before marked after : pystr) : list element :=
  (if bool_decide (before = []) then [] else [Docs._create_run before])
    ++ [Docs._create_run marked]
    ++ (if bool_decide (after = []) then [] else [Docs._create_run after]).

Import DocxProcessor.

(** The texts the deletion splicer keeps of a covered run. *)
Definition before_text_of (m : run_mod) : pystr := upto (delete_start_in_run m) (rm_text m).
Definition after_text_of (m : run_mod) : pystr := from (delete_end_in_run m) (rm_text m).

(** The text the deletion splicer marks as deleted in a covered run. *)
Definition deleted_text_of (m : run_mod) : pystr :=
  slice (delete_start_in_run m) (delete_end_in_run m) (rm_text m).

(** The runs that take the place of one covered run. *)
Definition deletion_pieces (ch : change) (m : run_mod) : list element :=
  (if nonempty (before_text_of m) then [set_t_text (before_text_of m) (rm_element m)] else [])
    ++ [_create_track_changes_element deletion
          (slice (delete_start_in_run m) (delete_end_in_run m) (rm_text m))
          (author ch) (date ch) (change_id ch)]
    ++ (if nonempty (after_text_of m) then [set_t_text (after_text_of m) (rm_element m)] else []).

(** The entry of [todo] for the child at position [i], if it is covered. *)
Definition covering (todo : list run_mod) (i : nat) : option run_mod :=
  List.find (fun m => rm_child m =? i) todo.

(** The children after the covered ones were replaced by their pieces,
    first with the labels of the children that stay, then without. *)
Definition replaced_kids (ch : change) (todo : list run_mod) (from_pos : nat)
    (cs : list element) : list kid :=
  flat_map (fun ic : nat * element =>
              match covering todo ic.1 with
              | Some m => map (pair None) (deletion_pieces ch m)
              | None => [(Some ic.1, ic.2)]
              end)
           (imap (fun i c => (from_pos + i, c)) cs).

Definition replaced_children (ch : change) (todo : list run_mod) (cs : list element)
    : list element :=
  flat_map (fun ic : nat * element =>
              match covering todo ic.1 with
              | Some m => deletion_pieces ch m
              | None => [ic.2]
              end)
           (imap (fun i c => (i, c)) cs).

(** What [runs_to_modify] records about one covered run, for the range
    [delete_start .. delete_end] and the children [cs] of the paragraph. *)
Definition covers (delete_start delete_end : nat) (cs : list element) (m : run_mod) : Prop :=
  cs !! rm_child m = Some (rm_element m)
  /\ has_tag "w:r" (rm_element m) = true
  /\ rm_text m = xpath_text "w:t" (rm_element m)
  /\ run_end m = run_start m + length (rm_text m)
  /\ run_start m < delete_end /\ delete_start < run_end m
  /\ delete_start_in_run m = Nat.max (run_start m) delete_start - run_start m
  /\ delete_end_in_run m = Nat.min (run_end m) delete_end - run_start m.

(** The number of runs a covered run adds. *)
Definition extra_runs (m : run_mod) : nat :=
  present (before_text_of m) + present (after_text_of m).

(** The runs added at the two edges of the covered range. *)
Definition edge_runs (todo : list run_mod) : nat :=
  match head todo, last todo with
  | Some first, Some final => present (before_text_of first) + present (after_text_of final)
  | _, _ => 0
  end.

(** The number of runs among the children of a paragraph. *)
Definition count_runs (cs : list element) : nat :=
  length (List.filter (has_tag "w:r") cs).

(** Two covered runs in the order of [runs_to_modify]. *)
Definition precedes (m m' : run_mod) : Prop :=
  run_end m <= run_start m' /\ rm_child m < rm_child m'.

(** Sample data of the examples: a run with one text element, a paragraph
    with the given children, and a deletion record. *)
Definition sample_run (s : string) : element :=
  Element "w:r" [] [] [] [Element "w:t" [] (lit s) [] []].

Definition sample_paragraph (cs : list element) : element := Element "w:p" [] [] [] cs.

Definition sample_change : change :=
  {| c_type := deletion; c_text := lit "lo wo"; original_context := lit "Hello world";
     current_context := lit "Hel"; paragraph_index := 0; author := lit "A";
     date := lit "D"; change_id := lit "1"; c_element := Element "w:del" [] [] [] [] |}.

Definition sample_insertion : change :=
  {| c_type := insertion; c_text := lit "new"; original_context := lit "old";
     current_context := lit "old new"; paragraph_index := 0; author := lit "A";
     date := lit "D"; change_id := lit "2"; c_element := Element "w:ins" [] [] [] [] |}.

(** The answers of the model for a deletion: the text to delete. *)
Definition sample_answers (id : string) : answers :=
  {| translation := None; position_answer := None; identification := Some (lit id) |}.

Definition no_changes : counters := {| successful_changes := 0; failed_changes := 0 |}.

(** Position [i] is the last paragraph of [ps] whose text is [t], and [t]
    is not blank. *)
Definition last_with_text (ps : list element) (t : pystr) (i : nat) : Prop :=
  (exists p, ps !! i = Some p /\ _get_paragraph_text p = t)
  /\ nonempty (strip t) = true
  /\ forall j p, i < j -> ps !! j = Some p -> _get_paragraph_text p ≠ t.

(** Three paragraphs, the first and the last with the same text. *)
Definition twin_paragraphs : list element :=
  [sample_paragraph [sample_run "same"]; sample_paragraph [sample_run "other"];
   sample_paragraph [sample_run "same"]].

(** An entry of an archive. *)
Definition entry (name : string) (data : list Byte.byte) : string * list Byte.byte :=
  (name, data).

(** The entries of an archive other than the payload. *)
Definition other_entries (z : archive) : archive :=
  List.filter (fun item => negb (String.eqb item.1 document_xml)) z.

(** An archive as a word processor writes it, and one that holds two
    entries of one name. *)
Definition sample_archive : archive :=
  [("[Content_Types].xml", [Byte.x01; Byte.x02]); ("word/document.xml", [Byte.x03]);
   ("word/media/image1.png", [Byte.x04; Byte.x05; Byte.x06])].

Definition twice_named_archive : archive :=
  [("word/document.xml", [Byte.x03]); ("word/styles.xml", [Byte.x01]);
   ("word/styles.xml", [Byte.x02])].

(** A path that lies strictly above another. *)
Definition strict_prefix (q p : list string) : Prop := q `prefix_of` p /\ q ≠ p.

(** A name that unpacks to a file of that name: it does not end in a
    slash, and none of its components is empty, [.] or [..]. *)
Definition plain_name (name : string) : Prop :=
  Docs.is_dir name = Ok false /\ Docs.path_of name = Docs.split_slash name.

(** No member lies below another member. *)
Definition clash_free (names : list string) : Prop :=
  Forall (fun n1 => Forall (fun n2 => ~ strict_prefix (Docs.path_of n1) (Docs.path_of n2)) names)
         names.

(** The directory after the members [done] of the archive [z] were
    extracted: the files are the members, the directories the paths above
    them. *)
Definition unpacked (z : archive) (done : list string) (tmp_dir : Docs.directory) : Prop :=
  (forall q d, tmp_dir !! q = Some (Docs.File d)
               <-> exists n, n ∈ done /\ Docs.path_of n = q /\ read z n = Ok d)
  /\ (forall q, tmp_dir !! q = Some Docs.Dir
                <-> q ≠ [] /\ exists n, n ∈ done /\ strict_prefix q (Docs.path_of n)).

(** A record without its timestamp and identifier. *)
Definition without_stamps (c : change) : change :=
  {| c_type := c_type c; c_text := c_text c;
     original_context := original_context c; current_context := current_context c;
     paragraph_index := paragraph_index c; author := author c;
     date := []; change_id := []; c_element := c_element c |}.

(** A marker that carries its own date and identifier. *)
Definition has_stamps (m : element) : Prop :=
  is_Some (attr_lookup "w:date" (attrib m)) /\ is_Some (attr_lookup "w:id" (attrib m)).

(** A document all of whose markers carry a date and an identifier. *)
Definition stamped (root : element) : Prop :=
  Forall (fun p => Forall has_stamps (xpath_desc "w:ins" p)
                   /\ Forall has_stamps (xpath_desc "w:del" p))
         (xpath_root "w:body" "w:p" root).

(** A world whose clock and identifiers stand still. *)
Definition fixed_world (t i : string) : world :=
  {| now := fun _ => lit t; uuid8 := fun _ => lit i |}.

(** A run that holds a marker around one text element, and a document
    with one paragraph. *)
Definition marked_run (marker text_tag : string) (attrs : list (string * pystr)) (s : string)
    : element :=
  Element "w:r" [] [] [] [Element marker attrs [] [] [Element text_tag [] (lit s) [] []]].

Definition sample_document (cs : list element) : element :=
  Element "w:document" [] [] [] [Element "w:body" [] [] [] [sample_paragraph cs]].

(** What a run of [runs_info] adds to the original and to the current
    text. *)
Definition original_part (ri : run_info) : list pystr :=
  if is_deletion ri then [xpath_text "w:delText" (ri_element ri)]
  else if is_insertion ri then [] else [ri_text ri].

Definition current_part (ri : run_info) : list pystr :=
  if is_deletion ri then [] else [ri_text ri].

(** A text with a character that is not white space at each end. *)
Definition trimmed (s : pystr) : Prop :=
  match head s, last s with
  | Some c, Some d => isspace c = false /\ isspace d = false
  | _, _ => False
  end.

(** The texts, under the text element [tg], of the runs among the
    children [cs] of a paragraph. *)
Definition child_run_texts (tg : string) (cs : list element) : list pystr :=
  map (xpath_text tg) (List.filter (has_tag "w:r") cs).

(** A run with one text element, which is a child of the run and has no
    children of its own; the other children of the run hold no text
    element. *)
Definition single_text_run (r : element) : Prop :=
  exists pre a tx tl post,
    children r = pre ++ Element "w:t" a tx tl [] :: post
    /\ Forall (fun c => self_and_descendants "w:t" c = []) (pre ++ post).

Definition single_text_runs (cs : list element) : Prop :=
  Forall single_text_run (List.filter (has_tag "w:r") cs).

(** A run with one text element and no deleted text. *)
Definition plain_text_run (r : element) : Prop :=
  single_text_run r /\ xpath_text "w:delText" r = [].

(** The marker element and the text element of each kind of change. *)
Definition marker_tag (kind : change_type) : string :=
  match kind with insertion => "w:ins" | deletion => "w:del" end.

Definition text_tag (kind : change_type) : string :=
  match kind with insertion => "w:t" | deletion => "w:delText" end.

(** The record [c] was read from a marker of the paragraph it names. *)
Definition read_from (ps : list element) (c : change) : Prop :=
  exists p, ps !! paragraph_index c = Some p
    /\ c_element c ∈ xpath_desc (marker_tag (c_type c)) p
    /\ c_text c = strip (xpath_text (text_tag (c_type c)) (c_element c))
    /\ c_text c ≠ []
    /\ (original_context c, current_context c) = paragraph_contexts p
    /\ paragraph_contexts p ≠ ([], [])
    /\ author c = get (c_element c) "w:author" (lit "Unknown").

(** Records in the order of the extractor: by paragraph, and in one
    paragraph the insertions ahead of the deletions. *)
Definition in_extraction_order (c c' : change) : Prop :=
  paragraph_index c < paragraph_index c'
  \/ (paragraph_index c = paragraph_index c' /\ (c_type c = deletion -> c_type c' = deletion)).

(** An element that holds no marker, itself included. *)
Definition unmarked (e : element) : Prop :=
  self_and_descendants "w:ins" e = [] /\ self_and_descendants "w:del" e = [].

(** A paragraph none of whose markers holds text of its kind. *)
Definition blank_markers (p : element) : Prop :=
  Forall (fun m => strip (xpath_text "w:t" m) = []) (xpath_desc "w:ins" p)
  /\ Forall (fun m => strip (xpath_text "w:delText" m) = []) (xpath_desc "w:del" p).

(** The changes of the paragraph [k], in the order of the list. *)
Definition changes_of_paragraph (k : nat) (changes : list change) : list change :=
  List.filter (fun ch => paragraph_index ch =? k) changes.

(** The number of changes both counters account for. *)
Definition counted (n : counters) : nat := successful_changes n + failed_changes n.

(** A model that gives one answer to every alignment prompt and the same
    answers for every change, and one whose alignment calls raise. *)
Definition sample_oracle (response : string) (a : answers) : oracle :=
  {| alignment := fun _ => Some (lit response); best_match := fun _ => None;
     change_answers := fun _ _ => a |}.

Definition silent_oracle : oracle :=
  {| alignment := fun _ => None; best_match := fun _ => None;
     change_answers := fun _ _ => sample_answers "" |}.

(** A codec that parses every payload to one tree and writes one byte. *)
Definition sample_codec (root : element) : codec :=
  {| fromstring := fun _ => Ok root; tostring := fun _ _ => [Byte.x07] |}.

(* ===================================================================== *)
(** ** Properties of the string operations *)
(* ===================================================================== *)

Section pystr_facts.

Implicit Types s sub : pystr.

Lemma startswith_spec s sub : startswith s sub = true <-> take (length sub) s = sub.
Proof.
  revert s. induction sub as [|c sub IH]; intros [|d s]; simpl; try easy.
  rewrite andb_true_iff, bool_decide_eq_true, IH. split.
  - intros [-> ->]. done.
  - intros [= -> H]. by rewrite H.
Qed.

Lemma startswith_occurs s sub : startswith s sub = true <-> occurs_at s sub 0.
Proof. unfold occurs_at. rewrite drop_0. apply startswith_spec. Qed.

Lemma occurs_at_cons c s sub j : occurs_at (c :: s) sub (S j) <-> occurs_at s sub j.
Proof. done. Qed.

Lemma occurs_at_bound s sub j : sub ≠ [] -> occurs_at s sub j -> j + length sub <= length s.
Proof.
  unfold occurs_at. intros Hne H.
  assert (length (take (length sub) (drop j s)) = length sub) as Hl by (by rewrite H).
  rewrite length_take, length_drop in Hl.
  assert (length sub ≠ 0) by (by destruct sub). lia.
Qed.

Lemma find_from_Some i s sub n :
  find_from i s sub = Some n ->
  exists j, n = i + j /\ occurs_at s sub j /\ forall j', j' < j -> ~ occurs_at s sub j'.
Proof.
  revert i. induction s as [|c s IH]; intros i; cbn [find_from].
  - destruct (startswith [] sub) eqn:E; [|done]. intros [= <-].
    exists 0. split; [lia|]. split; [by apply startswith_occurs|lia].
  - destruct (startswith (c :: s) sub) eqn:E.
    + intros [= <-]. exists 0. split; [lia|]. split; [by apply startswith_occurs|lia].
    + intros H. destruct (IH _ H) as (j & -> & Hj & Hmin).
      exists (S j). split; [lia|]. split; [done|].
      intros [|j'] Hlt.
      * rewrite <- startswith_occurs. congruence.
      * rewrite occurs_at_cons. apply Hmin. lia.
Qed.

Lemma find_from_None i s sub : find_from i s sub = None -> forall j, ~ occurs_at s sub j.
Proof.
  revert i. induction s as [|c s IH]; intros i; cbn [find_from].
  - destruct (startswith [] sub) eqn:E; [done|]. intros _ j Hj.
    destruct sub as [|d sub]; [done|].
    unfold occurs_at in Hj. by rewrite drop_nil, take_nil in Hj.
  - destruct (startswith (c :: s) sub) eqn:E; [done|]. intros H [|j].
    + rewrite <- startswith_occurs. congruence.
    + rewrite occurs_at_cons. by eapply IH.
Qed.

(** [s.find(sub)] is the lowest index at which [sub] occurs. *)
Lemma find_Some s sub n :
  find s sub = Some n ->
  occurs_at s sub n /\ forall j, j < n -> ~ occurs_at s sub j.
Proof. intros H. apply find_from_Some in H as (j & -> & ? & ?). done. Qed.

Lemma find_None s sub : find s sub = None <-> forall j, ~ occurs_at s sub j.
Proof.
  split; [apply find_from_None|]. intros H.
  destruct (find s sub) as [n|] eqn:E; [|done].
  apply find_Some in E as [E _]. by apply H in E.
Qed.

Lemma find_occurs s sub j :
  occurs_at s sub j -> exists n, find s sub = Some n /\ n <= j.
Proof.
  intros Hj. destruct (find s sub) as [n|] eqn:E.
  - exists n. split; [done|]. apply find_Some in E as [_ Hmin].
    destruct (decide (n <= j)); [done|]. exfalso. apply (Hmin j); [lia|done].
  - exfalso. rewrite find_None in E. by apply (E j).
Qed.

Lemma contains_find s sub : contains s sub = true <-> is_Some (find s sub).
Proof. unfold contains. destruct (find s sub); split; (done || by eauto || by intros []). Qed.

Lemma nonempty_nil {A} (l : list A) : nonempty l = false <-> l = [].
Proof. by destruct l. Qed.

Lemma nonempty_true {A} (l : list A) : nonempty l = true <-> l ≠ [].
Proof. by destruct l. Qed.

Lemma length_join_cons (rt : pystr) (rts : list pystr) :
  length (join (rt :: rts)) = length rt + length (join rts).
Proof. unfold join. simpl. by rewrite length_app. Qed.

End pystr_facts.

(* ===================================================================== *)
(** ** The span locator of [docs.py] *)
(* ===================================================================== *)

Section locator.

Implicit Types (rts run_texts : list pystr) (c_text : pystr).

Lemma run_offset_cons rt rts i :
  run_offset (rt :: rts) (S i) = length rt + run_offset rts i.
Proof. unfold run_offset. simpl. apply length_join_cons. Qed.

(** Once the start is known, the loop stops at the run that holds the last
    character of the needle. *)
Lemma locate_loop_end idx len rts i pos st :
  pos < idx + len -> idx + len <= pos + length (join rts) ->
  exists de eo re,
    Docs.locate_loop idx len rts i pos (Some st) = (Some st, Some (i + de, eo))
    /\ rts !! de = Some re /\ 0 < eo <= length re
    /\ pos + run_offset rts de + eo = idx + len.
Proof.
  revert i pos. induction rts as [|rt rts IH]; intros i pos Hlt Hle.
  - simpl in Hle. lia.
  - rewrite length_join_cons in Hle. cbn [Docs.locate_loop].
    rewrite bool_decide_eq_true_2 by eauto.
    destruct (decide (idx + len <= pos + length rt)) as [Hin|Hout].
    + exists 0, (idx + len - pos), rt.
      replace (pos <? idx + len) with true by (symmetry; apply Nat.ltb_lt; lia).
      replace (idx + len <=? pos + length rt) with true by (symmetry; apply Nat.leb_le; lia).
      simpl. rewrite Nat.add_0_r. unfold run_offset. simpl. repeat split; try done; lia.
    + replace (idx + len <=? pos + length rt) with false by (symmetry; apply Nat.leb_gt; lia).
      rewrite andb_false_r.
      destruct (IH (S i) (pos + length rt)) as (de & eo & re & Heq & Hre & Heo & Hpos); [lia..|].
      exists (S de), eo, re. rewrite Heq, run_offset_cons.
      replace (S i + de) with (i + S de) by lia. repeat split; try done; lia.
Qed.

(** Before the start is known, the loop first finds the run that holds the
    first character of the needle. *)
Lemma locate_loop_start idx len rts i pos :
  0 < len -> pos <= idx -> idx + len <= pos + length (join rts) ->
  exists ds so rs de eo re,
    Docs.locate_loop idx len rts i pos None = (Some (i + ds, so), Some (i + de, eo))
    /\ ds <= de
    /\ rts !! ds = Some rs /\ so < length rs /\ pos + run_offset rts ds + so = idx
    /\ rts !! de = Some re /\ 0 < eo <= length re
    /\ pos + run_offset rts de + eo = idx + len.
Proof.
  intros Hlen. revert i pos. induction rts as [|rt rts IH]; intros i pos Hpos Hle.
  - simpl in Hle. lia.
  - rewrite length_join_cons in Hle.
    destruct (decide (idx < pos + length rt)) as [Hin|Hout].
    + (* the needle starts in this run *)
      assert (Hs : (pos <=? idx) && (idx <? pos + length rt) = true).
      { apply andb_true_iff. split; [apply Nat.leb_le|apply Nat.ltb_lt]; lia. }
      destruct (decide (idx + len <= pos + length rt)) as [Hend|Hend].
      * exists 0, (idx - pos), rt, 0, (idx + len - pos), rt.
        cbn [Docs.locate_loop]. rewrite Hs. rewrite bool_decide_eq_true_2 by eauto.
        replace (pos <? idx + len) with true by (symmetry; apply Nat.ltb_lt; lia).
        replace (idx + len <=? pos + length rt) with true by (symmetry; apply Nat.leb_le; lia).
        simpl. rewrite Nat.add_0_r. unfold run_offset. simpl. repeat split; try done; lia.
      * destruct (locate_loop_end idx len rts (S i) (pos + length rt) (i, idx - pos))
          as (de & eo & re & Heq & Hre & Heo & Hp); [lia..|].
        exists 0, (idx - pos), rt, (S de), eo, re.
        cbn [Docs.locate_loop]. rewrite Hs. rewrite bool_decide_eq_true_2 by eauto.
        replace (idx + len <=? pos + length rt) with false by (symmetry; apply Nat.leb_gt; lia).
        rewrite andb_false_r, Heq, run_offset_cons, Nat.add_0_r.
        replace (S i + de) with (i + S de) by lia.
        unfold run_offset at 1. simpl. repeat split; try done; lia.
    + assert (Hs : (pos <=? idx) && (idx <? pos + length rt) = false).
      { apply andb_false_iff. right. apply Nat.ltb_ge. lia. }
      destruct (IH (S i) (pos + length rt))
        as (ds & so & rs & de & eo & re & Heq & Hd & Hrs & Hso & Hps & Hre & Heo & Hpe); [lia..|].
      exists (S ds), so, rs, (S de), eo, re.
      cbn [Docs.locate_loop]. rewrite Hs. rewrite bool_decide_eq_false_2 by (by intros []).
      cbn [andb]. rewrite Heq, !run_offset_cons.
      replace (S i + ds) with (i + S ds) by lia. replace (S i + de) with (i + S de) by lia.
      repeat split; try done; lia.
Qed.

(** What [locate] returns for a needle that is not empty and occurs. *)
Lemma locate_found run_texts c_text idx :
  c_text ≠ [] -> find (join run_texts) c_text = Some idx ->
  exists s so rs e eo re,
    Docs.locate run_texts c_text = Ok (Docs.Located (Some (s, so)) e eo)
    /\ s <= e
    /\ run_texts !! s = Some rs /\ so < length rs /\ run_offset run_texts s + so = idx
    /\ run_texts !! e = Some re /\ 0 < eo <= length re
    /\ run_offset run_texts e + eo = idx + length c_text.
Proof.
  intros Hne Hfind. pose proof (find_Some _ _ _ Hfind) as [Hocc _].
  apply occurs_at_bound in Hocc; [|done].
  assert (0 < length c_text) by (destruct c_text; [done|simpl; lia]).
  destruct (locate_loop_start idx (length c_text) run_texts 0 0)
    as (ds & so & rs & de & eo & re & Heq & Hd & Hrs & Hso & Hps & Hre & Heo & Hpe); [lia..|].
  exists ds, so, rs, de, eo, re. unfold Docs.locate. rewrite Hfind, Heq. simpl.
  repeat split; try done; lia.
Qed.

(** A needle that is not empty and was found always has an end run: the
    fallback of lines 123 to 125 is not taken for it. *)
Lemma locate_loop_end_found run_texts c_text idx start :
  c_text ≠ [] -> find (join run_texts) c_text = Some idx ->
  Docs.locate_loop idx (length c_text) run_texts 0 0 None ≠ (start, None).
Proof.
  intros Hne Hfind. pose proof (find_Some _ _ _ Hfind) as [Hocc _].
  apply occurs_at_bound in Hocc; [|done].
  assert (0 < length c_text) by (destruct c_text; [done|simpl; lia]).
  destruct (locate_loop_start idx (length c_text) run_texts 0 0)
    as (ds & so & rs & de & eo & re & Heq & _); [lia..|].
  rewrite Heq. congruence.
Qed.

End locator.





(** Beyond the needles of the specification: the empty needle is found at
    position 0 and the walk reaches no end run for it. In the runs [ab],
    [cd] the fallback clamps the span to the end of the second run; in a
    paragraph without runs it raises [IndexError]. *)
Lemma locate_empty_needle_fallback :
  Docs.locate_loop 0 (length (@nil ascii)) [lit "ab"; lit "cd"] 0 0 None = (Some (0, 0), None)
  /\ Docs.locate [lit "ab"; lit "cd"] [] = Ok (Docs.Located (Some (0, 0)) 1 2)
  /\ Docs.locate_loop 0 (length (@nil ascii)) [] 0 0 None = (None, None)
  /\ Docs.end_or_clamp [] None = Raise IndexError
  /\ Docs.locate [] [] = Raise IndexError.
Proof. repeat split. Qed.

(* ===================================================================== *)
(** ** Facts about element trees *)
(* ===================================================================== *)

Section tree_facts.

(** Induction over element trees. *)
Lemma element_tree_ind (P : element -> Prop) :
  (forall t a x y cs, Forall P cs -> P (Element t a x y cs)) -> forall e, P e.
Proof.
  intros H. fix IH 1. intros [t a x y cs]. apply H.
  induction cs as [|c cs IHcs]; constructor; [apply IH|apply IHcs].
Qed.

Lemma paths_from_children tg e : paths_from tg e = children_paths tg 0 (children e).
Proof.
  destruct e as [t a x y cs]. simpl. generalize 0.
  induction cs as [|c cs IH]; intros i; simpl; [done|]. by rewrite IH.
Qed.

Lemma children_paths_app tg i l1 l2 :
  children_paths tg i (l1 ++ l2)
  = children_paths tg i l1 ++ children_paths tg (i + length l1) l2.
Proof.
  revert i. induction l1 as [|c l1 IH]; intros i; simpl.
  - by rewrite Nat.add_0_r.
  - rewrite IH, <- !app_assoc. by replace (S i + length l1) with (i + S (length l1)) by lia.
Qed.

Lemma map_snd_children_paths tg i l :
  Forall (fun c => map snd (paths_from tg c) = xpath_desc tg c) l ->
  map snd (children_paths tg i l) = flat_map (self_and_descendants tg) l.
Proof.
  revert i. induction l as [|c l IH]; intros i Hl; simpl; [done|].
  apply Forall_cons in Hl as [Hc Hl].
  rewrite !map_app, IH by done. f_equal.
  rewrite map_map. simpl.
  change (map (fun x : path * element => x.2) (paths_from tg c)) with (map snd (paths_from tg c)).
  rewrite Hc. destruct c as [t a x y cs]. unfold has_tag, xpath_desc. simpl.
  by destruct (String.eqb t tg).
Qed.

Lemma map_snd_paths_from tg e : map snd (paths_from tg e) = xpath_desc tg e.
Proof.
  induction e as [t a x y cs IH] using element_tree_ind.
  rewrite paths_from_children. by apply map_snd_children_paths.
Qed.

Lemma runs_of_desc p : runs_of p = xpath_desc "w:r" p.
Proof. apply map_snd_paths_from. Qed.

Lemma plain_run_self r : plain_run r -> self_and_descendants "w:r" r = [r].
Proof.
  intros [Ht Hn]. pose proof (map_snd_paths_from "w:r" r) as H.
  unfold findall in Hn. rewrite Hn in H. simpl in H.
  destruct r as [t a x y cs]. unfold has_tag, xpath_desc in *. simpl in *.
  rewrite Ht, <- H. done.
Qed.

Lemma children_paths_plain i l :
  Forall plain_run l ->
  children_paths "w:r" i l = imap (fun j c => ([i + j], c)) l.
Proof.
  revert i. induction l as [|c l IH]; intros i Hl; [done|].
  apply Forall_cons in Hl as [[Ht Hn] Hl]. cbn [children_paths].
  unfold findall in Hn. rewrite Ht, Hn, IH by done. simpl.
  rewrite Nat.add_0_r. f_equal. apply imap_ext. intros j x _. simpl. do 2 f_equal. lia.
Qed.

Lemma findall_flat p :
  flat p -> findall "w:r" p = imap (fun j c => ([j], c)) (children p).
Proof.
  intros Hp. unfold findall. rewrite paths_from_children.
  by rewrite children_paths_plain.
Qed.

Lemma flat_map_plain l : Forall plain_run l -> flat_map (self_and_descendants "w:r") l = l.
Proof.
  induction 1 as [|c l Hc Hl IH]; simpl; [done|].
  by rewrite plain_run_self, IH.
Qed.

Lemma runs_of_flat p : flat p -> runs_of p = children p.
Proof. intros Hp. rewrite runs_of_desc. by apply flat_map_plain. Qed.

Lemma run_texts_of_runs p : Docs.run_texts_of p = map (xpath_text "w:t") (runs_of p).
Proof. unfold Docs.run_texts_of, runs_of. by rewrite map_map. Qed.

Lemma findall_flat_lookup p i c :
  flat p -> children p !! i = Some c -> findall "w:r" p !! i = Some ([i], c).
Proof.
  intros Hp Hc. rewrite findall_flat by done. rewrite list_lookup_imap, Hc. done.
Qed.

End tree_facts.

(* ===================================================================== *)
(** ** The run splicer of [docs.py] *)
(* ===================================================================== *)

Section splicer.

(** The labelled children from position [i] on. *)
Lemma label_children_from (cs : list element) :
  label_children cs = imap (fun j c => (Some (0 + j), c)) cs.
Proof. done. Qed.

Lemma unlabel_imap i (cs : list element) :
  unlabel (imap (fun j c => (Some (i + j), c)) cs) = cs.
Proof.
  revert i. induction cs as [|c cs IH]; intros i; [done|]. unfold unlabel in *. simpl.
  f_equal. etrans; [|apply (IH (S i))]. f_equal. apply imap_ext. intros j x _. simpl.
  do 2 f_equal. lia.
Qed.

Lemma kid_remove_found i (L R : list kid) c :
  Forall (fun k => k.1 ≠ Some i) L ->
  kid_remove i (L ++ (Some i, c) :: R) = Ok (L ++ R).
Proof.
  induction 1 as [|k L Hk HL IH]; simpl.
  - unfold is_kid. simpl. by rewrite bool_decide_eq_true_2.
  - unfold is_kid at 1. rewrite bool_decide_eq_false_2 by done. by rewrite IH.
Qed.

Lemma kid_index_found i (L R : list kid) c :
  Forall (fun k => k.1 ≠ Some i) L ->
  kid_index i (L ++ (Some i, c) :: R) = Ok (length L).
Proof.
  induction 1 as [|k L Hk HL IH]; simpl.
  - unfold is_kid. simpl. by rewrite bool_decide_eq_true_2.
  - unfold is_kid at 1. rewrite bool_decide_eq_false_2 by done. by rewrite IH.
Qed.

(** Removing the runs [s .. s + n - 1] of a flat paragraph. *)
Lemma remove_runs_flat p (L : list kid) s n :
  flat p -> s + n <= length (children p) ->
  Forall (fun k => forall j, s <= j -> k.1 ≠ Some j) L ->
  Docs.remove_runs [] (findall "w:r" p)
    (L ++ imap (fun j c => (Some (s + j), c)) (drop s (children p))) (seq s n)
  = Ok (L ++ imap (fun j c => (Some (s + n + j), c)) (drop (s + n) (children p))).
Proof.
  intros Hp. revert s. induction n as [|n IH]; intros s Hle HL.
  - simpl. by rewrite Nat.add_0_r.
  - cbn [seq Docs.remove_runs].
    destruct (lookup_lt_is_Some_2 (children p) s) as [c Hc]; [lia|].
    unfold Docs.remove_run, Docs.getitem. rewrite (findall_flat_lookup p s c) by done.
    simpl. rewrite (drop_S _ _ _ Hc). simpl. rewrite Nat.add_0_r.
    rewrite kid_remove_found.
    2:{ eapply Forall_impl; [apply HL|]. intros k Hk. apply Hk. lia. }
    simpl.
    replace (imap ((fun j c0 => (Some (s + j), c0)) ∘ S) (drop (S s) (children p)))
      with (imap (fun j c0 => (Some (S s + j), c0)) (drop (S s) (children p))).
    2:{ apply imap_ext. intros j x _. simpl. do 2 f_equal. lia. }
    rewrite IH; [|lia|].
    + do 2 f_equal. replace (S s + n) with (s + S n) by lia. done.
    + eapply Forall_impl; [apply HL|]. intros k Hk j Hj. apply Hk. lia.
Qed.

Lemma collect_map_ok {A B} (f : A -> result B) (g : A -> B) (l : list A) :
  Forall (fun x => f x = Ok (g x)) l -> Docs.collect (map f l) = Ok (map g l).
Proof. induction 1 as [|x l Hx Hl IH]; simpl; [done|]. by rewrite Hx, IH. Qed.

Lemma insert_at_length {A} (L R : list A) x : insert_at (length L) x (L ++ R) = L ++ x :: R.
Proof. unfold insert_at. by rewrite take_app_length, drop_app_length. Qed.

Lemma insert_at_length1 {A} (L R : list A) x y :
  insert_at (S (length L)) x (L ++ y :: R) = L ++ y :: x :: R.
Proof.
  rewrite (cons_middle y L R), app_assoc.
  replace (S (length L)) with (length (L ++ [y])) by (rewrite length_app; simpl; lia).
  by rewrite insert_at_length, <- app_assoc.
Qed.

Lemma insert_at_length2 {A} (L R : list A) x y z :
  insert_at (S (S (length L))) x (L ++ y :: z :: R) = L ++ y :: z :: x :: R.
Proof.
  rewrite (cons_middle y L), app_assoc.
  replace (S (S (length L))) with (S (length (L ++ [y]))) by (rewrite length_app; simpl; lia).
  by rewrite insert_at_length1, <- app_assoc.
Qed.

Lemma splice_flat_result now p c_type s so e eo rs re :
  flat p -> s <= e ->
  Docs.run_texts_of p !! s = Some rs -> Docs.run_texts_of p !! e = Some re ->
  Docs.splice now p (findall "w:r" p) (Docs.run_texts_of p) c_type (Some (s, so)) e eo
  = Ok (with_children p
          (take s (children p)
             ++ new_children now c_type (upto so rs)
                  (marked_text s so e eo (Docs.run_texts_of p)) (from eo re)
             ++ drop (S e) (children p))).
Proof.
  intros Hp Hse Hrs Hre.
  assert (Hrts : Docs.run_texts_of p = map (xpath_text "w:t") (children p)).
  { by rewrite run_texts_of_runs, runs_of_flat. }
  assert (He : e < length (children p)).
  { apply lookup_lt_Some in Hre. by rewrite Hrts, length_map in Hre. }
  destruct (lookup_lt_is_Some_2 (children p) s) as [cs_s Hcs]; [lia|].
  unfold Docs.splice, Docs.getitem. rewrite Hrs. simpl.
  rewrite (collect_map_ok _ (part_of s so e eo (Docs.run_texts_of p))).
  2:{ apply Forall_forall. intros i Hi. apply elem_of_seq in Hi.
      unfold Docs.changed_part, Docs.getitem, part_of.
      destruct (lookup_lt_is_Some_2 (Docs.run_texts_of p) i) as [rt Hrt].
      { rewrite Hrts, length_map. lia. }
      by rewrite Hrt. }
  simpl. rewrite Hre. simpl. rewrite (findall_flat_lookup p s cs_s) by done. simpl.
  rewrite label_children_from.
  rewrite <- (take_drop s (children p)) at 1. rewrite imap_app.
  rewrite length_take, Nat.min_l by lia.
  unfold Docs.covered.
  rewrite (imap_ext _ (fun j c => (Some (s + j), c)) (drop s (children p)))
    by (intros; simpl; done).
  rewrite remove_runs_flat; [|done|lia|].
  2:{ apply Forall_forall. intros k Hk. apply elem_of_lookup_imap in Hk as (i & c & -> & Hic).
      apply lookup_lt_Some in Hic. rewrite length_take in Hic. simpl. intros j Hj [= ->]. lia. }
  cbn [mbind result_bind].
  assert (U : forall ks1 ks2, unlabel (ks1 ++ ks2) = unlabel ks1 ++ unlabel ks2).
  { intros. apply map_app. }
  rewrite !U, !unlabel_imap.
  replace (s + (S e - s)) with (S e) by lia.
  assert (Hl : length (take s (children p)) = s) by (rewrite length_take; lia).
  unfold new_children, marked_text, Docs.covered.
  generalize (join (map (part_of s so e eo (Docs.run_texts_of p)) (seq s (S e - s)))).
  intros m. generalize (drop (S e) (children p)). intros R.
  revert Hl. generalize (take s (children p)). intros L <-.
  do 2 f_equal.
  destruct (bool_decide (upto so rs = [])); destruct (bool_decide (from eo re = []));
    cbn [app]; by rewrite ?insert_at_length, ?insert_at_length1, ?insert_at_length2.
Qed.

Lemma xpath_text_create_run t : xpath_text "w:t" (Docs._create_run t) = t.
Proof. unfold xpath_text, join. simpl. by rewrite app_nil_r. Qed.

Lemma runs_of_with_children p kids :
  runs_of (with_children p kids) = flat_map (self_and_descendants "w:r") kids.
Proof. rewrite runs_of_desc. by destruct p. Qed.

Lemma runs_of_new_children now c_type before marked after :
  flat_map (self_and_descendants "w:r") (new_children now c_type before marked after)
  = new_runs before marked after.
Proof.
  unfold new_children, new_runs. rewrite !flat_map_app. f_equal; [|f_equal].
  - by destruct (bool_decide (before = [])).
  - unfold Docs._wrap_tracked_change. by destruct (String.eqb c_type "insert").
  - by destruct (bool_decide (after = [])).
Qed.

Lemma texts_of_new_runs before marked after :
  map (xpath_text "w:t") (new_runs before marked after)
  = optional_text before ++ [marked] ++ optional_text after.
Proof.
  unfold new_runs, optional_text. rewrite !map_app. simpl.
  rewrite xpath_text_create_run.
  destruct (bool_decide (before = [])); destruct (bool_decide (after = []));
    simpl; by rewrite ?xpath_text_create_run.
Qed.

Lemma length_new_runs before marked after :
  length (new_runs before marked after) = 1 + present before + present after.
Proof.
  unfold new_runs, present. rewrite !length_app.
  destruct (bool_decide (before = [])); destruct (bool_decide (after = [])); simpl; lia.
Qed.

Lemma join_app (a b : list pystr) : join (a ++ b) = join a ++ join b.
Proof. apply concat_app. Qed.

Lemma join_optional_text s : join (optional_text s) = s.
Proof.
  unfold optional_text. case_bool_decide as H; simpl; [done|]. apply app_nil_r.
Qed.

(** The runs of a flat paragraph after the splice. *)
Lemma splice_flat_runs now p c_type s so e eo rs re :
  flat p -> s <= e ->
  Docs.run_texts_of p !! s = Some rs -> Docs.run_texts_of p !! e = Some re ->
  exists p',
    Docs.splice now p (findall "w:r" p) (Docs.run_texts_of p) c_type (Some (s, so)) e eo = Ok p'
    /\ runs_of p' = take s (runs_of p)
                     ++ new_runs (upto so rs) (marked_text s so e eo (Docs.run_texts_of p))
                          (from eo re)
                     ++ drop (S e) (runs_of p).
Proof.
  intros Hp Hse Hrs Hre. eexists. split; [by eapply splice_flat_result|].
  rewrite runs_of_with_children, runs_of_flat by done.
  rewrite !flat_map_app, runs_of_new_children.
  rewrite !flat_map_plain; [done|..].
  - by apply Forall_drop.
  - by apply Forall_take.
Qed.

Lemma map_lookup_seq (rts : list pystr) a n :
  a + n <= length rts ->
  map (fun i => default [] (rts !! i)) (seq a n) = take n (drop a rts).
Proof.
  revert a. induction n as [|n IH]; intros a Hle; simpl; [done|].
  destruct (lookup_lt_is_Some_2 rts a) as [x Hx]; [lia|].
  rewrite Hx, (drop_S _ _ _ Hx). simpl. f_equal. apply IH. lia.
Qed.

Lemma join_cons (rt : pystr) (rts : list pystr) : join (rt :: rts) = rt ++ join rts.
Proof. done. Qed.

Lemma run_offset_app_length (A R : list pystr) : run_offset (A ++ R) (length A) = length (join A).
Proof. unfold run_offset. by rewrite take_app_length. Qed.

Lemma between_decomposed (A M B : list pystr) (rs re : pystr) so eo :
  so <= length rs -> eo <= length re ->
  let rts := A ++ rs :: M ++ re :: B in
  from so rs ++ join M ++ upto eo re
  = take (run_offset rts (length A + S (length M)) + eo - (run_offset rts (length A) + so))
         (drop (run_offset rts (length A) + so) (join rts)).
Proof.
  intros Hso Heo rts.
  assert (H1 : run_offset rts (length A) = length (join A)) by apply run_offset_app_length.
  assert (H2 : run_offset rts (length A + S (length M))
               = length (join A) + length rs + length (join M)).
  { unfold rts. rewrite (cons_middle rs), (app_assoc A), (app_assoc _ M).
    replace (length A + S (length M)) with (length ((A ++ [rs]) ++ M))
      by (rewrite !length_app; simpl; lia).
    rewrite run_offset_app_length, !join_app, !length_app.
    rewrite join_cons, length_app. simpl. lia. }
  rewrite H1, H2. unfold rts.
  rewrite join_app, join_cons, join_app, join_cons.
  rewrite drop_app_add. rewrite drop_app_le by done.
  replace (length (join A) + length rs + length (join M) + eo - (length (join A) + so))
    with (length (drop so rs ++ join M) + eo) by (rewrite length_app, length_drop; lia).
  unfold from, upto. rewrite !(app_assoc (drop so rs)), take_app_add.
  by rewrite take_app_le by done.
Qed.

(** A span over at least two runs marks exactly the characters between its
    two ends. *)
Lemma marked_text_between (rts : list pystr) s so e eo rs re :
  s < e -> rts !! s = Some rs -> rts !! e = Some re ->
  so <= length rs -> eo <= length re ->
  marked_text s so e eo rts
  = take (run_offset rts e + eo - (run_offset rts s + so))
         (drop (run_offset rts s + so) (join rts)).
Proof.
  intros Hse Hrs Hre Hso Heo.
  assert (He : e < length rts) by (by eapply lookup_lt_Some).
  unfold marked_text, Docs.covered.
  replace (S e - s) with (S (e - S s) + 1) by lia.
  rewrite seq_app. cbn [seq]. rewrite map_app. cbn [map].
  replace (s + S (e - S s)) with e by lia.
  assert (Hmid : map (part_of s so e eo rts) (seq (S s) (e - S s))
                 = take (e - S s) (drop (S s) rts)).
  { rewrite <- map_lookup_seq by lia. apply map_ext_in. intros i Hi.
    apply in_seq in Hi. unfold part_of.
    replace (i =? s) with false by (symmetry; apply Nat.eqb_neq; lia).
    replace (i =? e) with false by (symmetry; apply Nat.eqb_neq; lia). done. }
  rewrite Hmid. unfold part_of at 1 2. rewrite Hrs, Hre, Nat.eqb_refl.
  replace (e =? s) with false by (symmetry; apply Nat.eqb_neq; lia).
  rewrite Nat.eqb_refl. cbn [default].
  assert (Hsplit : rts = take s rts ++ rs :: take (e - S s) (drop (S s) rts)
                           ++ re :: drop (S e) rts).
  { rewrite <- (take_drop s rts) at 1. f_equal. rewrite (drop_S _ _ _ Hrs). f_equal.
    rewrite <- (take_drop (e - S s) (drop (S s) rts)) at 1. f_equal.
    rewrite drop_drop. replace (S s + (e - S s)) with e by lia.
    by rewrite (drop_S _ _ _ Hre). }
  assert (HlA : length (take s rts) = s) by (rewrite length_take; lia).
  assert (HlM : length (take (e - S s) (drop (S s) rts)) = e - S s).
  { rewrite length_take, length_drop. lia. }
  revert Hsplit HlA HlM.
  generalize (take s rts) (take (e - S s) (drop (S s) rts)) (drop (S e) rts).
  intros A M B -> HlA HlM.
  replace e with (length A + S (length M)) by lia. rewrite <- HlA.
  unfold id. rewrite join_app, !join_cons. unfold join at 2. cbn [concat].
  rewrite app_nil_r, <- app_assoc.
  by apply between_decomposed.
Qed.

(** The run splicer of [docs.py] on a flat paragraph, for a span the
    locator returned for a needle that is not empty. *)
Lemma docs_splice_flat now p c_text c_type start e eo :
  flat p -> c_text ≠ [] ->
  Docs.locate (Docs.run_texts_of p) c_text = Ok (Docs.Located start e eo) ->
  exists s so rs re p' new marked,
    start = Some (s, so) /\ s <= e
    /\ Docs.run_texts_of p !! s = Some rs /\ Docs.run_texts_of p !! e = Some re
    /\ Docs.apply_to_paragraph now p c_text c_type = Ok (Some p')
    /\ runs_of p' = take s (runs_of p) ++ new ++ drop (S e) (runs_of p)
    /\ map (xpath_text "w:t") new
       = optional_text (upto so rs) ++ [marked] ++ optional_text (from eo re)
    /\ join (Docs.run_texts_of p')
       = join (take s (Docs.run_texts_of p)) ++ upto so rs ++ marked ++ from eo re
           ++ join (drop (S e) (Docs.run_texts_of p))
    /\ length (runs_of p') + (S e - s)
       = length (runs_of p) + 1 + present (upto so rs) + present (from eo re)
    /\ (s < e -> marked = c_text).
Proof.
  intros Hp Hne Hloc.
  destruct (find (join (Docs.run_texts_of p)) c_text) as [idx|] eqn:Hfind.
  2:{ unfold Docs.locate in Hloc. by rewrite Hfind in Hloc. }
  destruct (locate_found _ _ _ Hne Hfind)
    as (s & so & rs & e' & eo' & re & Heq & Hse & Hrs & Hso & Hps & Hre & Heo & Hpe).
  rewrite Heq in Hloc. injection Hloc as <- <- <-.
  destruct (splice_flat_runs now p c_type s so e' eo' rs re) as (p' & Hsp & Hruns); [done..|].
  exists s, so, rs, re, p',
    (new_runs (upto so rs) (marked_text s so e' eo' (Docs.run_texts_of p)) (from eo' re)),
    (marked_text s so e' eo' (Docs.run_texts_of p)).
  assert (He : e' < length (runs_of p)).
  { apply lookup_lt_Some in Hre. by rewrite run_texts_of_runs, length_map in Hre. }
  split; [done|]. split; [done|]. split; [done|]. split; [done|].
  split.
  { unfold Docs.apply_to_paragraph. rewrite Heq. cbn [mbind result_bind]. by rewrite Hsp. }
  split; [done|]. split; [apply texts_of_new_runs|].
  split.
  { rewrite (run_texts_of_runs p'), Hruns, !map_app, texts_of_new_runs.
    rewrite <- !firstn_map, <- !skipn_map, <- run_texts_of_runs.
    rewrite !join_app, !join_optional_text. unfold join at 2. cbn [concat].
    by rewrite app_nil_r, <- !app_assoc. }
  split.
  { rewrite Hruns, !length_app, length_new_runs, length_take, length_drop. lia. }
  intros Hlt. rewrite (marked_text_between _ s so e' eo' rs re) by (done || lia).
  rewrite Hps, Hpe. replace (idx + length c_text - idx) with (length c_text) by lia.
  by apply find_Some in Hfind as [Hocc _].
Qed.
End splicer.

(* ===================================================================== *)
(** ** The deletion splicer of [docx_processor.py] *)
(* ===================================================================== *)

Section deletion.

Lemma delete_in_run_at ch (L R : list kid) m c :
  Forall (fun k => k.1 ≠ Some (rm_child m)) L ->
  delete_in_run ch (L ++ (Some (rm_child m), c) :: R) m
  = Ok (L ++ map (pair None) (deletion_pieces ch m) ++ R).
Proof.
  intros HL. unfold delete_in_run. rewrite kid_index_found by done.
  cbn [mbind result_bind]. unfold deletion_pieces, kid_insert.
  fold (before_text_of m). fold (after_text_of m).
  set (x := (Some (rm_child m), c)).
  assert (Hrm : forall (N : list kid), Forall (fun k : kid => k.1 = None) N ->
            kid_remove (rm_child m) (L ++ N ++ x :: R) = Ok (L ++ N ++ R)).
  { intros N HN. rewrite !app_assoc. apply kid_remove_found.
    apply Forall_app. split; [done|]. eapply Forall_impl; [apply HN|].
    intros k Hk. by rewrite Hk. }
  destruct (nonempty (before_text_of m)); destruct (nonempty (after_text_of m));
    cbn [app map]; rewrite ?(Nat.add_comm (length L)); cbn [Nat.add];
    rewrite ?insert_at_length, ?insert_at_length1, ?insert_at_length2.
  - apply (Hrm [_; _; _]). by repeat constructor.
  - apply (Hrm [_; _]). by repeat constructor.
  - apply (Hrm [_; _]). by repeat constructor.
  - apply (Hrm [_]). by repeat constructor.
Qed.

Lemma replaced_kids_app ch todo b (l1 l2 : list element) :
  replaced_kids ch todo b (l1 ++ l2)
  = replaced_kids ch todo b l1 ++ replaced_kids ch todo (b + length l1) l2.
Proof.
  unfold replaced_kids. rewrite imap_app, flat_map_app. do 2 f_equal.
  apply imap_ext. intros i x _. simpl. f_equal. lia.
Qed.

Lemma replaced_kids_cons ch todo b c (l : list element) :
  replaced_kids ch todo b (c :: l)
  = match covering todo b with
    | Some m => map (pair None) (deletion_pieces ch m)
    | None => [(Some b, c)]
    end ++ replaced_kids ch todo (S b) l.
Proof.
  unfold replaced_kids. cbn [imap flat_map]. rewrite Nat.add_0_r. cbn [fst snd]. f_equal.
  f_equal. apply imap_ext. intros i x _. simpl. f_equal. lia.
Qed.

Lemma replaced_kids_skip ch m todo b (l : list element) :
  (rm_child m < b \/ b + length l <= rm_child m) ->
  replaced_kids ch (m :: todo) b l = replaced_kids ch todo b l.
Proof.
  revert b. induction l as [|c l IH]; intros b Hb; [done|].
  rewrite !replaced_kids_cons. rewrite IH by (simpl in Hb; lia). f_equal.
  unfold covering. cbn [List.find].
  replace (rm_child m =? b) with false; [done|].
  symmetry. apply Nat.eqb_neq. simpl in Hb. lia.
Qed.

Lemma replaced_kids_labels ch todo b (l : list element) :
  Forall (fun k : kid => forall j, k.1 = Some j -> b <= j < b + length l)
         (replaced_kids ch todo b l).
Proof.
  revert b. induction l as [|c l IH]; intros b; [constructor|].
  rewrite replaced_kids_cons. apply Forall_app. split.
  - destruct (covering todo b).
    + apply Forall_forall. intros k Hk. apply list_elem_of_In, in_map_iff in Hk as (x & <- & _).
      simpl. done.
    + constructor; [|constructor]. simpl. intros j' [= <-]. lia.
  - eapply Forall_impl; [apply IH|]. simpl. intros k Hk j' Hj. specialize (Hk j' Hj). lia.
Qed.

Lemma delete_in_run_replaced ch todo cs m c :
  cs !! rm_child m = Some c -> covering todo (rm_child m) = None ->
  delete_in_run ch (replaced_kids ch todo 0 cs) m = Ok (replaced_kids ch (m :: todo) 0 cs).
Proof.
  intros Hc Hfree.
  assert (Hcs : cs = take (rm_child m) cs ++ c :: drop (S (rm_child m)) cs).
  { by rewrite <- (drop_S _ _ _ Hc), take_drop. }
  assert (Hl : length (take (rm_child m) cs) = rm_child m).
  { apply lookup_lt_Some in Hc. rewrite length_take. lia. }
  revert Hcs Hl. generalize (take (rm_child m) cs) (drop (S (rm_child m)) cs).
  intros L R -> Hl.
  rewrite !replaced_kids_app, !replaced_kids_cons, Hl. cbn [Nat.add].
  rewrite Hfree. unfold covering. cbn [List.find]. rewrite Nat.eqb_refl. fold (covering todo).
  rewrite !replaced_kids_skip by (rewrite ?Hl; lia).
  cbn [app]. by rewrite delete_in_run_at; [|eapply Forall_impl; [apply replaced_kids_labels|]; simpl; intros k Hk Heq; specialize (Hk _ Heq); lia].
Qed.

Lemma covering_None todo i :
  covering todo i = None <-> i ∉ map rm_child todo.
Proof.
  unfold covering. induction todo as [|m todo IH]; simpl.
  - split; [intros _ H; by apply elem_of_nil in H|done].
  - destruct (rm_child m =? i) eqn:E.
    + apply Nat.eqb_eq in E. split; [done|]. intros H. exfalso. apply H. rewrite E. left.
    + apply Nat.eqb_neq in E. rewrite IH, not_elem_of_cons. split; [by split|by intros []].
Qed.

Lemma delete_in_runs_replaced ch l todo cs :
  NoDup (map rm_child l) ->
  Forall (fun m => is_Some (cs !! rm_child m) /\ rm_child m ∉ map rm_child todo) l ->
  delete_in_runs ch (replaced_kids ch todo 0 cs) l
  = Ok (replaced_kids ch (reverse l ++ todo) 0 cs).
Proof.
  revert todo. induction l as [|m l IH]; intros todo Hnd Hl; [done|].
  apply Forall_cons in Hl as [[[c Hc] Hm] Hl]. cbn [map] in Hnd. apply NoDup_cons in Hnd as [Hml Hnd].
  cbn [delete_in_runs]. rewrite (delete_in_run_replaced _ _ _ _ c) by (done || by apply covering_None).
  cbn [mbind result_bind]. rewrite IH; [|done|].
  - by rewrite reverse_cons, <- app_assoc.
  - apply Forall_forall. intros m' Hm'. rewrite Forall_forall in Hl.
    destruct (Hl m' Hm') as [? ?]. split; [done|].
    cbn [map]. apply not_elem_of_cons. split; [|done].
    intros Heq. apply Hml. rewrite <- Heq. apply list_elem_of_In, in_map, list_elem_of_In, Hm'.
Qed.

Lemma replaced_kids_nil_from ch b cs :
  replaced_kids ch [] b cs = imap (fun i c => (Some (b + i), c)) cs.
Proof.
  revert b. induction cs as [|c cs IH]; intros b; [done|].
  rewrite replaced_kids_cons, IH. cbn [covering List.find app imap]. rewrite Nat.add_0_r.
  f_equal. apply imap_ext. intros; simpl. do 2 f_equal. lia.
Qed.

Lemma replaced_kids_nil ch cs : replaced_kids ch [] 0 cs = label_children cs.
Proof. apply replaced_kids_nil_from. Qed.

Lemma unlabel_replaced_kids ch todo cs :
  unlabel (replaced_kids ch todo 0 cs) = replaced_children ch todo cs.
Proof.
  unfold replaced_kids, replaced_children, unlabel.
  change (imap (fun i c => (0 + i, c)) cs) with (imap (fun i (c : element) => (i, c)) cs).
  generalize (imap (fun i (c : element) => (i, c)) cs). intros l.
  induction l as [|[i c] l IH]; [done|]. cbn [flat_map]. rewrite map_app, IH. f_equal.
  simpl. destruct (covering todo i); [|done]. rewrite map_map. simpl. apply map_id.
Qed.

(** The children selected by [./tg] come in increasing positions. *)
Lemma xpath_child_from tg b (cs : list element) :
  let l := filter (fun ic : nat * element => has_tag tg ic.2 = true)
                  (imap (fun i c => (b + i, c)) cs) in
  Forall (fun ic : nat * element =>
            b <= ic.1 /\ cs !! (ic.1 - b) = Some ic.2 /\ has_tag tg ic.2 = true) l
  /\ StronglySorted lt (map fst l).
Proof.
  revert b. induction cs as [|c cs IH]; intros b; simpl.
  - split; constructor.
  - destruct (IH (S b)) as [Hall Hsort].
    assert (Himap : imap ((fun i (c0 : element) => (b + i, c0)) ∘ S) cs
                    = imap (fun i c0 => (S b + i, c0)) cs).
    { apply imap_ext. intros; simpl. f_equal. lia. }
    rewrite Himap.
    assert (Hall' : Forall (fun ic : nat * element =>
              b <= ic.1 /\ (c :: cs) !! (ic.1 - b) = Some ic.2 /\ has_tag tg ic.2 = true)
              (filter (fun ic : nat * element => has_tag tg ic.2 = true)
                      (imap (fun i c0 => (S b + i, c0)) cs))).
    { eapply Forall_impl; [apply Hall|]. simpl. intros [i x] (Hb & Hx & Ht). simpl in *.
      split; [lia|]. split; [|done]. replace (i - b) with (S (i - S b)) by lia. done. }
    rewrite filter_cons. simpl. destruct (decide (has_tag tg c = true)) as [Ht|Ht].
    + split.
      * constructor; [|done]. simpl. rewrite Nat.add_0_r, Nat.sub_diag. done.
      * simpl. constructor; [done|]. rewrite Nat.add_0_r.
        apply Forall_forall. intros i Hi. apply list_elem_of_In, in_map_iff in Hi as ([i' x] & <- & Hin).
        rewrite Forall_forall in Hall. apply list_elem_of_In, Hall in Hin. simpl in *. lia.
    + split; [done|]. done.
Qed.

Lemma xpath_child_spec tg p :
  Forall (fun ic : nat * element =>
            children p !! ic.1 = Some ic.2 /\ has_tag tg ic.2 = true) (xpath_child tg p)
  /\ StronglySorted lt (map fst (xpath_child tg p)).
Proof.
  destruct (xpath_child_from tg 0 (children p)) as [Hall Hsort]. split; [|done].
  eapply Forall_impl; [apply Hall|]. simpl. intros [i x] (_ & Hx & Ht). simpl in *.
  by rewrite Nat.sub_0_r in Hx.
Qed.

Lemma runs_to_modify_spec ds de cs runs i pos :
  Forall (fun ic : nat * element =>
            cs !! ic.1 = Some ic.2 /\ has_tag "w:r" ic.2 = true) runs ->
  StronglySorted lt (map fst runs) ->
  let todo := runs_to_modify ds de runs i pos in
  Forall (covers ds de cs) todo
  /\ Forall (fun m => pos <= run_start m /\ In (rm_child m) (map fst runs)) todo
  /\ StronglySorted precedes todo.
Proof.
  revert i pos. induction runs as [|[ci run] runs IH]; intros i pos Hruns Hsort; simpl.
  - repeat split; constructor.
  - apply Forall_cons in Hruns as [[Hci Htag] Hruns].
    apply StronglySorted_inv in Hsort as [Hsort Hlt]. simpl in *.
    destruct (IH (S i) (pos + length (xpath_text "w:t" run)) Hruns Hsort) as (Hc & Hp & Hs).
    assert (Hp' : Forall (fun m => pos <= run_start m /\
                    (ci = rm_child m \/ In (rm_child m) (map fst runs)))
                  (runs_to_modify ds de runs (S i) (pos + length (xpath_text "w:t" run)))).
    { eapply Forall_impl; [apply Hp|]. simpl. intros m [? ?]. split; [lia|by right]. }
    destruct ((pos <? de) && (ds <? pos + length (xpath_text "w:t" run))) eqn:E; simpl.
    + apply andb_true_iff in E as [E1 E2]. apply Nat.ltb_lt in E1, E2.
      split; [|split].
      * constructor; [|done]. by repeat split.
      * constructor; [|done]. simpl. split; [lia|by left].
      * constructor; [done|]. apply Forall_forall. intros m Hm.
        rewrite Forall_forall in Hp. destruct (Hp m Hm) as [Hpos Hin].
        split; simpl; [lia|]. rewrite Forall_forall in Hlt. apply Hlt. by apply list_elem_of_In.
    + done.
Qed.

Lemma precedes_child_sorted todo :
  StronglySorted precedes todo -> StronglySorted lt (map rm_child todo).
Proof.
  induction 1 as [|m todo Hs IH Hall]; simpl; constructor; [done|].
  apply Forall_forall. intros i Hi. apply list_elem_of_In, in_map_iff in Hi as (m' & <- & Hin).
  rewrite Forall_forall in Hall. apply list_elem_of_In, Hall in Hin. by destruct Hin.
Qed.

Lemma sorted_lt_NoDup (l : list nat) : StronglySorted lt l -> NoDup l.
Proof.
  induction 1 as [|x l Hs IH Hall]; constructor; [|done].
  intros Hx. rewrite Forall_forall in Hall. specialize (Hall x Hx). lia.
Qed.

(** Only the first covered run has text before the range, and only the
    last has text after it. *)
Lemma before_text_empty ds de cs m :
  covers ds de cs m -> ds <= run_start m -> before_text_of m = [].
Proof.
  intros (_ & _ & _ & _ & _ & _ & Hs & _) Hle. unfold before_text_of, upto.
  rewrite Hs. replace (Nat.max (run_start m) ds - run_start m) with 0 by lia. done.
Qed.

Lemma after_text_empty ds de cs m :
  covers ds de cs m -> run_end m <= de -> after_text_of m = [].
Proof.
  intros (_ & _ & _ & Hlen & _ & _ & _ & He) Hle. unfold after_text_of, from.
  rewrite He. apply drop_ge. lia.
Qed.

Lemma extra_runs_edges ds de cs todo :
  Forall (covers ds de cs) todo -> StronglySorted precedes todo ->
  sum_list (map extra_runs todo) = edge_runs todo.
Proof.
  intros Hc Hs. induction Hs as [|m todo Hs IH Hall].
  - done.
  - apply Forall_cons in Hc as [Hm Hc]. specialize (IH Hc).
    cbn [map sum_list sum_list_with]. rewrite IH.
    destruct todo as [|m2 todo].
    + unfold edge_runs, extra_runs. simpl. lia.
    + assert (is_Some (last (m2 :: todo))) as [final Hlast] by (by apply last_is_Some).
      unfold edge_runs, extra_runs. cbn [head].
      rewrite (last_cons m (m2 :: todo)), Hlast.
      apply Forall_cons in Hall as [[Hm2 _] _]. apply Forall_cons in Hc as [Hc2 _].
      rewrite (after_text_empty ds de cs m), (before_text_empty ds de cs m2).
      * unfold id, present. simpl. lia.
      * done.
      * destruct Hm as (_ & _ & _ & _ & _ & ? & _). lia.
      * done.
      * destruct Hc2 as (_ & _ & _ & _ & ? & _). lia.
Qed.

Lemma count_runs_app l1 l2 : count_runs (l1 ++ l2) = count_runs l1 + count_runs l2.
Proof. unfold count_runs. by rewrite List.filter_app, length_app. Qed.

Lemma has_tag_set_t_text tg s e : has_tag tg (set_t_text s e) = has_tag tg e.
Proof. by destruct e. Qed.

Lemma present_nonempty (s : pystr) : present s = if nonempty s then 1 else 0.
Proof. by destruct s. Qed.

Lemma count_deletion_pieces ch m :
  has_tag "w:r" (rm_element m) = true ->
  count_runs (deletion_pieces ch m) = 1 + extra_runs m.
Proof.
  intros Ht. unfold deletion_pieces, extra_runs. rewrite !present_nonempty, !count_runs_app.
  destruct (nonempty (before_text_of m)); destruct (nonempty (after_text_of m));
    unfold count_runs; simpl; rewrite ?has_tag_set_t_text, ?Ht; simpl; lia.
Qed.

Lemma replaced_kids_skip_all ch todo b (l : list element) :
  Forall (fun m => rm_child m < b \/ b + length l <= rm_child m) todo ->
  replaced_kids ch todo b l = replaced_kids ch [] b l.
Proof.
  induction 1 as [|m todo Hm Hall IH]; [done|]. by rewrite replaced_kids_skip.
Qed.

Lemma unlabel_app (ks1 ks2 : list kid) : unlabel (ks1 ++ ks2) = unlabel ks1 ++ unlabel ks2.
Proof. apply map_app. Qed.

Lemma unlabel_pieces (l : list element) : unlabel (map (pair None) l) = l.
Proof. unfold unlabel. rewrite map_map. apply map_id. Qed.

(** Each covered run is replaced by its pieces: the number of runs grows
    by the runs added around the deletion runs. *)
Lemma count_replaced ch todo b (l : list element) :
  StronglySorted lt (map rm_child todo) ->
  Forall (fun m => b <= rm_child m /\ l !! (rm_child m - b) = Some (rm_element m)
                   /\ has_tag "w:r" (rm_element m) = true) todo ->
  count_runs (unlabel (replaced_kids ch todo b l))
  = count_runs l + sum_list (map extra_runs todo).
Proof.
  revert b l. induction todo as [|m todo IH]; intros b l Hs Hall.
  - rewrite replaced_kids_nil_from, unlabel_imap. simpl. lia.
  - apply Forall_cons in Hall as [(Hb & Hc & Ht) Hall].
    cbn [map] in Hs. apply StronglySorted_inv in Hs as [Hs Hlt].
    assert (Hl : l = take (rm_child m - b) l ++ rm_element m :: drop (S (rm_child m - b)) l).
    { by rewrite <- (drop_S _ _ _ Hc), take_drop. }
    assert (HL : length (take (rm_child m - b) l) = rm_child m - b).
    { apply lookup_lt_Some in Hc. rewrite length_take. lia. }
    assert (Hgt : Forall (fun m' => rm_child m < rm_child m') todo).
    { apply Forall_forall. intros m' Hm'. rewrite Forall_forall in Hlt. apply Hlt.
      by apply list_elem_of_In, in_map, list_elem_of_In. }
    assert (Hall' : Forall (fun m' => S (rm_child m) <= rm_child m'
              /\ drop (S (rm_child m - b)) l !! (rm_child m' - S (rm_child m))
                 = Some (rm_element m')
              /\ has_tag "w:r" (rm_element m') = true) todo).
    { apply Forall_forall. intros m' Hm'. rewrite Forall_forall in Hall, Hgt.
      destruct (Hall m' Hm') as (? & Hc' & ?). specialize (Hgt m' Hm').
      split; [lia|]. split; [|done]. rewrite lookup_drop. rewrite <- Hc'. f_equal. lia. }
    revert Hl HL Hall'.
    generalize (take (rm_child m - b) l) (drop (S (rm_child m - b)) l).
    intros L R -> HL Hall'.
    rewrite replaced_kids_app, replaced_kids_cons.
    replace (b + length L) with (rm_child m) by lia.
    unfold covering at 1. cbn [List.find]. rewrite Nat.eqb_refl.
    rewrite (replaced_kids_skip_all _ (m :: todo) b L).
    2:{ constructor; [lia|]. eapply Forall_impl; [apply Hgt|]. simpl. intros; lia. }
    rewrite replaced_kids_skip by lia.
    rewrite replaced_kids_nil_from, !unlabel_app, unlabel_imap, unlabel_pieces.
    rewrite !count_runs_app, count_deletion_pieces, IH by done.
    cbn [map sum_list sum_list_with]. unfold id.
    assert (count_runs (rm_element m :: R) = 1 + count_runs R).
    { unfold count_runs. simpl. by rewrite Ht. }
    lia.
Qed.

Lemma length_xpath_child_from tg b (cs : list element) :
  length (filter (fun ic : nat * element => has_tag tg ic.2 = true)
                 (imap (fun i c => (b + i, c)) cs))
  = length (List.filter (has_tag tg) cs).
Proof.
  revert b. induction cs as [|c cs IH]; intros b; [done|]. cbn [imap List.filter].
  rewrite filter_cons. cbn [snd].
  assert (Himap : imap ((fun i (c0 : element) => (b + i, c0)) ∘ S) cs
                  = imap (fun i c0 => (S b + i, c0)) cs).
  { apply imap_ext. intros; simpl. f_equal. lia. }
  rewrite Himap. specialize (IH (S b)).
  destruct (decide (has_tag tg c = true)) as [H|H].
  - rewrite H. simpl. f_equal. exact IH.
  - apply not_true_is_false in H. by rewrite H.
Qed.

Lemma length_xpath_child p : length (xpath_child "w:r" p) = count_runs (children p).
Proof. apply (length_xpath_child_from "w:r" 0). Qed.

Lemma children_with_children p cs : children (with_children p cs) = cs.
Proof. by destruct p. Qed.

(** The list [runs_to_modify] of a paragraph. *)
Lemma todo_spec ds de p :
  let todo := runs_to_modify ds de (xpath_child "w:r" p) 0 0 in
  Forall (covers ds de (children p)) todo /\ StronglySorted precedes todo.
Proof.
  destruct (xpath_child_spec "w:r" p) as [Hall Hsort].
  destruct (runs_to_modify_spec ds de (children p) _ 0 0 Hall Hsort) as (H1 & _ & H3).
  done.
Qed.

(** The deletion splicer, when it applies: it does not raise, and every
    covered run is replaced in place by its pieces. *)
Lemma apply_deletion_applied p chinese_text ch r ds :
  strip r ≠ [] -> find chinese_text (strip r) = Some ds ->
  _apply_deletion_change p chinese_text ch (Some r)
  = Ok (true, with_children p
                (replaced_children ch
                   (runs_to_modify ds (ds + length (strip r)) (xpath_child "w:r" p) 0 0)
                   (children p))).
Proof.
  intros Hne Hfind. unfold _apply_deletion_change.
  apply nonempty_true in Hne. rewrite Hne.
  unfold contains. rewrite Hfind. cbn [negb orb].
  destruct (todo_spec ds (ds + length (strip r)) p) as [Hc Hs].
  set (todo := runs_to_modify ds (ds + length (strip r)) (xpath_child "w:r" p) 0 0) in *.
  rewrite <- (replaced_kids_nil ch).
  rewrite delete_in_runs_replaced.
  - cbn [mbind result_bind]. rewrite reverse_involutive, app_nil_r.
    by rewrite unlabel_replaced_kids.
  - assert (map rm_child (reverse todo) = reverse (map rm_child todo)) as ->.
    { clear. induction todo as [|m todo IH]; [done|].
      rewrite reverse_cons, map_app, IH. simpl. by rewrite reverse_cons. }
    rewrite reverse_Permutation. apply sorted_lt_NoDup, precedes_child_sorted, Hs.
  - apply Forall_reverse. eapply Forall_impl; [apply Hc|]. simpl.
    intros m (Hm & _). split; [by eexists|]. cbn [map]. apply not_elem_of_nil.
Qed.

(** The number of runs after the deletion splicer applied. *)
Lemma apply_deletion_count p chinese_text ch r ds :
  strip r ≠ [] -> find chinese_text (strip r) = Some ds ->
  let todo := runs_to_modify ds (ds + length (strip r)) (xpath_child "w:r" p) 0 0 in
  exists p',
    _apply_deletion_change p chinese_text ch (Some r) = Ok (true, p')
    /\ children p' = replaced_children ch todo (children p)
    /\ length (xpath_child "w:r" p') = length (xpath_child "w:r" p) + edge_runs todo.
Proof.
  intros Hne Hfind. cbv zeta.
  destruct (todo_spec ds (ds + length (strip r)) p) as [Hc Hs].
  eexists. split; [by apply apply_deletion_applied|].
  rewrite children_with_children. split; [done|].
  rewrite !length_xpath_child, children_with_children.
  rewrite <- unlabel_replaced_kids, count_replaced.
  - f_equal. by eapply extra_runs_edges.
  - by apply precedes_child_sorted.
  - eapply Forall_impl; [apply Hc|]. simpl. intros m (Hm & Ht & _).
    rewrite Nat.sub_0_r. split; [lia|done].
Qed.

End deletion.

(* ===================================================================== *)
(** ** C1: text conservation, run count and frame of the splicers *)
(* ===================================================================== *)

(** C1, as the code has it. First part, the run splicer of [docs.py]: for a
    paragraph whose children are exactly its runs and a span the locator
    returned for a needle that is not empty, the splice succeeds; the runs
    before [start_run_index] and after [end_run_index] are the runs of the
    input, in place; between them stand the new runs, whose texts are the
    before text (if not empty), the marked text and the after text (if not
    empty); so the concatenated text is the text of the runs before the
    span, the before text, the marked text, the after text and the text of
    the runs after the span, and the number of runs changes by
    [-k + 1 + present before + present after] for the [k] covered runs.
    When the span covers at least two runs the marked text is the needle.
    Second part, the deletion splicer of [docx_processor.py]: it replaces
    each covered run, in place, by its own deletion run, with a run for the
    text before the range ahead of the first and a run for the text after
    the range behind the last; the other children are the children of the
    input, and the number of runs grows by [present before + present
    after]. *)
Theorem splice_conserves_text_and_frame :
  (forall now p c_text c_type start e eo,
     flat p -> c_text ≠ [] ->
     Docs.locate (Docs.run_texts_of p) c_text = Ok (Docs.Located start e eo) ->
     exists s so rs re p' new marked,
       start = Some (s, so) /\ s <= e
       /\ Docs.run_texts_of p !! s = Some rs /\ Docs.run_texts_of p !! e = Some re
       /\ Docs.apply_to_paragraph now p c_text c_type = Ok (Some p')
       /\ runs_of p' = take s (runs_of p) ++ new ++ drop (S e) (runs_of p)
       /\ map (xpath_text "w:t") new
          = optional_text (upto so rs) ++ [marked] ++ optional_text (from eo re)
       /\ join (Docs.run_texts_of p')
          = join (take s (Docs.run_texts_of p)) ++ upto so rs ++ marked ++ from eo re
              ++ join (drop (S e) (Docs.run_texts_of p))
       /\ length (runs_of p') + (S e - s)
          = length (runs_of p) + 1 + present (upto so rs) + present (from eo re)
       /\ (s < e -> marked = c_text))
  /\ (forall p chinese_text ch r ds,
        strip r ≠ [] -> find chinese_text (strip r) = Some ds ->
        let todo := runs_to_modify ds (ds + length (strip r)) (xpath_child "w:r" p) 0 0 in
        exists p',
          _apply_deletion_change p chinese_text ch (Some r) = Ok (true, p')
          /\ children p' = replaced_children ch todo (children p)
          /\ length (xpath_child "w:r" p')
             = length (xpath_child "w:r" p) + edge_runs todo).
Proof.
  split.
  - intros. by apply docs_splice_flat.
  - intros. by apply apply_deletion_count.
Qed.

(** The runs [Hello ] and [world] with the needle [lo wo], through both
    splicers. *)
Lemma splice_conserves_text_and_frame_witness :
  let p := sample_paragraph [sample_run "Hello "; sample_run "world"] in
  (exists s so rs re p' new marked,
       Some (0, 3) = Some (s, so) /\ s <= 1
       /\ Docs.run_texts_of p !! s = Some rs /\ Docs.run_texts_of p !! 1 = Some re
       /\ Docs.apply_to_paragraph (lit "D") p (lit "lo wo") "insert" = Ok (Some p')
       /\ runs_of p' = take s (runs_of p) ++ new ++ drop 2 (runs_of p)
       /\ map (xpath_text "w:t") new
          = optional_text (upto so rs) ++ [marked] ++ optional_text (from 2 re)
       /\ join (Docs.run_texts_of p')
          = join (take s (Docs.run_texts_of p)) ++ upto so rs ++ marked ++ from 2 re
              ++ join (drop 2 (Docs.run_texts_of p))
       /\ length (runs_of p') + (2 - s)
          = length (runs_of p) + 1 + present (upto so rs) + present (from 2 re)
       /\ (s < 1 -> marked = lit "lo wo"))
  /\ (exists p',
          _apply_deletion_change p (lit "Hello world") sample_change (Some (lit "lo wo"))
          = Ok (true, p')
          /\ children p'
             = replaced_children sample_change
                 (runs_to_modify 3 (3 + length (strip (lit "lo wo"))) (xpath_child "w:r" p) 0 0)
                 (children p)
          /\ length (xpath_child "w:r" p')
             = length (xpath_child "w:r" p)
               + edge_runs (runs_to_modify 3 (3 + length (strip (lit "lo wo")))
                              (xpath_child "w:r" p) 0 0)).
Proof.
  intros p. split.
  - apply (proj1 splice_conserves_text_and_frame (lit "D") p (lit "lo wo") "insert"
             (Some (0, 3)) 1 2).
    + repeat constructor.
    + discriminate.
    + reflexivity.
  - apply (proj2 splice_conserves_text_and_frame p (lit "Hello world") sample_change
             (lit "lo wo") 3).
    + discriminate.
    + reflexivity.
Defined.

(** C1 fails in the deletion splicer. The needle [lo wo] covers the [k = 2]
    runs [Hello ] and [world]; with text before and after the range the
    claim gives [-k + 3], one run more than the two of the input, but the
    splicer leaves four: [Hel], the deletion runs of [lo ] and of [wo], and
    [rld]. The change [+2] is none of [-k + 1], [-k + 2], [-k + 3]. *)
Lemma splice_run_count_counterexample :
  let p := sample_paragraph [sample_run "Hello "; sample_run "world"] in
  exists p' k,
    _apply_deletion_change p (lit "Hello world") sample_change (Some (lit "lo wo"))
    = Ok (true, p')
    /\ k = length (runs_to_modify 3 8 (xpath_child "w:r" p) 0 0) /\ k = 2
    /\ map (fun ic : nat * element => xpath_text "w:t" ic.2) (xpath_child "w:r" p')
       = [lit "Hel"; []; []; lit "rld"]
    /\ map (fun ic : nat * element => xpath_text "w:delText" ic.2) (xpath_child "w:r" p')
       = [[]; lit "lo "; lit "wo"; []]
    /\ length (xpath_child "w:r" p') = length (xpath_child "w:r" p) + 2
    /\ forall j, j = 1 \/ j = 2 \/ j = 3 ->
         length (xpath_child "w:r" p') + k ≠ length (xpath_child "w:r" p) + j.
Proof.
  eexists. exists 2. split; [reflexivity|]. repeat split.
  intros j [-> | [-> | ->]]; vm_compute; lia.
Qed.

(** The run splicer of [docs.py] inserts at the index the start run has
    among the runs, not at its index among the children of its parent: with
    a properties element ahead of the runs [ab] and [cd], marking [cd] puts
    the marked run ahead of [ab]. *)
Lemma docs_splice_with_properties_element :
  let p := sample_paragraph [Element "w:pPr" [] [] [] []; sample_run "ab"; sample_run "cd"] in
  Docs.run_texts_of p = [lit "ab"; lit "cd"]
  /\ Docs.locate (Docs.run_texts_of p) (lit "cd") = Ok (Docs.Located (Some (1, 0)) 1 2)
  /\ exists p', Docs.apply_to_paragraph (lit "D") p (lit "cd") "insert" = Ok (Some p')
       /\ Docs.run_texts_of p' = [lit "cd"; lit "ab"].
Proof. repeat split. eexists. split; reflexivity. Qed.

(** A span inside one run: the marked run takes the text from the start
    offset to the end of the run, and the after run repeats the text behind
    the needle. *)
Lemma docs_splice_inside_one_run :
  let p := sample_paragraph [sample_run "Hello world"] in
  Docs.locate (Docs.run_texts_of p) (lit "lo") = Ok (Docs.Located (Some (0, 3)) 0 5)
  /\ exists p', Docs.apply_to_paragraph (lit "D") p (lit "lo") "insert" = Ok (Some p')
       /\ Docs.run_texts_of p' = [lit "Hel"; lit "lo world"; lit " world"].
Proof. split; [reflexivity|]. eexists. split; reflexivity. Qed.

(* ===================================================================== *)
(** ** The orchestrator: insertions, deletions and the counters *)
(* ===================================================================== *)

Section orchestrator.

Lemma apply_deletion_refused p chinese_text ch raw :
  (raw = None \/ exists r, raw = Some r /\
      (strip r = [] \/ forall j, ~ occurs_at chinese_text (strip r) j)) ->
  _apply_deletion_change p chinese_text ch raw = Ok (false, p).
Proof.
  intros [-> | (r & -> & [Hr | Hr])]; [done|..]; unfold _apply_deletion_change.
  - by rewrite Hr.
  - apply find_None in Hr. unfold contains. rewrite Hr. by rewrite orb_true_r.
Qed.


(** The insertion raises for a translated text that XML cannot hold, and
    leaves the paragraph alone. *)
Lemma apply_insertion_refused p text_to_insert chinese_text ch position_str :
  xml_compatible text_to_insert = false ->
  _apply_insertion_change p text_to_insert chinese_text ch position_str = Raise ValueError.
Proof. intros H. unfold _apply_insertion_change. by rewrite H. Qed.





(** The deletion never raises either. *)
Lemma apply_deletion_total p chinese_text ch raw :
  exists b p', _apply_deletion_change p chinese_text ch raw = Ok (b, p').
Proof.
  destruct raw as [r|]; [|by exists false, p].
  destruct (decide (strip r = [])) as [Hr|Hr].
  { exists false, p. apply apply_deletion_refused. right. exists r. split; [done|by left]. }
  destruct (find chinese_text (strip r)) as [ds|] eqn:Hfind.
  - eexists true, _. by apply apply_deletion_applied.
  - exists false, p. apply apply_deletion_refused. right. exists r. split; [done|]. right.
    by apply find_None.
Qed.

(** Every change is counted once, as a success or as a failure. *)
Lemma apply_one_counts_once chinese_text n p ch a :
  let n' := (apply_one chinese_text (n, p) ch a).1 in
  successful_changes n' + failed_changes n'
  = successful_changes n + failed_changes n + 1.
Proof.
  unfold apply_one. destruct (c_type ch).
  - destruct (translation a) as [text|]; [|simpl; lia].
    destruct (_apply_insertion_change p text chinese_text ch (position_answer a));
      simpl; lia.
  - destruct (_apply_deletion_change p chinese_text ch (identification a)) as [[[] p']|];
      simpl; lia.
Qed.

End orchestrator.

Section insertion.

Lemma xpath_child_app tg p extra :
  xpath_child tg (with_children p (children p ++ extra))
  = xpath_child tg p
    ++ filter (fun ic : nat * element => has_tag tg ic.2 = true)
              (imap (fun i c => (length (children p) + i, c)) extra).
Proof.
  unfold xpath_child. rewrite children_with_children, imap_app, filter_app. done.
Qed.

Lemma has_tag_ins_run text a d i :
  has_tag "w:r" (_create_track_changes_element insertion text a d i) = true.
Proof. done. Qed.

End insertion.

(** C3, as the code has it. A deletion whose target text could not be
    obtained, is empty after stripping, or does not occur in the paragraph
    text the orchestrator passes (the text the paragraph had when the
    document was loaded) returns failure and leaves the paragraph as it
    was; the orchestrator then adds one to the failure counter and leaves
    the success counter alone. *)
Theorem deletion_soft_failure p chinese_text ch a n :
  c_type ch = deletion ->
  (identification a = None \/ exists r, identification a = Some r /\
      (strip r = [] \/ forall j, ~ occurs_at chinese_text (strip r) j)) ->
  _apply_deletion_change p chinese_text ch (identification a) = Ok (false, p)
  /\ apply_one chinese_text (n, p) ch a
     = ({| successful_changes := successful_changes n;
           failed_changes := failed_changes n + 1 |}, p).
Proof.
  intros Hty Hraw. pose proof (apply_deletion_refused p chinese_text ch _ Hraw) as H.
  split; [done|]. unfold apply_one. by rewrite Hty, H.
Qed.

(** The target [x] does not occur in [abc]. *)
Lemma deletion_soft_failure_witness :
  let p := sample_paragraph [sample_run "abc"] in
  _apply_deletion_change p (lit "abc") sample_change (identification (sample_answers "x"))
  = Ok (false, p)
  /\ apply_one (lit "abc") (no_changes, p) sample_change (sample_answers "x")
     = ({| successful_changes := successful_changes no_changes;
           failed_changes := failed_changes no_changes + 1 |}, p).
Proof.
  intros p.
  apply (deletion_soft_failure p (lit "abc") sample_change (sample_answers "x") no_changes).
  - reflexivity.
  - right. exists (lit "x"). split; [reflexivity|]. right.
    apply find_None. reflexivity.
Defined.

(** C3 fails for the current text of the paragraph. After a first
    deletion of [b] from [abc] the paragraph reads [ac]; a second deletion
    of [b] is still checked against the text [abc] taken at load time, so
    it returns success, wraps the [c] that now sits at the old position of
    [b], and the success counter goes to two while the failure counter
    stays at zero. *)
Lemma deletion_stale_text_counterexample :
  let p0 := sample_paragraph [sample_run "abc"] in
  let chinese_text := _get_paragraph_text p0 in
  let a := sample_answers "b" in
  exists p1 p2,
    apply_one chinese_text (no_changes, p0) sample_change a
    = ({| successful_changes := 1; failed_changes := 0 |}, p1)
    /\ _get_paragraph_text p1 = lit "ac"
    /\ (forall j, ~ occurs_at (_get_paragraph_text p1) (lit "b") j)
    /\ _apply_deletion_change p1 chinese_text sample_change (identification a) = Ok (true, p2)
    /\ p2 ≠ p1
    /\ map (fun ic : nat * element => xpath_text "w:delText" ic.2) (xpath_child "w:r" p2)
       = [[]; lit "b"; lit "c"]
    /\ apply_one chinese_text ({| successful_changes := 1; failed_changes := 0 |}, p1)
         sample_change a
       = ({| successful_changes := 2; failed_changes := 0 |}, p2).
Proof.
  intros p0 chinese_text a. eexists. eexists.
  split; [reflexivity|]. split; [reflexivity|].
  split; [apply find_None; reflexivity|].
  split; [reflexivity|]. split; [discriminate|]. split; reflexivity.
Qed.

(** C9, as the code has it. An insertion of a translated text that XML
    can hold into a paragraph without runs appends the new marked run to
    the children of the paragraph, whatever the model answers for the
    position, and the new run is then the only run of the paragraph. For
    any other translated text the insertion raises [ValueError], in a
    paragraph with or without runs, and the orchestrator counts the record
    as failed and leaves the paragraph as it was. *)
Theorem insertion_into_paragraph_without_runs p text_to_insert chinese_text ch position_str :
  xpath_child "w:r" p = [] ->
  let ins_run := _create_track_changes_element insertion text_to_insert
                   (author ch) (date ch) (change_id ch) in
  (xml_compatible text_to_insert = true ->
   exists p',
     _apply_insertion_change p text_to_insert chinese_text ch position_str = Ok p'
     /\ children p' = children p ++ [ins_run]
     /\ map snd (xpath_child "w:r" p') = [ins_run])
  /\ (xml_compatible text_to_insert = false ->
      _apply_insertion_change p text_to_insert chinese_text ch position_str = Raise ValueError
      /\ forall n a, c_type ch = insertion -> translation a = Some text_to_insert ->
           position_answer a = position_str ->
           apply_one chinese_text (n, p) ch a = (failed n, p)).
Proof.
  intros Hruns ins_run. split.
  2:{ intros Hxml.
      pose proof (apply_insertion_refused p text_to_insert chinese_text ch position_str Hxml)
        as Hraise.
      split; [done|]. intros n a Hty Htr <-. unfold apply_one. by rewrite Hty, Htr, Hraise. }
  intros Hxml. unfold _apply_insertion_change. rewrite Hxml, Hruns. cbn [negb find_target_run].
  eexists. split; [reflexivity|]. rewrite children_with_children. split; [done|].
  rewrite xpath_child_app, Hruns. cbn [imap app]. rewrite filter_cons. cbn [snd].
  fold ins_run. by rewrite decide_True by done.
Qed.

(** A paragraph that holds only its properties element. *)
Lemma insertion_into_paragraph_without_runs_witness :
  let p := sample_paragraph [Element "w:pPr" [] [] [] []] in
  let ins_run := _create_track_changes_element insertion (lit "new")
                   (author sample_insertion) (date sample_insertion) (change_id sample_insertion) in
  exists p',
    _apply_insertion_change p (lit "new") [] sample_insertion (Some (lit "0")) = Ok p'
    /\ children p' = children p ++ [ins_run]
    /\ map snd (xpath_child "w:r" p') = [ins_run].
Proof.
  intros p.
  destruct (insertion_into_paragraph_without_runs p (lit "new") [] sample_insertion
              (Some (lit "0")) eq_refl) as [Hok _].
  exact (Hok eq_refl).
Defined.

(** C9 fails for a translated text that XML cannot hold. The model answers
    the translation prompt with a text that holds the control character
    with code 1: building the new run raises [ValueError], the paragraph
    without runs stays without runs, and the record counts as failed. *)
Lemma insertion_of_control_character_counterexample :
  let p := sample_paragraph [Element "w:pPr" [] [] [] []] in
  let text_to_insert := ["a"%char; "001"%char] in
  let a := {| translation := Some text_to_insert; position_answer := Some (lit "0");
              identification := None |} in
  xpath_child "w:r" p = []
  /\ _apply_insertion_change p text_to_insert [] sample_insertion (Some (lit "0"))
     = Raise ValueError
  /\ apply_one [] (no_changes, p) sample_insertion a
     = ({| successful_changes := 0; failed_changes := 1 |}, p).
Proof. repeat split. Qed.




(* ===================================================================== *)
(** ** The extractor *)
(* ===================================================================== *)

Section contexts.

Lemma context_parts_from acc runs_info :
  fold_left context_step runs_info acc
  = (acc.1 ++ flat_map original_part runs_info, acc.2 ++ flat_map current_part runs_info).
Proof.
  revert acc. induction runs_info as [|ri l IH]; intros [o c]; simpl.
  - by rewrite !app_nil_r.
  - rewrite IH. unfold original_part, current_part.
    destruct (is_deletion ri); [|destruct (is_insertion ri)]; simpl;
      by rewrite <- ?app_assoc.
Qed.

(** A run marked as deleted adds its deleted text to the original text
    only, a run marked as inserted adds its text to the current text only,
    and any other run adds its text to both: for the runs that
    [runs_info] holds. *)
Lemma context_parts_spec runs_info :
  context_parts runs_info
  = (flat_map original_part runs_info, flat_map current_part runs_info).
Proof. unfold context_parts. by rewrite context_parts_from. Qed.

(** [runs_info] holds only runs with text in [w:t] elements. *)
Lemma runs_info_have_text p :
  Forall (fun ri => xpath_text "w:t" (ri_element ri) ≠ [])
         (_get_paragraph_text_with_structure p).
Proof.
  unfold _get_paragraph_text_with_structure. apply Forall_forall. intros ri Hri.
  apply list_elem_of_In, in_flat_map in Hri as ([i run] & _ & Hri). cbn [snd] in Hri.
  destruct (nonempty (xpath_text "w:t" run)) eqn:E; [|done].
  destruct Hri as [<-|[]]. cbn [ri_element]. by apply nonempty_true.
Qed.

(** So a deletion run as this program writes it, whose text sits in a
    [w:delText] element, is not in [runs_info]. *)
Lemma written_deletion_run_not_in_runs_info p text a d i :
  Forall (fun ri => ri_element ri ≠ _create_track_changes_element deletion text a d i)
         (_get_paragraph_text_with_structure p).
Proof.
  eapply Forall_impl; [apply runs_info_have_text|]. simpl. intros ri Hri Heq.
  apply Hri. by rewrite Heq.
Qed.

(** A marker whose stripped text is empty gives no record. *)
Lemma blank_marker_gives_no_record w k kind text_tag original current para_idx m ms :
  strip (xpath_text text_tag m) = [] ->
  marker_changes w k kind text_tag original current para_idx (m :: ms)
  = marker_changes w k kind text_tag original current para_idx ms.
Proof. intros H. cbn [marker_changes]. by rewrite H. Qed.

Lemma marker_changes_texts w k kind text_tag original current para_idx ms :
  Forall (fun c => c_text c ≠ [])
         (marker_changes w k kind text_tag original current para_idx ms).1.
Proof.
  revert k. induction ms as [|m ms IH]; intros k; [constructor|]. cbn [marker_changes].
  destruct (nonempty (strip (xpath_text text_tag m))) eqn:E; [|apply IH].
  cbn [fst]. constructor; [|apply IH]. cbn [c_text]. by apply nonempty_true.
Qed.

(** [docs.py] records no change with a blank text either. *)
Lemma extract_tracked_changes_texts tree :
  Forall (fun c => Docs.text c ≠ []) (Docs.extract_tracked_changes tree).
Proof.
  unfold Docs.extract_tracked_changes, Docs.marked_texts. apply Forall_app. split.
  all: apply Forall_forall; intros c Hc;
    apply list_elem_of_In, in_flat_map in Hc as (m & _ & Hc);
    case_bool_decide as Hm; [done|]; destruct Hc as [<-|[]]; done.
Qed.

End contexts.

(** C4 at the failing input: a paragraph with the run [Hello ] and a
    deletion run, as this program writes it, for [world]. The deletion run
    has no text in [w:t] elements, so [runs_info] leaves it out and its
    deleted text is missing from the original context, which reads [Hello]
    and not [Hello world]. *)
Lemma deleted_run_left_out_of_original_context :
  let del_run := _create_track_changes_element deletion (lit "world")
                   (lit "Ann") (lit "2024") (lit "7") in
  let p := sample_paragraph [sample_run "Hello "; del_run] in
  xpath_text "w:delText" del_run = lit "world"
  /\ nonempty (xpath_desc "w:del" del_run) = true
  /\ map ri_text (_get_paragraph_text_with_structure p) = [lit "Hello "]
  /\ paragraph_contexts p = (lit "Hello", lit "Hello")
  /\ map (fun c => (c_type c, c_text c, original_context c, current_context c))
       (_extract_changes_from_english_docx (fixed_world "noon" "1")
          (sample_document [sample_run "Hello "; del_run]))
     = [(deletion, lit "world", lit "Hello", lit "Hello")].
Proof. repeat split. Qed.

(** The same holds for markers that wrap their runs, as a word processor
    writes them: only the runs that are children of the paragraph are
    walked, so neither the inserted nor the deleted text reaches a
    context, while both markers give a record. *)
Lemma runs_under_markers_not_walked :
  let stamps := [("w:author", lit "Ann"); ("w:date", lit "2024"); ("w:id", lit "7")] in
  let cs := [sample_run "Hello ";
             Element "w:ins" stamps [] [] [sample_run "new"];
             Element "w:del" stamps [] []
               [Element "w:r" [] [] [] [Element "w:delText" [] (lit "old") [] []]]] in
  paragraph_contexts (sample_paragraph cs) = (lit "Hello", lit "Hello")
  /\ map (fun c => (c_type c, c_text c, original_context c, current_context c))
       (_extract_changes_from_english_docx (fixed_world "noon" "1") (sample_document cs))
     = [(insertion, lit "new", lit "Hello", lit "Hello");
        (deletion, lit "old", lit "Hello", lit "Hello")].
Proof. repeat split. Qed.

Section extractor.

Lemma marker_changes_without_stamps w1 w2 k1 k2 kind text_tag original current para_idx ms :
  map without_stamps (marker_changes w1 k1 kind text_tag original current para_idx ms).1
  = map without_stamps (marker_changes w2 k2 kind text_tag original current para_idx ms).1.
Proof.
  revert k1 k2. induction ms as [|m ms IH]; intros k1 k2; [done|]. cbn [marker_changes].
  destruct (nonempty (strip (xpath_text text_tag m))); [|apply IH].
  cbn [fst map]. f_equal. apply IH.
Qed.

Lemma get_stamped m name d1 d2 :
  is_Some (attr_lookup name (attrib m)) -> get m name d1 = get m name d2.
Proof. intros [v Hv]. unfold get. by rewrite Hv. Qed.

Lemma marker_changes_stamped w1 w2 k1 k2 kind text_tag original current para_idx ms :
  Forall has_stamps ms ->
  (marker_changes w1 k1 kind text_tag original current para_idx ms).1
  = (marker_changes w2 k2 kind text_tag original current para_idx ms).1.
Proof.
  intros Hms. revert k1 k2. induction Hms as [|m ms [Hd Hi] Hms IH]; intros k1 k2; [done|].
  cbn [marker_changes].
  destruct (nonempty (strip (xpath_text text_tag m))); [|apply IH].
  cbn [fst]. rewrite (IH (S k1) (S k2)).
  by rewrite (get_stamped m "w:date" (now w1 k1) (now w2 k2)),
             (get_stamped m "w:id" (uuid8 w1 k1) (uuid8 w2 k2)).
Qed.

Lemma extract_paragraph_without_stamps w1 w2 k1 k2 para_idx p :
  map without_stamps (extract_paragraph w1 k1 para_idx p).1
  = map without_stamps (extract_paragraph w2 k2 para_idx p).1.
Proof.
  unfold extract_paragraph. destruct (paragraph_contexts p) as [o c].
  destruct (negb (nonempty o) && negb (nonempty c)); [done|]. cbn [fst].
  rewrite !map_app. f_equal; apply marker_changes_without_stamps.
Qed.

Lemma extract_paragraph_stamped w1 w2 k1 k2 para_idx p :
  Forall has_stamps (xpath_desc "w:ins" p) -> Forall has_stamps (xpath_desc "w:del" p) ->
  (extract_paragraph w1 k1 para_idx p).1 = (extract_paragraph w2 k2 para_idx p).1.
Proof.
  intros Hi Hd. unfold extract_paragraph. destruct (paragraph_contexts p) as [o c].
  destruct (negb (nonempty o) && negb (nonempty c)); [done|]. cbn [fst].
  f_equal; by apply marker_changes_stamped.
Qed.

Lemma extract_paragraphs_without_stamps w1 w2 k1 k2 para_idx ps :
  map without_stamps (extract_paragraphs w1 k1 para_idx ps)
  = map without_stamps (extract_paragraphs w2 k2 para_idx ps).
Proof.
  revert k1 k2 para_idx. induction ps as [|p ps IH]; intros k1 k2 para_idx; [done|].
  cbn [extract_paragraphs]. rewrite !map_app. f_equal; [|apply IH].
  apply extract_paragraph_without_stamps.
Qed.

Lemma extract_paragraphs_stamped w1 w2 k1 k2 para_idx ps :
  Forall (fun p => Forall has_stamps (xpath_desc "w:ins" p)
                   /\ Forall has_stamps (xpath_desc "w:del" p)) ps ->
  extract_paragraphs w1 k1 para_idx ps = extract_paragraphs w2 k2 para_idx ps.
Proof.
  intros Hps. revert k1 k2 para_idx.
  induction Hps as [|p ps [Hi Hd] Hps IH]; intros k1 k2 para_idx; [done|].
  cbn [extract_paragraphs]. f_equal; [by apply extract_paragraph_stamped|apply IH].
Qed.

End extractor.

(** C7, as the code has it. Two runs of the extractor on one document
    yield records that agree, in the same order, in kind, text, author,
    paragraph index, contexts and marker element; and the two sequences
    are identical when every insertion and deletion marker of the document
    carries a date and an identifier of its own. *)
Theorem extraction_repeatable :
  (forall w1 w2 root,
     map without_stamps (_extract_changes_from_english_docx w1 root)
     = map without_stamps (_extract_changes_from_english_docx w2 root))
  /\ (forall w1 w2 root,
        stamped root ->
        _extract_changes_from_english_docx w1 root
        = _extract_changes_from_english_docx w2 root).
Proof.
  split.
  - intros. apply extract_paragraphs_without_stamps.
  - intros. by apply extract_paragraphs_stamped.
Qed.

(** One insertion marker with date and identifier, read at two times. *)
Lemma extraction_repeatable_witness :
  let root := sample_document
                [sample_run "kept ";
                 marked_run "w:ins" "w:t"
                   [("w:author", lit "Ann"); ("w:date", lit "2024"); ("w:id", lit "7")] "new"] in
  _extract_changes_from_english_docx (fixed_world "noon" "1") root
  = _extract_changes_from_english_docx (fixed_world "dusk" "2") root
  /\ map c_text (_extract_changes_from_english_docx (fixed_world "noon" "1") root) = [lit "new"].
Proof.
  intros root. split; [|reflexivity].
  apply (proj2 extraction_repeatable (fixed_world "noon" "1") (fixed_world "dusk" "2") root).
  repeat constructor; simpl; eauto.
Defined.

(** C7 fails for a marker without date and identifier: the extractor
    fills both in from the clock and a fresh random number, so two runs on
    the same document yield different records. *)
Lemma extraction_default_stamps_counterexample :
  let root := sample_document
                [sample_run "kept "; marked_run "w:ins" "w:t" [("w:author", lit "Ann")] "new"] in
  map date (_extract_changes_from_english_docx (fixed_world "noon" "1") root) = [lit "noon"]
  /\ map date (_extract_changes_from_english_docx (fixed_world "dusk" "2") root) = [lit "dusk"]
  /\ map change_id (_extract_changes_from_english_docx (fixed_world "noon" "1") root) = [lit "1"]
  /\ map change_id (_extract_changes_from_english_docx (fixed_world "dusk" "2") root) = [lit "2"]
  /\ _extract_changes_from_english_docx (fixed_world "noon" "1") root
     ≠ _extract_changes_from_english_docx (fixed_world "dusk" "2") root.
Proof. repeat split. discriminate. Qed.

(* ===================================================================== *)
(** ** Paragraph resolution *)
(* ===================================================================== *)

Section paragraph_resolution.

Lemma build_para_map_snoc ps p :
  build_para_map (ps ++ [p]) = para_map_step (build_para_map ps) (length ps, p).
Proof.
  unfold build_para_map. rewrite imap_app, fold_left_app. simpl. by rewrite Nat.add_0_r.
Qed.

Lemma build_para_map_lookup ps t i :
  (build_para_map ps).1 !! t = Some i <-> last_with_text ps t i.
Proof.
  revert t i. induction ps as [|p ps IH] using rev_ind; intros t i.
  - unfold build_para_map. simpl. rewrite lookup_empty. split; [done|].
    intros [(p & Hp & _) _]. done.
  - rewrite build_para_map_snoc. unfold para_map_step. cbn [fst snd].
    destruct (nonempty (strip (_get_paragraph_text p))) eqn:Hne; cbn [fst].
    + destruct (decide (_get_paragraph_text p = t)) as [<-|Hneq].
      * rewrite lookup_insert_eq. split.
        -- intros [= <-]. split; [|split; [done|]].
           ++ exists p. by rewrite list_lookup_middle.
           ++ intros j p' Hj Hp'. apply lookup_lt_Some in Hp'.
              rewrite length_app in Hp'. simpl in Hp'. lia.
        -- intros [(p' & Hp' & Ht) [_ Hlast]]. f_equal.
           destruct (decide (i = length ps)) as [->|Hi]; [done|]. exfalso.
           assert (i < length ps).
           { apply lookup_lt_Some in Hp'. rewrite length_app in Hp'. simpl in Hp'. lia. }
           eapply (Hlast (length ps) p); [lia|by rewrite list_lookup_middle|done].
      * rewrite lookup_insert_ne by done. rewrite IH. split.
        -- intros [(p' & Hp' & Ht) [Hn Hlast]]. split; [|split; [done|]].
           ++ exists p'. split; [|done]. by apply lookup_app_l_Some.
           ++ intros j p'' Hj Hp''. apply lookup_app_Some in Hp'' as [Hp''|[_ Hp'']].
              ** by eapply Hlast.
              ** apply list_lookup_singleton_Some in Hp'' as [_ <-]. done.
        -- intros [(p' & Hp' & Ht) [Hn Hlast]].
           apply lookup_app_Some in Hp' as [Hp'|[_ Hp']].
           ++ split; [by exists p'|]. split; [done|]. intros j p'' Hj Hp''.
              eapply Hlast; [done|]. by apply lookup_app_l_Some.
           ++ apply list_lookup_singleton_Some in Hp' as [_ <-]. done.
    + rewrite IH. split.
      * intros [(p' & Hp' & Ht) [Hn Hlast]]. split; [|split; [done|]].
        -- exists p'. split; [|done]. by apply lookup_app_l_Some.
        -- intros j p'' Hj Hp''. apply lookup_app_Some in Hp'' as [Hp''|[_ Hp'']].
           ++ by eapply Hlast.
           ++ apply list_lookup_singleton_Some in Hp'' as [_ <-]. intros <-. congruence.
      * intros [(p' & Hp' & Ht) [Hn Hlast]].
        apply lookup_app_Some in Hp' as [Hp'|[_ Hp']].
        -- split; [by exists p'|]. split; [done|]. intros j p'' Hj Hp''.
           eapply Hlast; [done|]. by apply lookup_app_l_Some.
        -- apply list_lookup_singleton_Some in Hp' as [_ <-]. subst t. congruence.
Qed.

(** The pair the matcher returns names the last paragraph with the text it
    chose. *)
Lemma paragraph_at_last ps index t i :
  paragraph_at (build_para_map ps).2 (build_para_map ps).1 index = Some (t, i) ->
  last_with_text ps t i.
Proof.
  unfold paragraph_at. destruct ((build_para_map ps).2 !! index) as [t'|]; [|done].
  destruct ((build_para_map ps).1 !! t') as [i'|] eqn:Hm; [|done].
  intros [= <- <-]. by apply build_para_map_lookup.
Qed.

Lemma locate_NoMatch run_texts c_text :
  Docs.locate run_texts c_text = Ok Docs.NoMatch <-> find (join run_texts) c_text = None.
Proof.
  unfold Docs.locate. destruct (find (join run_texts) c_text) as [idx|]; [|done].
  split; [|done].
  destruct (Docs.locate_loop idx (length c_text) run_texts 0 0 None) as [start [[e eo]|]];
    [done|].
  destruct (length run_texts); [done|]. by destruct (run_texts !! n).
Qed.

Lemma apply_to_paragraph_outcome now p c_text c_type r :
  Docs.apply_to_paragraph now p c_text c_type = Ok r ->
  match r with
  | None => find (join (Docs.run_texts_of p)) c_text = None
  | Some _ => is_Some (find (join (Docs.run_texts_of p)) c_text)
  end.
Proof.
  unfold Docs.apply_to_paragraph.
  destruct (Docs.locate (Docs.run_texts_of p) c_text) as [[|start e eo]|err] eqn:Hloc;
    cbn [mbind result_bind]; [| |done].
  - intros [= <-]. by apply locate_NoMatch.
  - destruct (Docs.splice _ _ _ _ _ _ _ _); cbn [mbind result_bind]; [|done].
    intros [= <-]. destruct (find (join (Docs.run_texts_of p)) c_text) eqn:Hf; [eauto|].
    apply locate_NoMatch in Hf. congruence.
Qed.

(** [docs.py]: the paragraph that takes a change is the first whose run
    texts hold the change text. *)
Lemma apply_change_first now paragraphs c_text c_type ps' i :
  Docs.apply_change now paragraphs c_text c_type = Ok (ps', Some i) ->
  (exists p, paragraphs !! i = Some p
     /\ is_Some (find (join (Docs.run_texts_of p)) c_text))
  /\ forall j p, j < i -> paragraphs !! j = Some p ->
       find (join (Docs.run_texts_of p)) c_text = None.
Proof.
  revert ps' i. induction paragraphs as [|p ps IH]; intros ps' i; simpl; [done|].
  destruct (Docs.apply_to_paragraph now p c_text c_type) as [[p'|]|] eqn:Hp;
    cbn [mbind result_bind]; [| |done].
  - intros [= <- <-]. apply apply_to_paragraph_outcome in Hp.
    split; [by exists p|]. intros j p'' Hj. lia.
  - apply apply_to_paragraph_outcome in Hp.
    destruct (Docs.apply_change now ps c_text c_type) as [[rest [k|]]|] eqn:Hrest;
      cbn [mbind result_bind fst snd]; [|done..].
    intros [= <- <-]. destruct (IH _ _ eq_refl) as [(p' & Hp' & Hf) Hmin].
    split; [by exists p'|]. intros [|j] p'' Hj Hp''; simpl in Hp''.
    + by injection Hp'' as <-.
    + eapply Hmin; [|done]. lia.
Qed.

(** [docs.py]: when no paragraph took the change, none holds the change
    text. *)
Lemma apply_change_none now paragraphs c_text c_type ps' :
  Docs.apply_change now paragraphs c_text c_type = Ok (ps', None) ->
  Forall (fun p => find (join (Docs.run_texts_of p)) c_text = None) paragraphs.
Proof.
  revert ps'. induction paragraphs as [|p ps IH]; intros ps'; [done|]. cbn [Docs.apply_change].
  destruct (Docs.apply_to_paragraph now p c_text c_type) as [[p'|]|] eqn:Hp;
    cbn [mbind result_bind]; [done| |done].
  apply apply_to_paragraph_outcome in Hp.
  destruct (Docs.apply_change now ps c_text c_type) as [[rest [k|]]|] eqn:Hrest;
    cbn [mbind result_bind fst snd]; [done| |done].
  intros _. constructor; [done|]. by eapply IH.
Qed.

(** [docs.py]: the first paragraph that holds the change text takes the
    change when its splice returns. *)
Lemma apply_change_selects now paragraphs c_text c_type i p p' :
  paragraphs !! i = Some p ->
  (forall j q, j < i -> paragraphs !! j = Some q ->
     find (join (Docs.run_texts_of q)) c_text = None) ->
  Docs.apply_to_paragraph now p c_text c_type = Ok (Some p') ->
  Docs.apply_change now paragraphs c_text c_type = Ok (<[i := p']> paragraphs, Some i).
Proof.
  revert i. induction paragraphs as [|q ps IH]; intros i Hi Hmin Hp; [done|].
  cbn [Docs.apply_change]. destruct i as [|i]; simpl in Hi.
  - injection Hi as ->. by rewrite Hp.
  - unfold Docs.apply_to_paragraph at 1.
    rewrite (proj2 (locate_NoMatch _ _) (Hmin 0 q ltac:(lia) eq_refl)).
    cbn [mbind result_bind]. rewrite (IH i Hi); [done| |done].
    intros j q' Hj Hq'. apply (Hmin (S j) q'); [lia|done].
Qed.

(** [docs.py]: no paragraph but the first that holds the change text is
    ever selected. *)
Lemma apply_change_first_only now paragraphs c_text c_type i p ps' r :
  paragraphs !! i = Some p ->
  is_Some (find (join (Docs.run_texts_of p)) c_text) ->
  (forall j q, j < i -> paragraphs !! j = Some q ->
     find (join (Docs.run_texts_of q)) c_text = None) ->
  Docs.apply_change now paragraphs c_text c_type = Ok (ps', r) -> r = Some i.
Proof.
  intros Hi [n Hn] Hmin Hres. destruct r as [k|].
  - destruct (apply_change_first _ _ _ _ _ _ Hres) as [(q & Hq & [m Hm]) Hmink].
    f_equal. destruct (Nat.lt_trichotomy k i) as [Hlt| [->|Hlt]]; [|done|].
    + rewrite (Hmin k q Hlt Hq) in Hm. done.
    + rewrite (Hmink i p Hlt Hi) in Hn. done.
  - apply apply_change_none in Hres. rewrite Forall_lookup in Hres.
    rewrite (Hres i p Hi) in Hn. done.
Qed.

(** [docs.py]: in a paragraph whose children are its runs, a change text
    that is not empty and occurs is spliced. *)
Lemma apply_to_paragraph_flat now p c_text c_type :
  flat p -> c_text ≠ [] -> is_Some (find (join (Docs.run_texts_of p)) c_text) ->
  exists p', Docs.apply_to_paragraph now p c_text c_type = Ok (Some p').
Proof.
  intros Hflat Hne [idx Hfind].
  destruct (locate_found _ _ _ Hne Hfind) as (s & so & rs & e & eo & re & Heq & _).
  destruct (docs_splice_flat now p c_text c_type _ _ _ Hflat Hne Heq)
    as (? & ? & ? & ? & p' & ? & ? & _ & _ & _ & _ & Hp' & _).
  by exists p'.
Qed.

Lemma build_para_map_keys ps t :
  t ∈ (build_para_map ps).2 -> is_Some ((build_para_map ps).1 !! t).
Proof.
  revert t. induction ps as [|p ps IH] using rev_ind; intros t.
  - unfold build_para_map. simpl. intros H. by apply elem_of_nil in H.
  - rewrite build_para_map_snoc. unfold para_map_step. cbn [fst snd].
    destruct (nonempty (strip (_get_paragraph_text p))); cbn [fst snd]; [|apply IH].
    rewrite elem_of_app, list_elem_of_singleton. intros [Ht| ->].
    + destruct (decide (_get_paragraph_text p = t)) as [<-|Hne].
      * rewrite lookup_insert_eq. eauto.
      * rewrite lookup_insert_ne by done. by apply IH.
    + rewrite lookup_insert_eq. eauto.
Qed.

Lemma paragraph_at_defined ps index t :
  (build_para_map ps).2 !! index = Some t ->
  exists i, paragraph_at (build_para_map ps).2 (build_para_map ps).1 index = Some (t, i).
Proof.
  intros Ht. unfold paragraph_at. rewrite Ht.
  destruct (build_para_map_keys ps t) as [i Hi]; [by eapply list_elem_of_lookup_2|].
  rewrite Hi. eauto.
Qed.

End paragraph_resolution.

(** C6, as the code has it. In [docs.py] the paragraph that takes a change
    is the first one, in document order, whose run texts hold the change
    text: no earlier paragraph holds it; when a paragraph holds the change
    text, the call names no other paragraph than the first that does,
    and it does not answer that none took the change; and when the change
    text is not empty and the children of that first paragraph are its
    runs, the call returns and names that paragraph, spliced. In
    [docx_processor.py] every text in the list of paragraph texts
    resolves, through the dictionary keyed by the text, to the last
    paragraph of the document with that text. *)
Theorem paragraph_resolution_order :
  (forall now paragraphs c_text c_type ps' i,
     Docs.apply_change now paragraphs c_text c_type = Ok (ps', Some i) ->
     (exists p, paragraphs !! i = Some p
        /\ is_Some (find (join (Docs.run_texts_of p)) c_text))
     /\ forall j p, j < i -> paragraphs !! j = Some p ->
          find (join (Docs.run_texts_of p)) c_text = None)
  /\ (forall now paragraphs c_text c_type i p,
        paragraphs !! i = Some p ->
        is_Some (find (join (Docs.run_texts_of p)) c_text) ->
        (forall j q, j < i -> paragraphs !! j = Some q ->
           find (join (Docs.run_texts_of q)) c_text = None) ->
        (forall ps' r,
           Docs.apply_change now paragraphs c_text c_type = Ok (ps', r) -> r = Some i)
        /\ (c_text ≠ [] -> flat p ->
            exists p' ps',
              Docs.apply_to_paragraph now p c_text c_type = Ok (Some p')
              /\ Docs.apply_change now paragraphs c_text c_type = Ok (ps', Some i)
              /\ ps' !! i = Some p'))
  /\ (forall chinese_paragraphs index t,
        (build_para_map chinese_paragraphs).2 !! index = Some t ->
        exists i,
          paragraph_at (build_para_map chinese_paragraphs).2
            (build_para_map chinese_paragraphs).1 index = Some (t, i)
          /\ last_with_text chinese_paragraphs t i).
Proof.
  split; [|split].
  - intros. by eapply apply_change_first.
  - intros now paragraphs c_text c_type i p Hi Hfind Hmin. split.
    + intros ps' r. by eapply apply_change_first_only.
    + intros Hne Hflat.
      destruct (apply_to_paragraph_flat now p c_text c_type Hflat Hne Hfind) as [p' Hp'].
      exists p', (<[i := p']> paragraphs). split; [done|].
      split; [by eapply apply_change_selects|].
      apply list_lookup_insert_eq. by eapply lookup_lt_Some.
  - intros ps index t Ht. destruct (paragraph_at_defined ps index t Ht) as [i Hi].
    exists i. split; [done|]. by eapply paragraph_at_last.
Qed.

(** Both resolutions on three paragraphs reading [same], [other], [same]:
    [docs.py] gives the change text [same] to paragraph 0, the dictionary
    of [docx_processor.py] resolves the text to paragraph 2. *)
Lemma paragraph_resolution_order_witness :
  (exists ps', Docs.apply_change (lit "D") twin_paragraphs (lit "same") "insert"
               = Ok (ps', Some 0))
  /\ (forall ps' r, Docs.apply_change (lit "D") twin_paragraphs (lit "same") "insert"
                    = Ok (ps', r) -> r = Some 0)
  /\ exists i,
       paragraph_at (build_para_map twin_paragraphs).2 (build_para_map twin_paragraphs).1 0
       = Some (lit "same", i)
       /\ last_with_text twin_paragraphs (lit "same") i.
Proof.
  destruct paragraph_resolution_order as (_ & Hfirst & Hlast).
  destruct (Hfirst (lit "D") twin_paragraphs (lit "same") "insert" 0
              (sample_paragraph [sample_run "same"]) eq_refl ltac:(by eexists)
              ltac:(intros; lia)) as [Honly Hreturns].
  split; [|split].
  - destruct Hreturns as (p' & ps' & _ & Hp' & _); [discriminate|by repeat constructor|].
    exists ps'. exact Hp'.
  - exact Honly.
  - apply (Hlast twin_paragraphs 0 (lit "same")). reflexivity.
Defined.

(** C6 fails in [docx_processor.py]: paragraphs 0 and 2 have the same
    text, and the index 0 the matcher answers resolves to paragraph 2, the
    last one, since each paragraph overwrites the dictionary entry of its
    text. *)
Lemma paragraph_map_last_wins_counterexample :
  _get_paragraph_text <$> twin_paragraphs !! 0 = Some (lit "same")
  /\ _get_paragraph_text <$> twin_paragraphs !! 2 = Some (lit "same")
  /\ (build_para_map twin_paragraphs).2 = [lit "same"; lit "other"; lit "same"]
  /\ paragraph_at (build_para_map twin_paragraphs).2 (build_para_map twin_paragraphs).1 0
     = Some (lit "same", 2)
  /\ _find_best_chinese_paragraph_match (build_para_map twin_paragraphs).2
       (build_para_map twin_paragraphs).1 (lit "0") None
     = Some (lit "same", 2).
Proof. repeat split; vm_compute; reflexivity. Qed.

(* ===================================================================== *)
(** ** The output archive *)
(* ===================================================================== *)

Section archives.

Lemma read_missing (z : archive) name : name ∉ map fst z -> read z name = Raise KeyError.
Proof.
  induction z as [|[n d] z IH]; [done|]. cbn [map fst]. rewrite not_elem_of_cons.
  intros [Hne Hz]. cbn [read]. rewrite IH by done.
  by rewrite (proj2 (String.eqb_neq n name)) by done.
Qed.

Lemma read_unique (z : archive) name data :
  NoDup (map fst z) -> (name, data) ∈ z -> read z name = Ok data.
Proof.
  induction z as [|[n d] z IH]; intros Hnd Hin; [by apply elem_of_nil in Hin|].
  cbn [map fst] in Hnd. apply NoDup_cons in Hnd as [Hn Hnd].
  apply elem_of_cons in Hin as [[= <- <-]|Hin]; cbn [read].
  - by rewrite read_missing, String.eqb_refl.
  - by rewrite IH.
Qed.

Lemma copy_items_unique (z_in items : archive) :
  NoDup (map fst z_in) -> items ⊆ z_in ->
  copy_items z_in items = Ok (other_entries items).
Proof.
  intros Hnd. induction items as [|[n d] items IH]; intros Hsub; [done|].
  cbn [copy_items other_entries List.filter]. unfold copy_item. cbn [fst snd].
  rewrite IH by set_solver. fold (other_entries items).
  destruct (String.eqb n document_xml); cbn [negb mbind result_bind]; [done|].
  rewrite (read_unique z_in n d) by (done || set_solver). done.
Qed.

Lemma read_present (z : archive) name :
  name ∈ map fst z -> exists data, read z name = Ok data /\ (name, data) ∈ z.
Proof.
  induction z as [|[n d] z IH]; [by intros ?%elem_of_nil|]. cbn [map fst read].
  destruct (decide (name ∈ map fst z)) as [Hin|Hout].
  - intros _. destruct (IH Hin) as (data & -> & Hd). exists data. split; [done|by right].
  - intros [->|?]%elem_of_cons; [|done]. rewrite read_missing by done.
    rewrite String.eqb_refl. exists d. split; [done|left].
Qed.

Lemma read_Ok_present (z : archive) name data :
  read z name = Ok data -> (name, data) ∈ z.
Proof.
  intros H. destruct (decide (name ∈ map fst z)) as [Hin|Hout].
  - destruct (read_present z name Hin) as (d & Hd & Hz). congruence.
  - rewrite read_missing in H by done. done.
Qed.

Lemma split_slash_nonempty name : Docs.split_slash name ≠ [].
Proof.
  induction name as [|c rest IH]; [done|]. cbn [Docs.split_slash].
  destruct (Ascii.eqb c "/"); [done|]. by destruct (Docs.split_slash rest).
Qed.

Lemma name_of_split_slash name : Docs.name_of (Docs.split_slash name) = name.
Proof.
  unfold Docs.name_of. induction name as [|c rest IH]; [done|]. cbn [Docs.split_slash].
  pose proof (split_slash_nonempty rest) as Hne.
  destruct (Docs.split_slash rest) as [|first others]; [done|].
  destruct (Ascii.eqb c "/") eqn:E.
  - apply Ascii.eqb_eq in E as ->.
    change (String.concat "/" (""%string :: first :: others))
      with (String "/" (String.concat "/" (first :: others))).
    by rewrite IH.
  - destruct others as [|second others].
    + change (String c first = String c rest). f_equal. exact IH.
    + change (String.concat "/" (String c first :: second :: others))
        with (String c (String.concat "/" (first :: second :: others))).
      by rewrite IH.
Qed.

Lemma plain_name_of name : plain_name name -> Docs.name_of (Docs.path_of name) = name.
Proof. intros [_ ->]. apply name_of_split_slash. Qed.

Lemma plain_path_nonempty name : plain_name name -> Docs.path_of name ≠ [].
Proof. intros [_ ->]. apply split_slash_nonempty. Qed.

Lemma strict_prefix_removelast (l p : list string) :
  p ≠ [] -> l `prefix_of` removelast p <-> strict_prefix l p.
Proof.
  intros Hp. destruct (exists_last Hp) as (u & x & ->). rewrite removelast_last. split.
  - intros [k ->]. split; [exists (k ++ [x]); by rewrite <- app_assoc|].
    intros H. apply (f_equal length) in H. rewrite !length_app in H. simpl in H. lia.
  - intros [[k Hk] Hne]. destruct k as [|y k _] using rev_ind.
    + rewrite app_nil_r in Hk. by subst.
    + rewrite app_assoc in Hk. apply app_inj_tail in Hk as [-> _]. by exists k.
Qed.

Lemma makedirs_spec (tmp_dir : Docs.directory) parent dirs :
  (forall l d, l ≠ [] -> l `prefix_of` dirs -> tmp_dir !! (parent ++ l) ≠ Some (Docs.File d)) ->
  exists tmp_dir',
    Docs.makedirs tmp_dir parent dirs = Ok tmp_dir'
    /\ (forall l, l ≠ [] -> l `prefix_of` dirs -> tmp_dir' !! (parent ++ l) = Some Docs.Dir)
    /\ (forall q, (forall l, l ≠ [] -> l `prefix_of` dirs -> q ≠ parent ++ l) ->
          tmp_dir' !! q = tmp_dir !! q).
Proof.
  revert tmp_dir parent. induction dirs as [|d rest IH]; intros tmp_dir parent Hfree.
  { exists tmp_dir. split; [done|]. split; [|done].
    intros l Hl Hpre. apply prefix_nil_inv in Hpre. done. }
  cbn [Docs.makedirs].
  assert (Hhere : forall d', tmp_dir !! (parent ++ [d]) ≠ Some (Docs.File d')).
  { intros d'. apply Hfree; [done|]. by exists rest. }
  set (tmp1 := match tmp_dir !! (parent ++ [d]) with
               | Some Docs.Dir => tmp_dir
               | _ => <[parent ++ [d] := Docs.Dir]> tmp_dir
               end).
  assert (Hstep : match tmp_dir !! (parent ++ [d]) with
                  | Some (Docs.File _) => Raise OSError
                  | Some Docs.Dir => Docs.makedirs tmp_dir (parent ++ [d]) rest
                  | None => Docs.makedirs (<[parent ++ [d] := Docs.Dir]> tmp_dir)
                              (parent ++ [d]) rest
                  end = Docs.makedirs tmp1 (parent ++ [d]) rest).
  { unfold tmp1. destruct (tmp_dir !! (parent ++ [d])) as [[d'|]|] eqn:E; [|done..].
    by destruct (Hhere d'). }
  rewrite Hstep.
  assert (H1 : tmp1 !! (parent ++ [d]) = Some Docs.Dir).
  { unfold tmp1. destruct (tmp_dir !! (parent ++ [d])) as [[d'|]|] eqn:E; cbv beta iota;
      [by rewrite lookup_insert_eq|done|by rewrite lookup_insert_eq]. }
  assert (H2 : forall q, q ≠ parent ++ [d] -> tmp1 !! q = tmp_dir !! q).
  { intros q Hq. unfold tmp1. destruct (tmp_dir !! (parent ++ [d])) as [[d'|]|] eqn:E;
      cbv beta iota; [by rewrite lookup_insert_ne|done|by rewrite lookup_insert_ne]. }
  destruct (IH tmp1 (parent ++ [d])) as (tmp' & Hmk & Hdirs & Hother).
  { intros l d' Hl Hpre. rewrite H2.
    - rewrite <- app_assoc. apply Hfree; [done|]. by apply prefix_cons.
    - intros H. apply (f_equal length) in H. rewrite !length_app in H.
      destruct l; [done|]. simpl in H. lia. }
  exists tmp'. split; [done|]. split.
  - intros l Hl [k Hk]. destruct l as [|x l]; [done|]. injection Hk as <- Hk.
    destruct l as [|y l].
    + rewrite Hother; [done|]. intros l' Hl' _ H. apply (f_equal length) in H.
      rewrite !length_app in H. destruct l'; [done|]. simpl in H. lia.
    + replace (parent ++ d :: y :: l) with ((parent ++ [d]) ++ y :: l)
        by (by rewrite <- app_assoc).
      apply Hdirs; [done|]. exists k. by rewrite Hk.
  - intros q Hq. rewrite Hother.
    + apply H2. apply (Hq [d]); [done|]. by exists rest.
    + intros l Hl Hpre. rewrite <- app_assoc. apply Hq; [done|]. by apply prefix_cons.
Qed.

Lemma clash_free_lookup names n1 n2 :
  clash_free names -> n1 ∈ names -> n2 ∈ names ->
  ~ strict_prefix (Docs.path_of n1) (Docs.path_of n2).
Proof.
  unfold clash_free. rewrite Forall_forall. intros H H1 H2.
  specialize (H n1 H1). rewrite Forall_forall in H. by apply H.
Qed.

Lemma plain_path_inj n1 n2 :
  plain_name n1 -> plain_name n2 -> Docs.path_of n1 = Docs.path_of n2 -> n1 = n2.
Proof.
  intros H1 H2 H. rewrite <- (plain_name_of n1), <- (plain_name_of n2) by done. by rewrite H.
Qed.

(** Extracting one plain member that clashes with none of those already
    extracted. *)
Lemma extract_member_plain z done tmp_dir name data :
  plain_name name ->
  (forall n, n ∈ done -> ~ strict_prefix (Docs.path_of n) (Docs.path_of name)
                         /\ ~ strict_prefix (Docs.path_of name) (Docs.path_of n)) ->
  (forall n, n ∈ done -> plain_name n) ->
  read z name = Ok data ->
  unpacked z done tmp_dir ->
  exists tmp_dir',
    Docs.extract_member tmp_dir name data = Ok tmp_dir'
    /\ unpacked z (done ++ [name]) tmp_dir'.
Proof.
  intros Hplain Hfree Hdone Hread [Hfiles Hdirs].
  pose proof (plain_path_nonempty _ Hplain) as Hne.
  set (p := Docs.path_of name) in *.
  destruct (makedirs_spec tmp_dir [] (removelast p)) as (tmp1 & Hmk & Hmade & Hkept).
  { intros l d Hl Hpre. simpl. intros Hfile.
    apply Hfiles in Hfile as (n & Hn & Hpath & _).
    apply (strict_prefix_removelast _ _ Hne) in Hpre. rewrite <- Hpath in Hpre.
    by destruct (Hfree n Hn). }
  simpl in Hmade, Hkept.
  assert (Hp1 : tmp1 !! p = tmp_dir !! p).
  { apply Hkept. intros l Hl Hpre ->. apply (strict_prefix_removelast _ _ Hne) in Hpre.
    by destruct Hpre. }
  assert (Hnodir : tmp_dir !! p ≠ Some Docs.Dir).
  { intros H. apply Hdirs in H as (_ & n & Hn & Hpre). by destruct (Hfree n Hn). }
  exists (<[p := Docs.File data]> tmp1). split.
  { unfold Docs.extract_member. fold p. rewrite Hmk. cbn [mbind result_bind].
    destruct Hplain as [-> _]. cbn [mbind result_bind].
    destruct p as [|x p']; [done|]. rewrite Hp1.
    by destruct (tmp_dir !! (x :: p')) as [[d'|]|]. }
  assert (Hin1 : forall q, q ≠ p ->
            (<[p := Docs.File data]> tmp1) !! q
            = if bool_decide (q ≠ [] /\ strict_prefix q p) then Some Docs.Dir
              else tmp_dir !! q).
  { intros q Hq. rewrite lookup_insert_ne by done. case_bool_decide as Hc.
    - destruct Hc as [Hq0 Hpre]. apply Hmade; [done|].
      by apply (strict_prefix_removelast _ _ Hne).
    - apply Hkept. intros l Hl Hpre ->. apply Hc. split; [done|].
      by apply (strict_prefix_removelast _ _ Hne). }
  split.
  - intros q d. destruct (decide (q = p)) as [->|Hq].
    + rewrite lookup_insert_eq. split.
      * intros [= <-]. exists name. split; [|done].
        apply elem_of_app. right. by apply list_elem_of_singleton.
      * intros (n & Hn & Hpath & Hd). f_equal. f_equal.
        assert (n = name) as ->; [|congruence].
        apply elem_of_app in Hn as [Hn|Hn]; [|by apply list_elem_of_singleton in Hn].
        apply plain_path_inj; [by apply Hdone|done|done].
    + rewrite Hin1 by done. case_bool_decide as Hc.
      * split; [done|]. intros (n & Hn & Hpath & _). exfalso.
        destruct Hc as [_ Hpre]. rewrite <- Hpath in Hpre.
        apply elem_of_app in Hn as [Hn|Hn].
        -- by destruct (Hfree n Hn).
        -- apply list_elem_of_singleton in Hn as ->. by destruct Hpre.
      * rewrite Hfiles. split.
        -- intros (n & Hn & Hrest). exists n. split; [|done]. apply elem_of_app. by left.
        -- intros (n & Hn & Hpath & Hd). exists n. split; [|done].
           apply elem_of_app in Hn as [Hn|Hn]; [done|].
           apply list_elem_of_singleton in Hn as ->. done.
  - intros q. destruct (decide (q = p)) as [->|Hq].
    + rewrite lookup_insert_eq. split; [done|].
      intros (_ & n & Hn & Hpre). exfalso.
      apply elem_of_app in Hn as [Hn|Hn].
      * by destruct (Hfree n Hn).
      * apply list_elem_of_singleton in Hn as ->. by destruct Hpre.
    + rewrite Hin1 by done. case_bool_decide as Hc.
      * split; [|done]. intros _. destruct Hc as [Hq0 Hpre]. split; [done|].
        exists name. split; [|done]. apply elem_of_app. right. by apply list_elem_of_singleton.
      * rewrite Hdirs. split.
        -- intros (Hq0 & n & Hn & Hpre). split; [done|]. exists n. split; [|done].
           apply elem_of_app. by left.
        -- intros (Hq0 & n & Hn & Hpre). split; [done|].
           apply elem_of_app in Hn as [Hn|Hn]; [by exists n|].
           apply list_elem_of_singleton in Hn as ->. by destruct Hc.
Qed.

Lemma extract_members_plain z members done tmp_dir :
  Forall plain_name (done ++ members) ->
  clash_free (done ++ members) ->
  Forall (fun n => n ∈ map fst z) members ->
  unpacked z done tmp_dir ->
  exists tmp_dir',
    Docs.extract_members z members tmp_dir = Ok tmp_dir'
    /\ unpacked z (done ++ members) tmp_dir'.
Proof.
  revert done tmp_dir. induction members as [|name rest IH]; intros done tmp_dir Hplain Hfree Hin Hun.
  { exists tmp_dir. by rewrite app_nil_r. }
  apply Forall_cons in Hin as [Hname Hin].
  destruct (read_present z name Hname) as (data & Hread & _).
  rewrite Forall_forall in Hplain.
  destruct (extract_member_plain z done tmp_dir name data) as (tmp1 & Hex & Hun1); try done.
  - apply Hplain, elem_of_app. right. left.
  - assert (Hname' : name ∈ done ++ name :: rest) by (apply elem_of_app; right; left).
    intros n Hn. assert (Hn' : n ∈ done ++ name :: rest) by (apply elem_of_app; by left).
    split; by apply (clash_free_lookup _ _ _ Hfree).
  - intros n Hn. apply Hplain, elem_of_app. by left.
  - cbn [Docs.extract_members]. rewrite Hread. cbn [mbind result_bind]. rewrite Hex.
    cbn [mbind result_bind].
    replace (done ++ name :: rest) with ((done ++ [name]) ++ rest) in *
      by (by rewrite <- app_assoc).
    apply IH; try done. by apply Forall_forall.
Qed.

Lemma extractall_plain z :
  Forall plain_name (map fst z) -> clash_free (map fst z) ->
  exists tmp_dir, Docs.extractall z = Ok tmp_dir /\ unpacked z (map fst z) tmp_dir.
Proof.
  intros Hplain Hfree. apply (extract_members_plain z (map fst z) [] ∅); try done.
  - by apply Forall_forall.
  - split.
    + intros q d. rewrite lookup_empty. split; [done|]. intros (n & Hn & _). by apply elem_of_nil in Hn.
    + intros q. rewrite lookup_empty. split; [done|]. intros (_ & n & Hn & _). by apply elem_of_nil in Hn.
Qed.

Lemma elem_of_make_archive (tmp_dir : Docs.directory) name data :
  (name, data) ∈ Docs.make_archive tmp_dir
  <-> (exists q, tmp_dir !! q = Some (Docs.File data) /\ name = Docs.name_of q)
      \/ (exists q, tmp_dir !! q = Some Docs.Dir /\ name = (Docs.name_of q ++ "/")%string
                    /\ data = []).
Proof.
  unfold Docs.make_archive. rewrite list_elem_of_fmap. split.
  - intros ([q [d|]] & Heq & Hin); apply elem_of_map_to_list in Hin;
      unfold Docs.entry_of in Heq; simpl in Heq; injection Heq as -> ->.
    + left. by exists q.
    + right. by exists q.
  - intros [(q & Hq & ->) | (q & Hq & -> & ->)].
    + exists (q, Docs.File data). split; [done|]. by apply elem_of_map_to_list.
    + exists (q, Docs.Dir). split; [done|]. by apply elem_of_map_to_list.
Qed.

(** [docs.py] on an archive of plain names none of which lies below
    another: what the archive packed again holds. *)
Lemma repack_plain z regenerate xml :
  Forall plain_name (map fst z) -> clash_free (map fst z) ->
  read z document_xml = Ok xml ->
  exists out,
    Docs.repack z regenerate = Ok out
    /\ forall name data,
         (name, data) ∈ out
         <-> (name = document_xml /\ data = regenerate xml)
             \/ (name ≠ document_xml /\ read z name = Ok data)
             \/ (data = []
                 /\ exists n q, n ∈ map fst z /\ q ≠ [] /\ strict_prefix q (Docs.path_of n)
                      /\ name = (Docs.name_of q ++ "/")%string).
Proof.
  intros Hplain Hfree Hxml.
  destruct (extractall_plain z Hplain Hfree) as (tmp_dir & Hex & Hfiles & Hdirs).
  assert (Hdoc : document_xml ∈ map fst z).
  { apply read_Ok_present in Hxml. apply list_elem_of_fmap. by exists (document_xml, xml). }
  assert (Hpay : tmp_dir !! Docs.doc_xml_path = Some (Docs.File xml)).
  { apply Hfiles. by exists document_xml. }
  rewrite Forall_forall in Hplain.
  eexists. unfold Docs.repack. rewrite Hex. cbn [mbind result_bind]. rewrite Hpay.
  split; [done|]. intros name data. rewrite elem_of_make_archive. split.
  - intros [(q & Hq & ->) | (q & Hq & -> & ->)].
    + destruct (decide (q = Docs.doc_xml_path)) as [->|Hne].
      * rewrite lookup_insert_eq in Hq. injection Hq as <-. by left.
      * rewrite lookup_insert_ne in Hq by done.
        apply Hfiles in Hq as (n & Hn & <- & Hd). right. left.
        rewrite plain_name_of by (by apply Hplain). split; [|done].
        intros ->. by apply Hne.
    + destruct (decide (q = Docs.doc_xml_path)) as [->|Hne].
      * by rewrite lookup_insert_eq in Hq.
      * rewrite lookup_insert_ne in Hq by done.
        apply Hdirs in Hq as (Hq0 & n & Hn & Hpre). right. right. split; [done|].
        by exists n, q.
  - intros [[-> ->] | [[Hne Hread] | (-> & n & q & Hn & Hq0 & Hpre & ->)]].
    + left. exists Docs.doc_xml_path. by rewrite lookup_insert_eq.
    + left. exists (Docs.path_of name).
      assert (Hname : name ∈ map fst z).
      { apply read_Ok_present in Hread. apply list_elem_of_fmap. by exists (name, data). }
      rewrite plain_name_of by (by apply Hplain). split; [|done].
      rewrite lookup_insert_ne.
      * apply Hfiles. by exists name.
      * intros H. apply Hne. apply plain_path_inj; [by apply Hplain..|done].
    + right. exists q. split; [|done]. rewrite lookup_insert_ne.
      * apply Hdirs. split; [done|]. by exists n.
      * intros <-. by apply (clash_free_lookup _ document_xml n Hfree Hdoc Hn).
Qed.

(** Files come from members only. *)
Lemma makedirs_files (tmp_dir tmp_dir' : Docs.directory) parent dirs q d :
  Docs.makedirs tmp_dir parent dirs = Ok tmp_dir' ->
  tmp_dir' !! q = Some (Docs.File d) -> tmp_dir !! q = Some (Docs.File d).
Proof.
  revert tmp_dir parent. induction dirs as [|x rest IH]; intros tmp_dir parent; cbn [Docs.makedirs].
  - by intros [= <-].
  - destruct (tmp_dir !! (parent ++ [x])) as [[d'|]|] eqn:E; [done|apply IH|].
    intros Hmk Hq. apply (IH _ _ Hmk) in Hq.
    destruct (decide (q = parent ++ [x])) as [->|Hne].
    + by rewrite lookup_insert_eq in Hq.
    + by rewrite lookup_insert_ne in Hq.
Qed.

Lemma extract_member_files (tmp_dir tmp_dir' : Docs.directory) name data q d :
  Docs.extract_member tmp_dir name data = Ok tmp_dir' ->
  tmp_dir' !! q = Some (Docs.File d) ->
  tmp_dir !! q = Some (Docs.File d) \/ Docs.path_of name = q.
Proof.
  unfold Docs.extract_member.
  destruct (Docs.makedirs tmp_dir [] (removelast (Docs.path_of name))) as [tmp1|] eqn:Hmk;
    cbn [mbind result_bind]; [|done].
  destruct (Docs.is_dir name) as [dir|]; cbn [mbind result_bind]; [|done].
  intros Hex Hq. destruct (decide (Docs.path_of name = q)) as [|Hne]; [by right|]. left.
  apply (makedirs_files _ _ _ _ _ _ Hmk).
  destruct (Docs.path_of name) as [|x p] eqn:Hp.
  { destruct dir; [|done]. by injection Hex as <-. }
  destruct (tmp1 !! (x :: p)) as [[d'|]|]; destruct dir; try done;
    injection Hex as <-; by rewrite ?lookup_insert_ne in Hq.
Qed.

Lemma extract_members_files (z : archive) (members : list string) (tmp_dir tmp_dir' : Docs.directory) q d :
  Docs.extract_members z members tmp_dir = Ok tmp_dir' ->
  tmp_dir' !! q = Some (Docs.File d) ->
  tmp_dir !! q = Some (Docs.File d) \/ exists n, n ∈ members /\ Docs.path_of n = q.
Proof.
  revert tmp_dir. induction members as [|name rest IH]; intros tmp_dir; cbn [Docs.extract_members].
  - intros [= <-]. by left.
  - destruct (read z name) as [data|]; cbn [mbind result_bind]; [|done].
    destruct (Docs.extract_member tmp_dir name data) as [tmp1|] eqn:Hex;
      cbn [mbind result_bind]; [|done].
    intros Hrest Hq. destruct (IH _ Hrest Hq) as [H1 | (n & Hn & Hp)].
    + destruct (extract_member_files _ _ _ _ _ _ Hex H1) as [|Hp]; [by left|].
      right. exists name. split; [left|done].
    + right. exists n. split; [by right|done].
Qed.

End archives.

(** C5, as the code has it. For an archive whose entry names are pairwise
    distinct and that holds the payload: the archive [docx_processor.py]
    writes holds the entries other than [word/document.xml] with their
    names and bytes, in the order of the input, followed by the
    regenerated payload. [docs.py] unpacks the archive into a directory and
    packs the directory: when, besides, every name is plain (no closing
    slash, no empty component, no [.] or [..]) and no entry lies below
    another, it packs an archive that holds the regenerated payload under
    [word/document.xml], every other entry of the input under its name
    with its bytes, and an empty entry, named with a closing slash, for
    every directory above an entry; it holds nothing else. *)
Theorem other_entries_copied_unchanged :
  (forall z_in regenerate xml,
     NoDup (map fst z_in) -> read z_in document_xml = Ok xml ->
     output_archive z_in regenerate
     = Ok (other_entries z_in ++ [(document_xml, regenerate xml)]))
  /\ (forall z regenerate xml,
        NoDup (map fst z) -> Forall plain_name (map fst z) -> clash_free (map fst z) ->
        (document_xml, xml) ∈ z ->
        exists out,
          Docs.repack z regenerate = Ok out
          /\ forall name data,
               (name, data) ∈ out
               <-> (name = document_xml /\ data = regenerate xml)
                   \/ (name ≠ document_xml /\ (name, data) ∈ z)
                   \/ (data = []
                       /\ exists n q, n ∈ map fst z /\ q ≠ []
                            /\ strict_prefix q (Docs.path_of n)
                            /\ name = (Docs.name_of q ++ "/")%string)).
Proof.
  split.
  - intros z_in regenerate xml Hnd Hread. unfold output_archive, write_output.
    rewrite Hread. cbn [mbind result_bind]. by rewrite copy_items_unique.
  - intros z regenerate xml Hnd Hplain Hfree Hxml.
    destruct (repack_plain z regenerate xml Hplain Hfree (read_unique _ _ _ Hnd Hxml))
      as (out & Hout & Hin).
    exists out. split; [done|]. intros name data. rewrite Hin.
    assert (Hread : read z name = Ok data <-> (name, data) ∈ z).
    { split; [apply read_Ok_present|by apply read_unique]. }
    by rewrite Hread.
Qed.

(** An archive with a content types entry, the payload and an image:
    [docs.py] adds the entries of the directories [word] and
    [word/media]. *)
Lemma other_entries_copied_unchanged_witness :
  output_archive sample_archive (fun _ => [Byte.x07])
  = Ok [("[Content_Types].xml", [Byte.x01; Byte.x02]);
        ("word/media/image1.png", [Byte.x04; Byte.x05; Byte.x06]);
        ("word/document.xml", [Byte.x07])]
  /\ exists out,
       Docs.repack sample_archive (fun _ => [Byte.x07]) = Ok out
       /\ entry "word/media/image1.png" [Byte.x04; Byte.x05; Byte.x06] ∈ out
       /\ entry "word/document.xml" [Byte.x07] ∈ out
       /\ (entry "word/document.xml" [Byte.x03] ∉ out)
       /\ entry "word/media/" [] ∈ out.
Proof.
  destruct other_entries_copied_unchanged as [Hcopy Hpack]. split.
  - apply (Hcopy sample_archive (fun _ => [Byte.x07]) [Byte.x03]).
    + compute_done.
    + reflexivity.
  - destruct (Hpack sample_archive (fun _ => [Byte.x07]) [Byte.x03]) as (out & Hout & Hin).
    + compute_done.
    + repeat constructor.
    + unfold clash_free. repeat constructor; by intros [[k Hk] Hne].
    + apply (list_elem_of_lookup_2 _ 1). reflexivity.
    + exists out. split; [exact Hout|]. split; [|split; [|split]].
      * apply Hin. right. left. split; [discriminate|].
        apply (list_elem_of_lookup_2 _ 2). reflexivity.
      * apply Hin. left. split; reflexivity.
      * intros H. apply Hin in H as [[_ H] | [[H _] | [H _]]].
        -- discriminate H.
        -- by apply H.
        -- discriminate H.
      * apply Hin. right. right. split; [reflexivity|].
        exists "word/media/image1.png"%string, ["word"%string; "media"%string].
        split; [right; right; left|]. split; [discriminate|]. split; [|reflexivity].
        split; [by exists ["image1.png"%string]|discriminate].
Defined.

(** C5 fails for an archive with two entries of one name: [read] looks an
    entry up by its name and finds the last one, so the bytes of the first
    [word/styles.xml] entry are not in the output of [docx_processor.py],
    which holds the bytes of the second entry twice; [docs.py] unpacks the
    second entry over the first and packs it once, and adds an entry for
    the directory [word], which the input does not have. *)
Lemma duplicate_entry_not_copied_counterexample :
  (("word/styles.xml", [Byte.x01]) : string * list Byte.byte) ∈ twice_named_archive
  /\ output_archive twice_named_archive (fun _ => [Byte.x07])
     = Ok [("word/styles.xml", [Byte.x02]); ("word/styles.xml", [Byte.x02]);
           ("word/document.xml", [Byte.x07])]
  /\ exists out,
       Docs.repack twice_named_archive (fun _ => [Byte.x07]) = Ok out
       /\ length out = 3
       /\ entry "word/document.xml" [Byte.x07] ∈ out
       /\ entry "word/styles.xml" [Byte.x02] ∈ out
       /\ entry "word/" [] ∈ out.
Proof.
  split; [apply (list_elem_of_lookup_2 _ 1); reflexivity|]. split; [reflexivity|].
  eexists. split; [vm_compute; reflexivity|]. split; [reflexivity|].
  repeat split; apply list_elem_of_In; vm_compute; tauto.
Qed.

(* ===================================================================== *)
(** ** Stripped texts *)
(* ===================================================================== *)

Section strip_facts.

Implicit Types s : pystr.

Lemma lstrip_head s c s' : lstrip s = c :: s' -> isspace c = false.
Proof.
  induction s as [|d s IH]; [done|]. simpl. destruct (isspace d) eqn:E; [done|].
  by intros [= <- _].
Qed.

Lemma lstrip_suffix s : exists l, s = l ++ lstrip s /\ forallb isspace l = true.
Proof.
  induction s as [|d s (l & IH & Hl)]; [by exists []|]. simpl.
  destruct (isspace d) eqn:E.
  - exists (d :: l). simpl. rewrite E, Hl. split; [by f_equal|done].
  - by exists [].
Qed.

Lemma lstrip_fixed s : (forall c, head s = Some c -> isspace c = false) -> lstrip s = s.
Proof.
  destruct s as [|c s]; [done|]. intros H. simpl. by rewrite (H c eq_refl).
Qed.

Lemma rstrip_prefix s : exists r, s = rstrip s ++ r /\ forallb isspace r = true.
Proof.
  unfold rstrip. destruct (lstrip_suffix (rev s)) as (l & Hl & Hsp).
  exists (rev l). split.
  - rewrite <- rev_app_distr, <- Hl. by rewrite rev_involutive.
  - rewrite forallb_forall in *. intros x Hx. apply Hsp. by apply in_rev.
Qed.

Lemma rstrip_last s d : last (rstrip s) = Some d -> isspace d = false.
Proof.
  unfold rstrip. destruct (lstrip (rev s)) as [|c l] eqn:E; [done|].
  simpl. intros H. apply lstrip_head in E.
  assert (d = c) as ->; [|done].
  rewrite last_snoc in H. congruence.
Qed.

Lemma rstrip_fixed s : (forall d, last s = Some d -> isspace d = false) -> rstrip s = s.
Proof.
  intros H. unfold rstrip. rewrite lstrip_fixed; [apply rev_involutive|].
  intros c Hc. apply H. rewrite <- (rev_involutive s).
  destruct (rev s) as [|x l]; [done|]. simpl in *. injection Hc as ->.
  by rewrite last_snoc.
Qed.

(** A stripped text is empty or has a character that is not white space
    at each end. *)
Lemma strip_trimmed s : strip s ≠ [] -> trimmed (strip s).
Proof.
  unfold strip, trimmed. intros Hne.
  destruct (rstrip_prefix (lstrip s)) as (r & Hr & _).
  destruct (rstrip (lstrip s)) as [|c t] eqn:E; [done|]. cbn [head].
  destruct (last (c :: t)) as [d|] eqn:Hd.
  - split.
    + destruct (lstrip s) as [|c' t'] eqn:E'; [done|].
      injection Hr as -> _. by eapply lstrip_head.
    + apply (rstrip_last (lstrip s)). by rewrite E.
  - by rewrite last_None in Hd.
Qed.

Lemma trimmed_strip s : trimmed s -> strip s = s.
Proof.
  unfold trimmed, strip. destruct (head s) as [c|] eqn:Hc; [|done].
  destruct (last s) as [d|] eqn:Hd; [|done]. intros [H1 H2].
  rewrite (lstrip_fixed s) by congruence. apply rstrip_fixed. congruence.
Qed.

Lemma strip_idempotent s : strip (strip s) = strip s.
Proof.
  destruct (decide (strip s = [])) as [->|Hne]; [done|].
  by apply trimmed_strip, strip_trimmed.
Qed.

End strip_facts.

(* ===================================================================== *)
(** ** [docs.py]: the changes over the document *)
(* ===================================================================== *)

Section docs_document.

(** A change text that no paragraph holds leaves every paragraph as it
    is. *)
Lemma apply_change_unmatched now paragraphs c_text c_type :
  Forall (fun p => find (join (Docs.run_texts_of p)) c_text = None) paragraphs ->
  Docs.apply_change now paragraphs c_text c_type = Ok (paragraphs, None).
Proof.
  induction 1 as [|p ps Hp Hps IH]; [done|]. cbn [Docs.apply_change].
  unfold Docs.apply_to_paragraph. rewrite (proj2 (locate_NoMatch _ _) Hp).
  cbn [mbind result_bind]. by rewrite IH.
Qed.

Lemma apply_change_frame now paragraphs c_text c_type ps' r :
  Docs.apply_change now paragraphs c_text c_type = Ok (ps', r) ->
  length ps' = length paragraphs
  /\ match r with
     | None => ps' = paragraphs
     | Some i => forall j, j ≠ i -> ps' !! j = paragraphs !! j
     end.
Proof.
  revert ps' r. induction paragraphs as [|p ps IH]; intros ps' r; cbn [Docs.apply_change].
  - by intros [= <- <-].
  - destruct (Docs.apply_to_paragraph now p c_text c_type) as [[p'|]|];
      cbn [mbind result_bind]; [| |done].
    + intros [= <- <-]. split; [done|]. by intros [|j] Hj.
    + destruct (Docs.apply_change now ps c_text c_type) as [[rest k]|] eqn:Hrest;
        cbn [mbind result_bind fst snd]; [|done].
      intros [= <- <-]. destruct (IH _ _ eq_refl) as [Hlen Hk]. split; [simpl; lia|].
      destruct k as [i|].
      * intros [|j] Hj; [done|]. simpl. apply Hk. lia.
      * by rewrite Hk.
Qed.

End docs_document.

(** X1. [docs.py]: when the text of no change occurs in the run texts of any
    paragraph, [apply_tracked_changes_to_chinese_doc] leaves every paragraph
    as it was, and it does not raise. *)
Theorem unmatched_changes_leave_document clock k paragraphs changes_map :
  Forall (fun change =>
            Forall (fun p => find (join (Docs.run_texts_of p)) (Docs.chinese_text change) = None)
                   paragraphs) changes_map ->
  Docs.apply_tracked_changes_to_chinese_doc clock k paragraphs changes_map = Ok paragraphs.
Proof.
  intros H. revert k. induction H as [|change rest Hc Hrest IH]; intros k; [done|].
  cbn [Docs.apply_tracked_changes_to_chinese_doc].
  rewrite apply_change_unmatched by done. cbn [mbind result_bind fst]. apply IH.
Qed.

(** X2. [docs.py], for a document in which no paragraph lies inside another
    (the paragraphs [findall] yields are then separate subtrees): one change
    never adds or removes a paragraph and alters at most one. When no
    paragraph took the change the paragraphs are those of the input; when
    the paragraph at position [i] took it, every other paragraph is the one
    of the input. *)
Theorem change_touches_one_paragraph now paragraphs c_text c_type ps' r :
  Forall (fun p => xpath_desc "w:p" p = []) paragraphs ->
  Docs.apply_change now paragraphs c_text c_type = Ok (ps', r) ->
  length ps' = length paragraphs
  /\ match r with
     | None => ps' = paragraphs
     | Some i => forall j, j ≠ i -> ps' !! j = paragraphs !! j
     end.
Proof. intros _. apply apply_change_frame. Qed.

(** The change text [moon] in a document that reads [Hello world]. *)
Lemma unmatched_changes_leave_document_witness :
  Docs.apply_tracked_changes_to_chinese_doc (fun _ => lit "D") 0
    [sample_paragraph [sample_run "Hello "; sample_run "world"]]
    [{| Docs.mc_type := "insert"; Docs.chinese_text := lit "moon" |}]
  = Ok [sample_paragraph [sample_run "Hello "; sample_run "world"]].
Proof.
  apply (unmatched_changes_leave_document (fun _ => lit "D") 0
           [sample_paragraph [sample_run "Hello "; sample_run "world"]]
           [{| Docs.mc_type := "insert"; Docs.chinese_text := lit "moon" |}]).
  repeat constructor.
Defined.

(** The change text [other] in three paragraphs reading [same], [other],
    [same]: the second takes it. *)
Lemma change_touches_one_paragraph_witness :
  exists ps',
    Docs.apply_change (lit "D") twin_paragraphs (lit "other") "insert" = Ok (ps', Some 1)
    /\ length ps' = length twin_paragraphs
    /\ forall j, j ≠ 1 -> ps' !! j = twin_paragraphs !! j.
Proof.
  eexists. split; [reflexivity|].
  apply (change_touches_one_paragraph (lit "D") twin_paragraphs (lit "other") "insert"
           _ (Some 1)).
  - by repeat constructor.
  - reflexivity.
Defined.

(* ===================================================================== *)
(** ** [docs.py]: the text of a paragraph after the splice *)
(* ===================================================================== *)

Section docs_text.

Implicit Types (rts : list pystr).

Lemma take_run_offset rts s so rs :
  rts !! s = Some rs -> so <= length rs ->
  take (run_offset rts s + so) (join rts) = join (take s rts) ++ take so rs.
Proof.
  intros Hrs Hso. unfold run_offset.
  rewrite <- (take_drop s rts) at 2. rewrite join_app, (drop_S _ _ _ Hrs), join_cons.
  rewrite take_app_add. by rewrite take_app_le.
Qed.

Lemma drop_run_offset rts e eo re :
  rts !! e = Some re -> eo <= length re ->
  drop (run_offset rts e + eo) (join rts) = drop eo re ++ join (drop (S e) rts).
Proof.
  intros Hre Heo. unfold run_offset.
  rewrite <- (take_drop e rts) at 2. rewrite join_app, (drop_S _ _ _ Hre), join_cons.
  rewrite drop_app_add. by rewrite drop_app_le.
Qed.

Lemma marked_text_one_run rts s so eo rs :
  rts !! s = Some rs -> marked_text s so s eo rts = from so rs.
Proof.
  intros Hrs. unfold marked_text, Docs.covered.
  replace (S s - s) with 1 by lia. cbn [seq map]. unfold part_of.
  rewrite Hrs, Nat.eqb_refl. cbn [default]. unfold join. simpl. apply app_nil_r.
Qed.

(** The paragraph after the splice of a located span, with the marked
    text spelled out. *)
Lemma docs_splice_flat_texts now p c_text c_type idx :
  flat p -> c_text ≠ [] -> find (join (Docs.run_texts_of p)) c_text = Some idx ->
  exists s so rs e eo re p',
    Docs.locate (Docs.run_texts_of p) c_text = Ok (Docs.Located (Some (s, so)) e eo)
    /\ s <= e
    /\ Docs.run_texts_of p !! s = Some rs /\ so < length rs
    /\ run_offset (Docs.run_texts_of p) s + so = idx
    /\ Docs.run_texts_of p !! e = Some re /\ 0 < eo <= length re
    /\ run_offset (Docs.run_texts_of p) e + eo = idx + length c_text
    /\ Docs.apply_to_paragraph now p c_text c_type = Ok (Some p')
    /\ Docs.run_texts_of p'
       = take s (Docs.run_texts_of p)
           ++ optional_text (upto so rs)
           ++ [marked_text s so e eo (Docs.run_texts_of p)]
           ++ optional_text (from eo re)
           ++ drop (S e) (Docs.run_texts_of p).
Proof.
  intros Hp Hne Hfind.
  destruct (locate_found _ _ _ Hne Hfind)
    as (s & so & rs & e & eo & re & Heq & Hse & Hrs & Hso & Hps & Hre & Heo & Hpe).
  destruct (splice_flat_runs now p c_type s so e eo rs re) as (p' & Hsp & Hruns); [done..|].
  exists s, so, rs, e, eo, re, p'. do 8 (split; [done|]). split.
  { unfold Docs.apply_to_paragraph. rewrite Heq. cbn [mbind result_bind]. by rewrite Hsp. }
  rewrite (run_texts_of_runs p'), Hruns, !map_app, texts_of_new_runs.
  rewrite <- !firstn_map, <- !skipn_map, <- run_texts_of_runs.
  by rewrite <- !app_assoc.
Qed.

End docs_text.

(** X3. [docs.py]: in a paragraph whose children are its runs, a span that
    covers at least two runs is spliced without loss of text: the
    concatenated run text of the paragraph is the same before and after. *)
Theorem docs_span_over_runs_keeps_text now p c_text c_type s so e eo :
  flat p -> c_text ≠ [] ->
  Docs.locate (Docs.run_texts_of p) c_text = Ok (Docs.Located (Some (s, so)) e eo) ->
  s < e ->
  exists p',
    Docs.apply_to_paragraph now p c_text c_type = Ok (Some p')
    /\ join (Docs.run_texts_of p') = join (Docs.run_texts_of p).
Proof.
  intros Hp Hne Hloc Hlt.
  destruct (find (join (Docs.run_texts_of p)) c_text) as [idx|] eqn:Hfind.
  2:{ unfold Docs.locate in Hloc. by rewrite Hfind in Hloc. }
  destruct (docs_splice_flat_texts now p c_text c_type idx Hp Hne Hfind)
    as (s' & so' & rs & e' & eo' & re & p' & Hloc' & Hse & Hrs & Hso & Hps & Hre & Heo & Hpe
        & Happ & Htexts).
  rewrite Hloc in Hloc'. injection Hloc' as <- <- <- <-.
  exists p'. split; [done|]. rewrite Htexts.
  rewrite !join_app, !join_optional_text, join_cons. unfold join at 3. cbn [concat].
  rewrite app_nil_r.
  rewrite (marked_text_between _ s so e eo rs re) by (done || lia).
  rewrite Hps, Hpe. replace (idx + length c_text - idx) with (length c_text) by lia.
  set (T := join (Docs.run_texts_of p)).
  assert (Htake : take idx T = join (take s (Docs.run_texts_of p)) ++ take so rs).
  { rewrite <- Hps. apply take_run_offset; [done|lia]. }
  assert (Hdrop : drop (idx + length c_text) T
                  = drop eo re ++ join (drop (S e) (Docs.run_texts_of p))).
  { rewrite <- Hpe. apply drop_run_offset; [done|lia]. }
  transitivity (take idx T ++ take (length c_text) (drop idx T)
                  ++ drop (idx + length c_text) T).
  - rewrite Htake, Hdrop. unfold upto, from. by rewrite <- !app_assoc.
  - by rewrite <- drop_drop, !take_drop.
Qed.

(** The runs [Hello ] and [world] with the change text [lo wo]. *)
Lemma docs_span_over_runs_keeps_text_witness :
  let p := sample_paragraph [sample_run "Hello "; sample_run "world"] in
  exists p',
    Docs.apply_to_paragraph (lit "D") p (lit "lo wo") "delete" = Ok (Some p')
    /\ join (Docs.run_texts_of p') = join (Docs.run_texts_of p).
Proof.
  intros p.
  apply (docs_span_over_runs_keeps_text (lit "D") p (lit "lo wo") "delete" 0 3 1 2).
  - repeat constructor.
  - discriminate.
  - reflexivity.
  - lia.
Defined.

(** X4. [docs.py]: a span that lies in one run. The marked run takes the text
    of the run from the start offset to its end, that is the change text
    followed by the rest of the run, and the run for the text behind the span
    holds that rest once more. The run texts after the splice are those of
    the runs ahead, the text ahead of the span (if any), the marked text, the
    rest (if any), and those of the runs behind. *)
Theorem docs_span_in_one_run_repeats_tail now p c_text c_type s so eo :
  flat p -> c_text ≠ [] ->
  Docs.locate (Docs.run_texts_of p) c_text = Ok (Docs.Located (Some (s, so)) s eo) ->
  exists p' rs,
    Docs.run_texts_of p !! s = Some rs
    /\ Docs.apply_to_paragraph now p c_text c_type = Ok (Some p')
    /\ Docs.run_texts_of p'
       = take s (Docs.run_texts_of p)
           ++ optional_text (upto so rs) ++ [from so rs] ++ optional_text (from eo rs)
           ++ drop (S s) (Docs.run_texts_of p)
    /\ from so rs = c_text ++ from eo rs.
Proof.
  intros Hp Hne Hloc.
  destruct (find (join (Docs.run_texts_of p)) c_text) as [idx|] eqn:Hfind.
  2:{ unfold Docs.locate in Hloc. by rewrite Hfind in Hloc. }
  destruct (docs_splice_flat_texts now p c_text c_type idx Hp Hne Hfind)
    as (s' & so' & rs & e' & eo' & re & p' & Hloc' & Hse & Hrs & Hso & Hps & Hre & Heo & Hpe
        & Happ & Htexts).
  rewrite Hloc in Hloc'. injection Hloc' as <- <- <- <-.
  assert (re = rs) as -> by congruence.
  exists p', rs. split; [done|]. split; [done|]. split.
  { by rewrite Htexts, (marked_text_one_run _ s so eo rs). }
  apply find_Some in Hfind as [Hocc _]. unfold occurs_at in Hocc.
  assert (Hd : drop idx (join (Docs.run_texts_of p))
               = drop so rs ++ join (drop (S s) (Docs.run_texts_of p))).
  { rewrite <- Hps. apply drop_run_offset; [done|lia]. }
  rewrite Hd in Hocc. unfold from.
  assert (eo = so + length c_text) as -> by lia.
  rewrite take_app_le in Hocc by (rewrite length_drop; lia).
  rewrite <- (take_drop (length c_text) (drop so rs)) at 1.
  by rewrite Hocc, drop_drop.
Qed.

(** The run [Hello world] with the change text [lo]: the runs [Hel],
    [lo world] and [ world]. *)
Lemma docs_span_in_one_run_repeats_tail_witness :
  let p := sample_paragraph [sample_run "Hello world"] in
  exists p' rs,
    Docs.run_texts_of p !! 0 = Some rs
    /\ Docs.apply_to_paragraph (lit "D") p (lit "lo") "insert" = Ok (Some p')
    /\ Docs.run_texts_of p'
       = take 0 (Docs.run_texts_of p)
           ++ optional_text (upto 3 rs) ++ [from 3 rs] ++ optional_text (from 5 rs)
           ++ drop 1 (Docs.run_texts_of p)
    /\ from 3 rs = lit "lo" ++ from 5 rs.
Proof.
  intros p.
  apply (docs_span_in_one_run_repeats_tail (lit "D") p (lit "lo") "insert" 0 3 5).
  - repeat constructor.
  - discriminate.
  - reflexivity.
Defined.

(* ===================================================================== *)
(** ** [docs.py]: the empty change text, and deletions *)
(* ===================================================================== *)

Section empty_needle.

Implicit Types (rts : list pystr).

Lemma find_empty (s : pystr) : find s [] = Some 0.
Proof. by destruct s. Qed.

Lemma locate_loop_started rts i pos st :
  Docs.locate_loop 0 0 rts i pos (Some st) = (Some st, None).
Proof.
  revert i pos. induction rts as [|rt rts IH]; intros i pos; [done|].
  cbn [Docs.locate_loop]. replace (pos <? 0 + 0) with false by (symmetry; apply Nat.ltb_ge; lia).
  rewrite andb_false_r. cbn [andb]. apply IH.
Qed.

Lemma locate_loop_empty_needle s rs rest i :
  rs ≠ [] ->
  Docs.locate_loop 0 0 (replicate s [] ++ rs :: rest) i 0 None = (Some (i + s, 0), None).
Proof.
  intros Hrs. revert i. induction s as [|s IH]; intros i.
  - cbn [replicate app Docs.locate_loop].
    replace ((0 <=? 0) && (0 <? 0 + length rs)) with true.
    2:{ symmetry. apply andb_true_iff. split; [done|]. apply Nat.ltb_lt.
        destruct rs; [done|simpl; lia]. }
    cbn [andb Nat.ltb Nat.leb Nat.add]. rewrite andb_false_r. cbn [Nat.sub].
    rewrite locate_loop_started. by rewrite Nat.add_0_r.
  - cbn [replicate app Docs.locate_loop length Nat.add Nat.leb Nat.ltb andb].
    rewrite bool_decide_eq_false_2 by (by intros []). cbn [andb].
    rewrite IH. do 3 f_equal. lia.
Qed.

Lemma locate_loop_blank rts i :
  join rts = [] -> Docs.locate_loop 0 0 rts i 0 None = (None, None).
Proof.
  revert i. induction rts as [|rt rts IH]; intros i; [done|]. rewrite join_cons.
  intros [-> Hrest]%app_eq_nil.
  cbn [Docs.locate_loop length Nat.add Nat.leb Nat.ltb andb].
  rewrite bool_decide_eq_false_2 by (by intros []). cbn [andb]. by apply IH.
Qed.

Lemma first_text rts :
  join rts ≠ [] -> exists s rs rest, rts = replicate s [] ++ rs :: rest /\ rs ≠ [].
Proof.
  induction rts as [|rt rts IH]; [done|]. rewrite join_cons. intros Hne.
  destruct rt as [|c rt].
  - destruct IH as (s & rs & rest & -> & Hrs); [done|]. by exists (S s), rs, rest.
  - by exists 0, (c :: rt), rts.
Qed.

Lemma join_replicate_empty s : join (replicate s (@nil ascii)) = [].
Proof. by induction s. Qed.

Lemma locate_empty_needle rts :
  join rts ≠ [] ->
  exists s rs re,
    Docs.locate rts [] = Ok (Docs.Located (Some (s, 0)) (length rts - 1) (length re))
    /\ rts !! s = Some rs /\ last rts = Some re /\ take s rts = replicate s [].
Proof.
  intros Hne. destruct (first_text rts Hne) as (s & rs & rest & -> & Hrs).
  set (rts := replicate s [] ++ rs :: rest).
  assert (Hlast : is_Some (last rts)).
  { apply last_is_Some. unfold rts. by destruct (replicate s []). }
  destruct Hlast as [re Hre]. exists s, rs, re.
  unfold Docs.locate. rewrite find_empty. cbn [length].
  unfold rts at 1. rewrite locate_loop_empty_needle by done.
  assert (Hlen : length rts = S (length rts - 1)).
  { unfold rts. rewrite length_app. simpl. lia. }
  rewrite Hlen. rewrite last_lookup, Hlen in Hre. cbn [pred] in Hre. rewrite Hre.
  split; [by rewrite <- Hlen|]. split.
  - unfold rts. rewrite lookup_app_r by (by rewrite length_replicate).
    by rewrite length_replicate, Nat.sub_diag.
  - split; [by rewrite last_lookup, Hlen|].
    unfold rts. rewrite take_app_length'; [done|by rewrite length_replicate].
Qed.

End empty_needle.

(** X5. [docs.py]: the empty change text is found in every paragraph. In a
    paragraph with text whose children are its runs, the span reaches from
    the first run with text to the end of the last run: these runs are
    replaced by one marked run that holds the whole paragraph text, behind
    the empty runs that stood ahead of them. *)
Theorem docs_empty_change_text_marks_whole_paragraph now p c_type :
  flat p -> join (Docs.run_texts_of p) ≠ [] ->
  exists p' s,
    Docs.apply_to_paragraph now p [] c_type = Ok (Some p')
    /\ Docs.run_texts_of p' = replicate s [] ++ [join (Docs.run_texts_of p)].
Proof.
  intros Hp Hne.
  destruct (locate_empty_needle _ Hne) as (s & rs & re & Hloc & Hrs & Hre & Htake).
  set (rts := Docs.run_texts_of p) in *. set (e := length rts - 1) in *.
  assert (Hlen : length rts = S e).
  { apply lookup_lt_Some in Hrs. unfold e. lia. }
  assert (He : rts !! e = Some re).
  { rewrite last_lookup, Hlen in Hre. done. }
  assert (Hse : s <= e) by (apply lookup_lt_Some in Hrs; lia).
  destruct (splice_flat_runs now p c_type s 0 e (length re) rs re) as (p' & Hsp & Hruns);
    [done..|].
  exists p', s. split.
  { unfold Docs.apply_to_paragraph. fold rts. rewrite Hloc. cbn [mbind result_bind].
    fold e. unfold rts, e in *. by rewrite Hsp. }
  rewrite (run_texts_of_runs p'), Hruns, !map_app, texts_of_new_runs.
  rewrite <- !firstn_map, <- !skipn_map, <- run_texts_of_runs. fold rts.
  rewrite Htake. unfold upto, from. rewrite take_0, drop_all.
  rewrite (drop_ge rts (S e)) by lia. unfold optional_text.
  rewrite !bool_decide_eq_true_2 by done. cbn [app]. do 2 f_equal.
  assert (HT : join rts = join (drop s rts)).
  { rewrite <- (take_drop s rts) at 1. by rewrite join_app, Htake, join_replicate_empty. }
  destruct (decide (s = e)) as [->|Hneq].
  - rewrite (marked_text_one_run _ e 0 (length re) rs) by done. unfold from. rewrite drop_0.
    rewrite HT, (drop_S _ _ _ Hrs), (drop_ge rts (S e)) by lia.
    unfold join. simpl. by rewrite app_nil_r.
  - rewrite (marked_text_between _ s 0 e (length re) rs re) by (done || lia).
    assert (H0 : run_offset rts s = 0).
    { unfold run_offset. by rewrite Htake, join_replicate_empty. }
    assert (H1 : run_offset rts e + length re = length (join rts)).
    { assert (Hsplit : rts = take e rts ++ [re]).
      { etransitivity; [symmetry; apply (take_drop e)|]. f_equal.
        by rewrite (drop_S _ _ _ He), (drop_ge rts (S e)) by lia. }
      unfold run_offset. rewrite Hsplit at 2. rewrite join_app, length_app. f_equal.
      unfold join. simpl. by rewrite app_nil_r. }
    rewrite H0, H1. cbn [Nat.add]. rewrite Nat.sub_0_r, drop_0. by apply take_ge.
Qed.

(** An empty run ahead of the runs [Hello ] and [world]. *)
Lemma docs_empty_change_text_marks_whole_paragraph_witness :
  let p := sample_paragraph [sample_run ""; sample_run "Hello "; sample_run "world"] in
  exists p' s,
    Docs.apply_to_paragraph (lit "D") p [] "insert" = Ok (Some p')
    /\ Docs.run_texts_of p' = replicate s [] ++ [lit "Hello world"].
Proof.
  intros p. apply (docs_empty_change_text_marks_whole_paragraph (lit "D") p "insert").
  - repeat constructor.
  - discriminate.
Defined.

(** X6. [docs.py]: the empty change text stops the whole call at a first
    paragraph without text: with [IndexError] when the paragraph has no run,
    with [TypeError] when all its runs are empty. *)
Theorem docs_empty_change_text_raises_without_text clock k p rest c_type more :
  join (Docs.run_texts_of p) = [] ->
  Docs.apply_tracked_changes_to_chinese_doc clock k (p :: rest)
    ({| Docs.mc_type := c_type; Docs.chinese_text := [] |} :: more)
  = Raise (if bool_decide (Docs.run_texts_of p = []) then IndexError else TypeError).
Proof.
  intros Hblank. cbn [Docs.apply_tracked_changes_to_chinese_doc Docs.apply_change
                        Docs.chinese_text Docs.mc_type].
  unfold Docs.apply_to_paragraph, Docs.locate. rewrite find_empty. cbn [length].
  rewrite locate_loop_blank by done.
  destruct (Docs.run_texts_of p) as [|rt rts] eqn:E.
  - by rewrite bool_decide_eq_true_2.
  - rewrite bool_decide_eq_false_2 by done. cbn [length].
    destruct (lookup_lt_is_Some_2 (rt :: rts) (length rts)) as [x Hx]; [simpl; lia|].
    rewrite Hx. done.
Qed.

(** A first paragraph whose only run is empty. *)
Lemma docs_empty_change_text_raises_without_text_witness :
  Docs.apply_tracked_changes_to_chinese_doc (fun _ => lit "D") 0
    [sample_paragraph [sample_run ""]; sample_paragraph [sample_run "text"]]
    [{| Docs.mc_type := "insert"; Docs.chinese_text := [] |}]
  = Raise TypeError.
Proof.
  apply (docs_empty_change_text_raises_without_text (fun _ => lit "D") 0
           (sample_paragraph [sample_run ""]) [sample_paragraph [sample_run "text"]]
           "insert" []).
  reflexivity.
Defined.

(** X7. [docs.py]: [extract_tracked_changes] reads the text of a deletion
    marker from its [w:t] elements. When no deletion marker holds text there,
    as in a document whose deleted text sits in [w:delText] elements, the
    result holds the insertions only. *)
Theorem docs_deleted_text_elements_are_not_read tree :
  Forall (fun m => strip (xpath_text "w:t" m) = []) (xpath_desc "w:del" tree) ->
  Docs.extract_tracked_changes tree = Docs.marked_texts "insert" "w:ins" tree
  /\ Forall (fun c => Docs.type c = "insert") (Docs.extract_tracked_changes tree).
Proof.
  intros Hdel.
  assert (Hnone : Docs.marked_texts "delete" "w:del" tree = []).
  { unfold Docs.marked_texts. induction Hdel as [|m ms Hm Hms IH]; [done|].
    cbn [flat_map]. by rewrite Hm, bool_decide_eq_true_2. }
  unfold Docs.extract_tracked_changes. rewrite Hnone, app_nil_r. split; [done|].
  unfold Docs.marked_texts. apply Forall_forall. intros c Hc.
  apply list_elem_of_In, in_flat_map in Hc as (m & _ & Hc).
  case_bool_decide; [done|]. by destruct Hc as [<-|[]].
Qed.

(** A deletion marker as a word processor writes it, around the deleted
    text [old]. *)
Lemma docs_deleted_text_elements_are_not_read_witness :
  let tree := sample_document
                [sample_run "kept ";
                 Element "w:del" [] [] []
                   [Element "w:r" [] [] [] [Element "w:delText" [] (lit "old") [] []]]] in
  Docs.extract_tracked_changes tree = Docs.marked_texts "insert" "w:ins" tree
  /\ Forall (fun c => Docs.type c = "insert") (Docs.extract_tracked_changes tree).
Proof.
  intros tree. apply (docs_deleted_text_elements_are_not_read tree). repeat constructor.
Defined.

(* ===================================================================== *)
(** ** The text of the child runs after an insertion *)
(* ===================================================================== *)

Section child_runs.

Lemma set_t_self_without_text s e : self_and_descendants "w:t" e = [] -> set_t_self s e = e.
Proof.
  induction e as [t a x y cs IH] using element_tree_ind. cbn [self_and_descendants set_t_self].
  destruct (String.eqb t "w:t"); [done|]. cbn [app]. intros Hcs. f_equal.
  induction cs as [|c cs IHcs]; [done|]. apply Forall_cons in IH as [Hc Hrest].
  simpl in Hcs. apply app_eq_nil in Hcs as [H1 H2]. simpl. f_equal; [by apply Hc|by apply IHcs].
Qed.

Lemma text_nodes_without tg b e :
  self_and_descendants tg e = [] -> text_nodes tg b e = if b then [tail e] else [].
Proof.
  revert b. induction e as [t a x y cs IH] using element_tree_ind. intros b.
  cbn [self_and_descendants text_nodes tail].
  destruct (String.eqb t tg); [done|]. cbn [app]. intros Hcs.
  assert (flat_map (text_nodes tg false) cs = []) as ->; [|done].
  induction cs as [|c cs IHcs]; [done|]. apply Forall_cons in IH as [Hc Hrest].
  simpl in Hcs. apply app_eq_nil in Hcs as [H1 H2]. simpl.
  rewrite (Hc false H1). by apply IHcs.
Qed.

Lemma flat_map_text_nodes_without tg cs :
  Forall (fun c => self_and_descendants tg c = []) cs ->
  flat_map (text_nodes tg false) cs = [].
Proof.
  induction 1 as [|c cs Hc Hcs IH]; [done|]. simpl. by rewrite (text_nodes_without _ _ _ Hc), IH.
Qed.

Lemma map_set_t_self_without s cs :
  Forall (fun c => self_and_descendants "w:t" c = []) cs -> map (set_t_self s) cs = cs.
Proof.
  induction 1 as [|c cs Hc Hcs IH]; [done|]. simpl. by rewrite set_t_self_without_text, IH.
Qed.

Lemma single_text_run_set s r : single_text_run r -> xpath_text "w:t" (set_t_text s r) = s.
Proof.
  intros (pre & a & tx & tl & post & Hr & Hall). apply Forall_app in Hall as [Hpre Hpost].
  unfold xpath_text, set_t_text. rewrite children_with_children, Hr.
  rewrite map_app. cbn [map]. rewrite !map_set_t_self_without by done.
  rewrite flat_map_app. cbn [flat_map]. rewrite !flat_map_text_nodes_without by done.
  simpl. apply app_nil_r.
Qed.

Lemma single_text_run_set_again s r : single_text_run r -> single_text_run (set_t_text s r).
Proof.
  intros (pre & a & tx & tl & post & Hr & Hall).
  exists pre, (attr_set "xml:space" (lit "preserve") a), s, tl, post. split; [|done].
  apply Forall_app in Hall as [Hpre Hpost].
  unfold set_t_text. rewrite children_with_children, Hr, map_app. cbn [map].
  by rewrite !map_set_t_self_without.
Qed.

Lemma map_snd_xpath_child_from tg b (cs : list element) :
  map snd (filter (fun ic : nat * element => has_tag tg ic.2 = true)
                  (imap (fun i c => (b + i, c)) cs))
  = List.filter (has_tag tg) cs.
Proof.
  revert b. induction cs as [|c cs IH]; intros b; [done|]. cbn [imap List.filter].
  rewrite filter_cons. cbn [snd].
  assert (Himap : imap ((fun i (c0 : element) => (b + i, c0)) ∘ S) cs
                  = imap (fun i c0 => (S b + i, c0)) cs).
  { apply imap_ext. intros; simpl. f_equal. lia. }
  rewrite Himap. specialize (IH (S b)).
  destruct (decide (has_tag tg c = true)) as [H|H].
  - rewrite H. simpl. f_equal. exact IH.
  - apply not_true_is_false in H. by rewrite H.
Qed.

Lemma map_snd_xpath_child tg p : map snd (xpath_child tg p) = List.filter (has_tag tg) (children p).
Proof. apply (map_snd_xpath_child_from tg 0). Qed.

(** The run at position [j] of [./tg] splits the children in those ahead
    of it and those behind it. *)
Lemma xpath_child_split_from tg b (cs : list element) j ci r :
  filter (fun ic : nat * element => has_tag tg ic.2 = true)
         (imap (fun i c => (b + i, c)) cs) !! j = Some (ci, r) ->
  exists L R, cs = L ++ r :: R /\ ci = b + length L /\ has_tag tg r = true
    /\ List.filter (has_tag tg) L
       = take j (List.filter (has_tag tg) cs)
    /\ List.filter (has_tag tg) R
       = drop (S j) (List.filter (has_tag tg) cs).
Proof.
  revert b j. induction cs as [|c cs IH]; intros b j; [done|]. cbn [imap List.filter].
  rewrite filter_cons. cbn [snd].
  assert (Himap : imap ((fun i (c0 : element) => (b + i, c0)) ∘ S) cs
                  = imap (fun i c0 => (S b + i, c0)) cs).
  { apply imap_ext. intros; simpl. f_equal. lia. }
  rewrite Himap.
  destruct (decide (has_tag tg c = true)) as [H|H].
  - rewrite H. destruct j as [|j]; simpl.
    + intros [= <- <-]. exists [], cs. simpl. repeat split; try done; lia.
    + intros Hj. destruct (IH (S b) _ Hj) as (L & R & -> & -> & Ht & HL & HR).
      exists (c :: L), R. simpl. rewrite H, HL. repeat split; try done; lia.
  - apply not_true_is_false in H as H'. rewrite H'. intros Hj.
    destruct (IH (S b) _ Hj) as (L & R & -> & -> & Ht & HL & HR).
    exists (c :: L), R. simpl. rewrite H'. repeat split; try done; lia.
Qed.

Lemma xpath_child_split tg p j ci r :
  xpath_child tg p !! j = Some (ci, r) ->
  exists L R, children p = L ++ r :: R /\ ci = length L /\ has_tag tg r = true
    /\ List.filter (has_tag tg) L = take j (List.filter (has_tag tg) (children p))
    /\ List.filter (has_tag tg) R = drop (S j) (List.filter (has_tag tg) (children p)).
Proof. apply (xpath_child_split_from tg 0). Qed.

(** The run the walk of the insertion stops at. *)
Lemma find_target_run_Some position runs i pos j off :
  find_target_run position runs i pos = Some (j, off) ->
  exists k run, j = i + k /\ runs !! k = Some run
    /\ pos + length (join (map (fun ic : nat * element => xpath_text "w:t" ic.2) (take k runs)))
       + off = position
    /\ off <= length (xpath_text "w:t" run.2).
Proof.
  revert i pos. induction runs as [|run runs IH]; intros i pos; cbn [find_target_run]; [done|].
  destruct ((pos <=? position) && (position <=? pos + length (xpath_text "w:t" run.2))) eqn:E.
  - apply andb_true_iff in E as [E1 E2]. apply Nat.leb_le in E1, E2.
    intros [= <- <-]. exists 0, run. simpl. repeat split; lia.
  - intros H. destruct (IH _ _ H) as (k & r & -> & Hr & Hpos & Hoff).
    exists (S k), r. simpl. rewrite length_app. repeat split; [lia|done|lia|done].
Qed.

Lemma find_target_run_None position runs i pos :
  find_target_run position runs i pos = None -> pos <= position ->
  pos + length (join (map (fun ic : nat * element => xpath_text "w:t" ic.2) runs)) <= position.
Proof.
  revert i pos. induction runs as [|run runs IH]; intros i pos; cbn [find_target_run].
  - intros _ Hle. simpl. lia.
  - destruct ((pos <=? position) && (position <=? pos + length (xpath_text "w:t" run.2))) eqn:E;
      [done|].
    intros H Hle. apply andb_false_iff in E as [E|E];
      [apply Nat.leb_gt in E; lia|apply Nat.leb_gt in E].
    apply IH in H; [|lia]. cbn [map]. rewrite join_cons, length_app. lia.
Qed.

Lemma xpath_text_ins_run text a d i :
  xpath_text "w:t" (_create_track_changes_element insertion text a d i) = text.
Proof. unfold xpath_text. simpl. apply app_nil_r. Qed.

Lemma child_run_texts_xpath tg p :
  map (fun ic : nat * element => xpath_text tg ic.2) (xpath_child "w:r" p)
  = child_run_texts tg (children p).
Proof. unfold child_run_texts. by rewrite <- map_snd_xpath_child, map_map. Qed.

Lemma child_run_texts_app tg l1 l2 :
  child_run_texts tg (l1 ++ l2) = child_run_texts tg l1 ++ child_run_texts tg l2.
Proof. unfold child_run_texts. by rewrite List.filter_app, map_app. Qed.

Lemma child_run_texts_run tg r l :
  has_tag "w:r" r = true -> child_run_texts tg (r :: l) = xpath_text tg r :: child_run_texts tg l.
Proof. intros H. unfold child_run_texts. simpl. by rewrite H. Qed.

(** The children of the paragraph after an insertion: the new run stands
    ahead of the target run, behind it, or between the two halves of it;
    without a target run it is the last child. *)
Lemma apply_insertion_children p text_to_insert chinese_text ch position_str :
  xml_compatible text_to_insert = true ->
  let position := insertion_position position_str chinese_text in
  let T := join (child_run_texts "w:t" (children p)) in
  let ins_run := _create_track_changes_element insertion text_to_insert
                   (author ch) (date ch) (change_id ch) in
  exists p',
    _apply_insertion_change p text_to_insert chinese_text ch position_str = Ok p'
    /\ ((length T <= position /\ children p' = children p ++ [ins_run])
        \/ exists L r R off,
             children p = L ++ r :: R /\ has_tag "w:r" r = true
             /\ length (join (child_run_texts "w:t" L)) + off = position
             /\ off <= length (xpath_text "w:t" r)
             /\ children p'
                = L ++ (if off =? 0 then [ins_run; r]
                        else if length (xpath_text "w:t" r) <=? off then [r; ins_run]
                        else [set_t_text (upto off (xpath_text "w:t" r)) r; ins_run;
                              set_t_text (from off (xpath_text "w:t" r))
                                (set_t_text (upto off (xpath_text "w:t" r)) r)]) ++ R).
Proof.
  intros Hxml position T ins_run. unfold _apply_insertion_change. fold position. fold ins_run.
  rewrite Hxml. cbn [negb].
  destruct (find_target_run position (xpath_child "w:r" p) 0 0) as [[j off]|] eqn:Hfind.
  - destruct (find_target_run_Some _ _ _ _ _ _ Hfind) as (k & [ci r] & -> & Hr & Hpos & Hoff).
    simpl in Hpos, Hoff. cbn [plus].
    assert (Hne : nonempty (xpath_child "w:r" p) = true).
    { destruct (xpath_child "w:r" p); [done|done]. }
    rewrite Hne, Hr. cbn [negb].
    destruct (xpath_child_split _ _ _ _ _ Hr) as (L & R & Hcs & -> & Htag & HL & HR).
    assert (HposL : length (join (child_run_texts "w:t" L)) + off = position).
    { rewrite <- Hpos. unfold child_run_texts. rewrite HL, <- map_snd_xpath_child.
      by rewrite <- firstn_map, map_map, firstn_map. }
    eexists. split.
    2:{ right. exists L, r, R, off. rewrite children_with_children.
        split; [done|]. split; [done|]. split; [done|]. split; [done|]. reflexivity. }
    rewrite Hcs. destruct (off =? 0).
    { by rewrite insert_at_length. }
    destruct (length (xpath_text "w:t" r) <=? off) eqn:E.
    { by rewrite Nat.add_1_r, insert_at_length1. }
    apply Nat.leb_gt in E.
    assert (Hafter : nonempty (from off (xpath_text "w:t" r)) = true).
    { apply nonempty_true. intros Hnil. apply (f_equal length) in Hnil.
      unfold from in Hnil. rewrite length_drop in Hnil. simpl in Hnil. lia. }
    rewrite Hafter.
    replace (<[length L := set_t_text (upto off (xpath_text "w:t" r)) r]> (L ++ r :: R))
      with (L ++ set_t_text (upto off (xpath_text "w:t" r)) r :: R).
    2:{ symmetry. replace (length L) with (length L + 0) by lia.
        by rewrite insert_app_r. }
    rewrite Nat.add_1_r, insert_at_length1.
    replace (length L + 2) with (S (S (length L))) by lia.
    by rewrite insert_at_length2.
  - eexists. split; [reflexivity|]. left. rewrite children_with_children. split; [|done].
    apply find_target_run_None in Hfind; [|lia]. rewrite child_run_texts_xpath in Hfind.
    exact Hfind.
Qed.

End child_runs.

(** X16. [_apply_insertion_change] of a text that XML can hold, on a
    paragraph whose child runs have one text element each: the text of the
    child runs after the call is the text before it with the inserted text
    at the position the model answered, clamped to the length of the
    paragraph text passed in; a position past the text of the child runs
    appends. *)
Theorem insertion_places_text_at_position p text_to_insert chinese_text ch position_str :
  xml_compatible text_to_insert = true ->
  single_text_runs (children p) ->
  let position := insertion_position position_str chinese_text in
  let T := join (child_run_texts "w:t" (children p)) in
  exists p',
    _apply_insertion_change p text_to_insert chinese_text ch position_str = Ok p'
    /\ join (child_run_texts "w:t" (children p'))
       = take position T ++ text_to_insert ++ drop position T.
Proof.
  intros Hxml Hruns position T.
  destruct (apply_insertion_children p text_to_insert chinese_text ch position_str Hxml)
    as (p' & Happ & Hcs).
  exists p'. split; [done|]. fold position in Hcs. fold T in Hcs.
  destruct Hcs as [[Hlen ->] | (L & r & R & off & Hp & Htag & Hpos & Hoff & ->)].
  - rewrite child_run_texts_app, join_app. fold T.
    rewrite child_run_texts_run by done. rewrite xpath_text_ins_run.
    rewrite take_ge, drop_ge by done. unfold child_run_texts. simpl.
    by rewrite !app_nil_r.
  - unfold T. rewrite Hp. rewrite !child_run_texts_app, !join_app.
    rewrite (child_run_texts_run _ r R) by done. rewrite join_cons.
    set (tL := join (child_run_texts "w:t" L)) in *.
    set (tR := join (child_run_texts "w:t" R)).
    set (tr := xpath_text "w:t" r) in *.
    rewrite <- Hpos. rewrite take_app_add, drop_app_add.
    rewrite take_app_le, drop_app_le by done. rewrite <- !app_assoc. f_equal.
    assert (Hr : single_text_run r).
    { unfold single_text_runs in Hruns. rewrite Hp, List.filter_app in Hruns.
      apply Forall_app in Hruns as [_ Hruns]. simpl in Hruns. rewrite Htag in Hruns.
      by apply Forall_cons in Hruns as [? _]. }
    destruct (off =? 0) eqn:E0.
    { apply Nat.eqb_eq in E0 as ->. rewrite take_0, drop_0.
      rewrite child_run_texts_run by done. rewrite xpath_text_ins_run.
      rewrite child_run_texts_run by done. rewrite !join_cons. fold tr.
      by rewrite <- !app_assoc. }
    destruct (length tr <=? off) eqn:E1.
    { apply Nat.leb_le in E1. rewrite take_ge, drop_ge by done.
      rewrite child_run_texts_run by done. fold tr.
      rewrite child_run_texts_run by done. rewrite xpath_text_ins_run.
      rewrite !join_cons. by rewrite <- !app_assoc. }
    rewrite child_run_texts_run by (by rewrite has_tag_set_t_text).
    rewrite child_run_texts_run by done.
    rewrite child_run_texts_run by (by rewrite !has_tag_set_t_text).
    rewrite xpath_text_ins_run, !single_text_run_set by (done || by apply single_text_run_set_again).
    rewrite !join_cons. unfold upto, from. by rewrite <- !app_assoc.
Qed.

(** The runs [ab] and [cdef] behind a properties element, and the answer
    [at 4]: the second run is split. *)
Lemma insertion_places_text_at_position_witness :
  let p := sample_paragraph [Element "w:pPr" [] [] [] []; sample_run "ab"; sample_run "cdef"] in
  exists p',
    _apply_insertion_change p (lit "XY") (lit "abcdef") sample_insertion (Some (lit "at 4"))
    = Ok p'
    /\ join (child_run_texts "w:t" (children p'))
       = take (insertion_position (Some (lit "at 4")) (lit "abcdef"))
              (join (child_run_texts "w:t" (children p)))
         ++ lit "XY"
         ++ drop (insertion_position (Some (lit "at 4")) (lit "abcdef"))
                 (join (child_run_texts "w:t" (children p))).
Proof.
  intros p.
  apply (insertion_places_text_at_position p (lit "XY") (lit "abcdef") sample_insertion
           (Some (lit "at 4")) eq_refl).
  repeat constructor.
  - by exists [], [], (lit "ab"), [], [].
  - by exists [], [], (lit "cdef"), [], [].
Defined.

Lemma apply_insertion_count p text_to_insert chinese_text ch position_str :
  xml_compatible text_to_insert = true ->
  exists p',
    _apply_insertion_change p text_to_insert chinese_text ch position_str = Ok p'
    /\ (count_runs (children p') = count_runs (children p) + 1
        \/ count_runs (children p') = count_runs (children p) + 2)
    /\ List.filter (fun c => negb (has_tag "w:r" c)) (children p')
       = List.filter (fun c => negb (has_tag "w:r" c)) (children p).
Proof.
  intros Hxml.
  destruct (apply_insertion_children p text_to_insert chinese_text ch position_str Hxml)
    as (p' & Happ & Hcs).
  exists p'. split; [done|].
  destruct Hcs as [[Hlen ->] | (L & r & R & off & Hp & Htag & Hpos & Hoff & ->)].
  - unfold count_runs. rewrite !List.filter_app, length_app. simpl.
    split; [left; lia|]. by rewrite app_nil_r.
  - rewrite Hp. unfold count_runs. rewrite !List.filter_app, !length_app.
    destruct (off =? 0); [|destruct (length (xpath_text "w:t" r) <=? off)];
      simpl; rewrite ?has_tag_set_t_text, ?Htag; simpl;
      (split; [(left; lia) || (right; lia)|done]).
Qed.

(** X17. [_apply_insertion_change] raises nothing but [ValueError], and
    raises it exactly when the text to insert is one that XML cannot hold.
    Otherwise it returns: it adds one run, or two when it splits a run, and
    the children of the paragraph that are not runs stay as they are and in
    their order. *)
Theorem insertion_adds_one_or_two_runs p text_to_insert chinese_text ch position_str :
  match _apply_insertion_change p text_to_insert chinese_text ch position_str with
  | Ok p' =>
      xml_compatible text_to_insert = true
      /\ (count_runs (children p') = count_runs (children p) + 1
          \/ count_runs (children p') = count_runs (children p) + 2)
      /\ List.filter (fun c => negb (has_tag "w:r" c)) (children p')
         = List.filter (fun c => negb (has_tag "w:r" c)) (children p)
  | Raise e => e = ValueError /\ xml_compatible text_to_insert = false
  end.
Proof.
  destruct (xml_compatible text_to_insert) eqn:Hxml.
  - destruct (apply_insertion_count p text_to_insert chinese_text ch position_str Hxml)
      as (p' & -> & Hcount). by split.
  - by rewrite (apply_insertion_refused p text_to_insert chinese_text ch position_str Hxml).
Qed.

(* ===================================================================== *)
(** ** The text of the child runs after a deletion *)
(* ===================================================================== *)

Section deletion_text.

Lemma text_nodes_set_t_self tg b s e :
  tg ≠ "w:t" -> text_nodes tg b (set_t_self s e) = text_nodes tg b e.
Proof.
  intros Htg. revert b. induction e as [t a x y cs IH] using element_tree_ind. intros b.
  assert (Hcs : forall u, flat_map (text_nodes tg u) (map (set_t_self s) cs)
                          = flat_map (text_nodes tg u) cs).
  { intros u. induction cs as [|c cs IHcs]; [done|]. apply Forall_cons in IH as [Hc Hrest].
    simpl. by rewrite Hc, IHcs. }
  cbn [set_t_self]. destruct (String.eqb t "w:t") eqn:E.
  - apply String.eqb_eq in E as ->. cbn [text_nodes].
    replace (String.eqb "w:t" tg) with false
      by (symmetry; apply String.eqb_neq; congruence).
    by rewrite Hcs.
  - cbn [text_nodes]. by rewrite Hcs.
Qed.

Lemma xpath_text_set_t_text tg s r :
  tg ≠ "w:t" -> xpath_text tg (set_t_text s r) = xpath_text tg r.
Proof.
  intros Htg. unfold xpath_text, set_t_text. rewrite children_with_children. f_equal.
  induction (children r) as [|c cs IH]; [done|]. simpl.
  by rewrite text_nodes_set_t_self, IH.
Qed.

Lemma runs_to_modify_children ds de runs i pos m :
  m ∈ runs_to_modify ds de runs i pos -> rm_child m ∈ map fst runs.
Proof.
  revert i pos. induction runs as [|run runs IH]; intros i pos; cbn [runs_to_modify].
  - by intros ?%elem_of_nil.
  - rewrite elem_of_app. intros [H|H].
    + destruct (_ && _); [|by apply elem_of_nil in H].
      apply list_elem_of_singleton in H as ->. simpl. left.
    + simpl. right. by eapply IH.
Qed.

Lemma take_drop_app_parts (t Ts : pystr) a b :
  a <= b ->
  (take a t ++ drop b t) ++ take (a - length t) Ts ++ drop (b - length t) Ts
  = take a (t ++ Ts) ++ drop b (t ++ Ts).
Proof.
  intros Hab. rewrite take_app, drop_app, <- !app_assoc. f_equal.
  destruct (decide (a <= length t)) as [Ha|Ha].
  - replace (a - length t) with 0 by lia. by rewrite take_0.
  - rewrite (drop_ge t b) by lia. done.
Qed.

Lemma slice_app_parts (t Ts : pystr) a b :
  a <= b ->
  slice a b t ++ slice (a - length t) (b - length t) Ts = slice a b (t ++ Ts).
Proof.
  intros Hab. unfold slice. rewrite drop_app, take_app, length_drop. f_equal.
  destruct (decide (a <= length t)) as [Ha|Ha].
  - replace (a - length t) with 0 by lia. rewrite !drop_0. f_equal. lia.
  - f_equal. lia.
Qed.

(** What one run contributes to the text that stays and to the deleted
    text, whether the range touches it or not. *)
Lemma deletion_pieces_texts ch i ci c pos ds de :
  plain_text_run c -> pos < de -> ds < pos + length (xpath_text "w:t" c) ->
  let t := xpath_text "w:t" c in
  let m := {| rm_index := i; rm_child := ci; rm_element := c; rm_text := t;
              run_start := pos; run_end := pos + length t;
              delete_start_in_run := Nat.max pos ds - pos;
              delete_end_in_run := Nat.min (pos + length t) de - pos |} in
  join (map (xpath_text "w:t") (deletion_pieces ch m)) = take (ds - pos) t ++ drop (de - pos) t
  /\ join (map (xpath_text "w:delText") (deletion_pieces ch m)) = slice (ds - pos) (de - pos) t.
Proof.
  intros [Hone Hdel] H1 H2 t m. subst m.
  unfold deletion_pieces, before_text_of, after_text_of.
  cbn [rm_text rm_element delete_start_in_run delete_end_in_run]. unfold upto, from.
  replace (Nat.max pos ds - pos) with (ds - pos) by lia.
  assert (Hafter : drop (Nat.min (pos + length t) de - pos) t = drop (de - pos) t).
  { destruct (decide (de <= pos + length t)); [f_equal; lia|].
    rewrite !drop_ge by lia. done. }
  assert (Hmid : slice (ds - pos) (Nat.min (pos + length t) de - pos) t
                 = slice (ds - pos) (de - pos) t).
  { unfold slice. destruct (decide (de <= pos + length t)); [do 2 f_equal; lia|].
    rewrite !take_ge by (rewrite length_drop; lia). done. }
  rewrite Hafter, Hmid. rewrite !map_app, !join_app. cbn [map].
  split.
  - assert (Hd : xpath_text "w:t" (_create_track_changes_element deletion
                   (slice (ds - pos) (de - pos) t) (author ch) (date ch) (change_id ch)) = [])
      by done.
    rewrite join_cons, Hd. unfold join at 2. cbn [concat app]. f_equal.
    + destruct (take (ds - pos) t) eqn:E; [done|]. cbn [nonempty map].
      rewrite single_text_run_set by done. unfold join. simpl. by rewrite app_nil_r.
    + destruct (drop (de - pos) t) eqn:E; [done|]. cbn [nonempty map].
      rewrite single_text_run_set by done. unfold join. simpl. by rewrite app_nil_r.
  - assert (Hd : xpath_text "w:delText" (_create_track_changes_element deletion
                   (slice (ds - pos) (de - pos) t) (author ch) (date ch) (change_id ch))
                 = slice (ds - pos) (de - pos) t).
    { unfold xpath_text. simpl. apply app_nil_r. }
    rewrite join_cons, Hd.
    assert (Hnone : forall s, join (map (xpath_text "w:delText")
                      (if nonempty s then [set_t_text s c] else [])) = []).
    { intros s. destruct (nonempty s); [|done]. cbn [map].
      rewrite xpath_text_set_t_text by done. rewrite Hdel. done. }
    rewrite !Hnone. by rewrite app_nil_r.
Qed.

Lemma untouched_run_texts (t : pystr) pos ds de :
  ds <= de -> ~ (pos < de /\ ds < pos + length t) ->
  t = take (ds - pos) t ++ drop (de - pos) t /\ [] = slice (ds - pos) (de - pos) t.
Proof.
  intros Hle Hno. unfold slice. destruct (decide (pos < de)) as [Hlt|Hge].
  - assert (pos + length t <= ds) by lia.
    rewrite take_ge, !drop_ge by lia. by rewrite app_nil_r, take_nil.
  - replace (ds - pos) with 0 by lia. replace (de - pos) with 0 by lia. done.
Qed.

End deletion_text.

Section deletion_ranges.

Lemma covering_later ds de b (cs : list element) i pos :
  covering (runs_to_modify ds de
              (filter (fun ic : nat * element => has_tag "w:r" ic.2 = true)
                      (imap (fun j c => (S b + j, c)) cs)) i pos) b = None.
Proof.
  apply covering_None. intros Hin.
  apply list_elem_of_fmap in Hin as (m & Hb & Hm).
  apply runs_to_modify_children in Hm.
  apply list_elem_of_fmap in Hm as ([ci c] & Hci & Hic).
  destruct (xpath_child_from "w:r" (S b) cs) as [Hall _].
  rewrite Forall_forall in Hall. apply Hall in Hic as [Hle _]. simpl in *. lia.
Qed.

Lemma deletion_texts_from ch ds de b (cs : list element) i pos :
  ds <= de ->
  Forall plain_text_run (List.filter (has_tag "w:r") cs) ->
  let runs := filter (fun ic : nat * element => has_tag "w:r" ic.2 = true)
                     (imap (fun j c => (b + j, c)) cs) in
  let out := unlabel (replaced_kids ch (runs_to_modify ds de runs i pos) b cs) in
  let Ts := join (child_run_texts "w:t" cs) in
  join (child_run_texts "w:t" out) = take (ds - pos) Ts ++ drop (de - pos) Ts
  /\ join (child_run_texts "w:delText" out) = slice (ds - pos) (de - pos) Ts.
Proof.
  intros Hle. revert b i pos. induction cs as [|c cs IH]; intros b i pos Hruns; cbv zeta.
  { unfold slice. simpl. by rewrite !take_nil, !drop_nil, take_nil. }
  cbn [imap]. rewrite filter_cons. cbn [snd].
  assert (Himap : imap ((fun j (c0 : element) => (b + j, c0)) ∘ S) cs
                  = imap (fun j c0 => (S b + j, c0)) cs).
  { apply imap_ext. intros; simpl. f_equal. lia. }
  rewrite Himap, Nat.add_0_r. cbn [List.filter] in Hruns.
  destruct (decide (has_tag "w:r" c = true)) as [Ht|Ht].
  - rewrite Ht in Hruns. apply Forall_cons in Hruns as [Hc Hruns].
    specialize (IH (S b) (S i) (pos + length (xpath_text "w:t" c)) Hruns). cbv zeta in IH.
    destruct IH as [IHt IHd]. rewrite !Nat.sub_add_distr in IHt, IHd.
    cbn [runs_to_modify fst snd]. rewrite replaced_kids_cons.
    rewrite !(child_run_texts_run _ c cs) by done. rewrite !join_cons.
    set (t := xpath_text "w:t" c) in *.
    set (runs' := filter (fun ic : nat * element => has_tag "w:r" ic.2 = true)
                         (imap (fun j c0 => (S b + j, c0)) cs)) in *.
    set (todo' := runs_to_modify ds de runs' (S i) (pos + length t)) in *.
    destruct ((pos <? de) && (ds <? pos + length t)) eqn:E.
    + apply andb_true_iff in E as [E1 E2]. apply Nat.ltb_lt in E1, E2.
      cbn [app].
      match goal with
      | |- context [covering (?m :: ?l) b] =>
          replace (covering (m :: l) b) with (Some m)
            by (unfold covering; simpl; by rewrite Nat.eqb_refl)
      end.
      rewrite replaced_kids_skip by (simpl; lia).
      rewrite !unlabel_app, unlabel_pieces, !child_run_texts_app, !join_app.
      destruct (deletion_pieces_texts ch i b c pos ds de Hc E1 E2) as [Hpt Hpd].
      cbv zeta in Hpt, Hpd. fold t in Hpt, Hpd.
      assert (Hall : forall tg m, has_tag "w:r" (rm_element m) = true ->
                child_run_texts tg (deletion_pieces ch m)
                = map (xpath_text tg) (deletion_pieces ch m)).
      { intros tg m Hm. unfold child_run_texts. f_equal.
        unfold deletion_pieces.
        destruct (nonempty (before_text_of m)); destruct (nonempty (after_text_of m));
          simpl; rewrite ?has_tag_set_t_text, ?Hm; done. }
      rewrite !Hall by done. rewrite Hpt, Hpd, IHt, IHd.
      split; [apply take_drop_app_parts; lia|apply slice_app_parts; lia].
    + cbn [app]. unfold todo', runs'. rewrite covering_later. fold runs'. fold todo'.
      rewrite unlabel_app, !child_run_texts_app, !join_app.
      change (unlabel [(Some b, c)]) with [c].
      rewrite !(child_run_texts_run _ c []) by done.
      unfold child_run_texts at 1 3. cbn [List.filter map]. rewrite !join_cons.
      unfold join at 1 3. cbn [concat]. rewrite !app_nil_r. fold t.
      rewrite IHt, IHd.
      assert (Hno : ~ (pos < de /\ ds < pos + length t)).
      { intros [H1 H2]. apply andb_false_iff in E as [E|E]; apply Nat.ltb_ge in E; lia. }
      destruct (untouched_run_texts t pos ds de Hle Hno) as [Hkeep Hnone].
      destruct Hc as [_ Hdel]. rewrite Hdel.
      split.
      * rewrite Hkeep at 1. apply take_drop_app_parts; lia.
      * rewrite <- (slice_app_parts t) by lia. by rewrite <- Hnone.
  - apply not_true_is_false in Ht. rewrite Ht in Hruns.
    specialize (IH (S b) i pos Hruns). cbv zeta in IH. destruct IH as [IHt IHd].
    rewrite replaced_kids_cons, covering_later.
    rewrite unlabel_app. change (unlabel [(Some b, c)]) with [c].
    rewrite !child_run_texts_app.
    assert (Hskip : forall tg l, child_run_texts tg (c :: l) = child_run_texts tg l).
    { intros tg l. unfold child_run_texts. simpl. by rewrite Ht. }
    rewrite !(Hskip _ []), !Hskip. unfold child_run_texts at 1 3. cbn [List.filter map app].
    by split.
Qed.

End deletion_ranges.

(* ===================================================================== *)
(** ** The two span locators *)
(* ===================================================================== *)

(** The characters [runs_to_modify] selects in the child runs are those of
    the range, counted in the concatenated text of the child runs. *)
Lemma runs_to_modify_slices ds de runs i pos :
  ds <= de ->
  join (map deleted_text_of (runs_to_modify ds de runs i pos))
  = slice (ds - pos) (de - pos)
      (join (map (fun ic : nat * element => xpath_text "w:t" ic.2) runs)).
Proof.
  intros Hle. revert i pos. induction runs as [|run runs IH]; intros i pos.
  { unfold slice. simpl. by rewrite drop_nil, take_nil. }
  cbn [runs_to_modify map]. rewrite map_app, join_app, IH, join_cons.
  set (t := xpath_text "w:t" run.2).
  set (Ts := join (map (fun ic : nat * element => xpath_text "w:t" ic.2) runs)).
  rewrite !Nat.sub_add_distr.
  rewrite <- (slice_app_parts t Ts) by lia. f_equal.
  destruct ((pos <? de) && (ds <? pos + length t)) eqn:E.
  - apply andb_true_iff in E as [E1 E2]. apply Nat.ltb_lt in E1, E2.
    cbn [map]. rewrite join_cons. unfold deleted_text_of at 1.
    cbn [delete_start_in_run delete_end_in_run rm_text]. unfold join. cbn [concat].
    rewrite app_nil_r. fold t.
    replace (Nat.max pos ds - pos) with (ds - pos) by lia.
    unfold slice. destruct (decide (de <= pos + length t)); [do 2 f_equal; lia|].
    rewrite !take_ge by (rewrite length_drop; lia). done.
  - assert (Hno : ~ (pos < de /\ ds < pos + length t)).
    { intros [H1 H2]. apply andb_false_iff in E as [E|E]; apply Nat.ltb_ge in E; lia. }
    by destruct (untouched_run_texts t pos ds de Hle Hno) as [_ <-].
Qed.

(** C2, as the code has it, for a needle that is not empty.

    The span locator of [docs.py] answers no-match exactly when the needle
    occurs nowhere in the concatenated run texts; and when the needle
    occurs, at one position or at several, the span it returns starts at
    the lowest position [i] at which the needle occurs character for
    character, and ends [len(needle)] characters later: the start offset
    lies inside the start run, the end offset inside the end run.

    The locator of [_apply_deletion_change] searches the paragraph text the
    orchestrator passes, [chinese_text]. When the needle occurs nowhere in
    it the call returns failure and leaves the paragraph. Otherwise
    [delete_start] is the lowest position [i] at which the needle occurs in
    [chinese_text], and the range from [i] to [i + len(needle)] is laid
    over the child runs of the paragraph: [runs_to_modify] lists, in
    order, child runs that overlap the range, the call succeeds and
    replaces each by its pieces, and the characters marked as deleted are
    those at the positions [i] to [i + len(needle)] of the concatenated
    text [T] of the child runs. They are the first occurrence of the needle
    when [chinese_text] is [T]. *)
Theorem locate_first_occurrence (run_texts : list pystr) (c_text : pystr)
    (p : element) (chinese_text : pystr) :
  c_text ≠ [] ->
  (((forall j, ~ occurs_at (join run_texts) c_text j) ->
      Docs.locate run_texts c_text = Ok Docs.NoMatch)
   /\ (forall j, occurs_at (join run_texts) c_text j ->
       exists s so rs e eo re i,
         Docs.locate run_texts c_text = Ok (Docs.Located (Some (s, so)) e eo)
         /\ occurs_at (join run_texts) c_text i /\ i <= j
         /\ (forall i', i' < i -> ~ occurs_at (join run_texts) c_text i')
         /\ s <= e
         /\ run_texts !! s = Some rs /\ so < length rs
         /\ run_offset run_texts s + so = i
         /\ run_texts !! e = Some re /\ 0 < eo <= length re
         /\ run_offset run_texts e + eo = i + length c_text))
  /\ (let T := join (child_run_texts "w:t" (children p)) in
      ((forall j, ~ occurs_at chinese_text c_text j) ->
         forall ch raw, strip raw = c_text ->
           _apply_deletion_change p chinese_text ch (Some raw) = Ok (false, p))
      /\ (forall j, occurs_at chinese_text c_text j ->
          exists i,
            find chinese_text c_text = Some i
            /\ occurs_at chinese_text c_text i /\ i <= j
            /\ (forall i', i' < i -> ~ occurs_at chinese_text c_text i')
            /\ let todo := runs_to_modify i (i + length c_text) (xpath_child "w:r" p) 0 0 in
               Forall (covers i (i + length c_text) (children p)) todo
               /\ StronglySorted precedes todo
               /\ (forall ch raw, strip raw = c_text ->
                     _apply_deletion_change p chinese_text ch (Some raw)
                     = Ok (true, with_children p (replaced_children ch todo (children p))))
               /\ join (map deleted_text_of todo) = slice i (i + length c_text) T
               /\ (chinese_text = T -> join (map deleted_text_of todo) = c_text))).
Proof.
  intros Hne. split.
  { split.
    - intros Habs. apply find_None in Habs. unfold Docs.locate. by rewrite Habs.
    - intros j Hj. destruct (find_occurs _ _ _ Hj) as (i & Hfind & Hij).
      destruct (locate_found _ _ _ Hne Hfind)
        as (s & so & rs & e & eo & re & Heq & Hse & Hrs & Hso & Hps & Hre & Heo & Hpe).
      destruct (find_Some _ _ _ Hfind) as [Hocc Hmin].
      exists s, so, rs, e, eo, re, i. repeat split; try done; lia. }
  intros T. split.
  - intros Habs ch raw <-. apply apply_deletion_refused. right. exists raw.
    split; [done|by right].
  - intros j Hj. destruct (find_occurs _ _ _ Hj) as (i & Hfind & Hij).
    destruct (find_Some _ _ _ Hfind) as [Hocc Hmin].
    exists i. split; [done|]. split; [done|]. split; [done|]. split; [done|].
    intros todo. destruct (todo_spec i (i + length c_text) p) as [Hc Hs].
    split; [done|]. split; [done|]. split.
    { intros ch raw <-. by apply apply_deletion_applied. }
    assert (Hsl : join (map deleted_text_of todo) = slice i (i + length c_text) T).
    { unfold todo. rewrite runs_to_modify_slices by lia. rewrite !Nat.sub_0_r.
      unfold T. by rewrite child_run_texts_xpath. }
    split; [done|]. intros HT. rewrite Hsl, <- HT. unfold slice.
    replace (i + length c_text - i) with (length c_text) by lia. exact Hocc.
Qed.

(** The needle [abc] occurs at positions 0 and 4 of the runs [ab], [cx],
    [ab], [c]: both locators answer the occurrence at position 0. In
    [docs.py] the span runs from offset 0 of run 0 to offset 1 of run 1;
    the deletion marks [ab] in the first child run and [c] in the second.
    The needle [xyz] is absent. *)
Lemma locate_first_occurrence_witness :
  let run_texts := [lit "ab"; lit "cx"; lit "ab"; lit "c"] in
  let p := sample_paragraph (map (fun t => Element "w:r" [] [] [] [Element "w:t" [] t [] []])
                               run_texts) in
  let chinese_text := _get_paragraph_text p in
  let c_text := lit "abc" in
  (Docs.locate run_texts c_text = Ok (Docs.Located (Some (0, 0)) 1 1)
   /\ Docs.locate run_texts (lit "xyz") = Ok Docs.NoMatch)
  /\ (find chinese_text c_text = Some 0
      /\ map deleted_text_of (runs_to_modify 0 3 (xpath_child "w:r" p) 0 0) = [lit "ab"; lit "c"]
      /\ join (map deleted_text_of (runs_to_modify 0 3 (xpath_child "w:r" p) 0 0)) = c_text
      /\ _apply_deletion_change p chinese_text sample_change (Some (lit "xyz")) = Ok (false, p)).
Proof.
  intros run_texts p chinese_text c_text.
  destruct (locate_first_occurrence run_texts c_text p chinese_text ltac:(discriminate))
    as [[_ Hdocs] [_ Hdel]].
  destruct (locate_first_occurrence run_texts (lit "xyz") p chinese_text ltac:(discriminate))
    as [[Hnone _] [Hfail _]].
  split; [split|].
  - destruct (Hdocs 4 eq_refl) as (s & so & rs & e & eo & re & i & Heq & _).
    rewrite Heq. vm_compute in Heq. by injection Heq as <- <- <- <-.
  - apply Hnone. apply find_None. reflexivity.
  - destruct (Hdel 4 eq_refl) as (i & Hfind & _ & _ & _ & _ & _ & _ & Hsl & Hneedle).
    assert (i = 0) as -> by (vm_compute in Hfind; congruence).
    split; [exact Hfind|]. split; [reflexivity|]. split.
    + apply Hneedle. reflexivity.
    + apply (Hfail ltac:(apply find_None; reflexivity) sample_change (lit "xyz")).
      reflexivity.
Defined.

(** C2 fails in the locator of [_apply_deletion_change] when the paragraph
    text it is given is not the text of the child runs. The paragraph reads
    [abcab]: [ab] in a run inside a hyperlink, then the child run [cab].
    The needle [ab] occurs at positions 0 and 3 of the paragraph text; the
    first occurrence lies in the hyperlink, which is no child run. The
    range 0 to 2 is laid over the only child run and the call marks [ca]
    as deleted: no occurrence of the needle. *)
Lemma deletion_locator_hyperlink_counterexample :
  let p := sample_paragraph [Element "w:hyperlink" [] [] [] [sample_run "ab"];
                             sample_run "cab"] in
  let chinese_text := _get_paragraph_text p in
  let c_text := lit "ab" in
  chinese_text = lit "abcab"
  /\ occurs_at chinese_text c_text 0 /\ occurs_at chinese_text c_text 3
  /\ find chinese_text c_text = Some 0
  /\ map (fun m => (rm_index m, delete_start_in_run m, delete_end_in_run m, deleted_text_of m))
         (runs_to_modify 0 2 (xpath_child "w:r" p) 0 0)
     = [(0, 0, 2, lit "ca")]
  /\ exists p',
       _apply_deletion_change p chinese_text sample_change (Some (lit "ab")) = Ok (true, p')
       /\ children p'
          = [Element "w:hyperlink" [] [] [] [sample_run "ab"];
             _create_track_changes_element deletion (lit "ca") (lit "A") (lit "D") (lit "1");
             set_t_text (lit "b") (sample_run "cab")].
Proof.
  intros p chinese_text c_text. repeat split. eexists. split; reflexivity.
Qed.

(** X18. [_apply_deletion_change] on a paragraph whose child runs have one
    text element each and no deleted text: after the call the text of the
    child runs is the text before it without the characters from
    [delete_start] to [delete_end], and their deleted text is exactly these
    characters; when the paragraph text passed in is the text of the child
    runs, the deleted text is the stripped answer of the model. *)
Theorem deletion_moves_range_into_deletion_runs p chinese_text ch raw ds :
  Forall plain_text_run (List.filter (has_tag "w:r") (children p)) ->
  strip raw ≠ [] -> find chinese_text (strip raw) = Some ds ->
  let T := join (child_run_texts "w:t" (children p)) in
  let de := ds + length (strip raw) in
  exists p',
    _apply_deletion_change p chinese_text ch (Some raw) = Ok (true, p')
    /\ join (child_run_texts "w:t" (children p')) = take ds T ++ drop de T
    /\ join (child_run_texts "w:delText" (children p')) = slice ds de T
    /\ (chinese_text = T -> join (child_run_texts "w:delText" (children p')) = strip raw).
Proof.
  intros Hruns Hne Hfind T de. eexists. split; [by apply apply_deletion_applied|].
  rewrite children_with_children, <- unlabel_replaced_kids.
  destruct (deletion_texts_from ch ds de 0 (children p) 0 0 ltac:(lia) Hruns) as [Ht Hd].
  cbv zeta in Ht, Hd. rewrite !Nat.sub_0_r in Ht, Hd.
  split; [exact Ht|]. split; [exact Hd|].
  intros ->. etransitivity; [exact Hd|]. apply find_Some in Hfind as [Hocc _].
  unfold slice, de. replace (ds + length (strip raw) - ds) with (length (strip raw)) by lia.
  exact Hocc.
Qed.

(** The runs [Hello ] and [world] behind a properties element, and the
    answer [ lo wo ]. *)
Lemma deletion_moves_range_into_deletion_runs_witness :
  let p := sample_paragraph [Element "w:pPr" [] [] [] []; sample_run "Hello "; sample_run "world"] in
  exists p',
    _apply_deletion_change p (lit "Hello world") sample_change (Some (lit " lo wo ")) = Ok (true, p')
    /\ join (child_run_texts "w:t" (children p')) = lit "Hel" ++ lit "rld"
    /\ join (child_run_texts "w:delText" (children p')) = lit "lo wo"
    /\ (lit "Hello world" = join (child_run_texts "w:t" (children p)) ->
        join (child_run_texts "w:delText" (children p')) = lit "lo wo").
Proof.
  intros p.
  apply (deletion_moves_range_into_deletion_runs p (lit "Hello world") sample_change
           (lit " lo wo ") 3).
  - repeat constructor.
    + by exists [], [], (lit "Hello "), [], [].
    + by exists [], [], (lit "world"), [], [].
  - discriminate.
  - reflexivity.
Defined.

(* ===================================================================== *)
(** ** The records of the extractor *)
(* ===================================================================== *)

Section extraction_facts.

Lemma marker_changes_read w k kind original current para_idx ms :
  Forall (fun c => c_type c = kind /\ c_element c ∈ ms
                   /\ c_text c = strip (xpath_text (text_tag kind) (c_element c))
                   /\ c_text c ≠ []
                   /\ original_context c = original /\ current_context c = current
                   /\ paragraph_index c = para_idx
                   /\ author c = get (c_element c) "w:author" (lit "Unknown"))
         (marker_changes w k kind (text_tag kind) original current para_idx ms).1.
Proof.
  revert k. induction ms as [|m ms IH]; intros k; [constructor|]. cbn [marker_changes].
  assert (Hrest : forall k',
    Forall (fun c => c_type c = kind /\ c_element c ∈ m :: ms
                   /\ c_text c = strip (xpath_text (text_tag kind) (c_element c))
                   /\ c_text c ≠ []
                   /\ original_context c = original /\ current_context c = current
                   /\ paragraph_index c = para_idx
                   /\ author c = get (c_element c) "w:author" (lit "Unknown"))
         (marker_changes w k' kind (text_tag kind) original current para_idx ms).1).
  { intros k'. eapply Forall_impl; [apply IH|]. simpl.
    intros c (? & ? & ? & ? & ? & ? & ? & ?). repeat split; try done. by right. }
  destruct (nonempty (strip (xpath_text (text_tag kind) m))) eqn:E; [|apply Hrest].
  cbn [fst]. constructor; [|apply Hrest]. simpl. repeat split; try done; [left|].
  by apply nonempty_true.
Qed.

Lemma marker_changes_complete w k kind original current para_idx ms m :
  m ∈ ms -> strip (xpath_text (text_tag kind) m) ≠ [] ->
  exists c, c ∈ (marker_changes w k kind (text_tag kind) original current para_idx ms).1
    /\ c_element c = m.
Proof.
  intros Hm Hne. revert k. induction Hm as [m ms|m m' ms Hm IH]; intros k; cbn [marker_changes].
  - apply nonempty_true in Hne. rewrite Hne. cbn [fst]. eexists. split; [left|done].
  - specialize (IH Hne).
    destruct (nonempty (strip (xpath_text (text_tag kind) m'))); [|apply IH].
    destruct (IH (S k)) as (c & Hc & Hel). exists c. split; [by right|done].
Qed.

Lemma extract_paragraph_read w k para_idx p :
  Forall (fun c => paragraph_index c = para_idx
                   /\ c_element c ∈ xpath_desc (marker_tag (c_type c)) p
                   /\ c_text c = strip (xpath_text (text_tag (c_type c)) (c_element c))
                   /\ c_text c ≠ []
                   /\ (original_context c, current_context c) = paragraph_contexts p
                   /\ paragraph_contexts p ≠ ([], [])
                   /\ author c = get (c_element c) "w:author" (lit "Unknown"))
         (extract_paragraph w k para_idx p).1.
Proof.
  unfold extract_paragraph. destruct (paragraph_contexts p) as [o c] eqn:Hctx.
  destruct (negb (nonempty o) && negb (nonempty c)) eqn:E; [constructor|]. cbn [fst].
  assert (Hne : (o, c) ≠ ([], [])).
  { intros [= -> ->]. done. }
  apply Forall_app. split.
  - eapply Forall_impl; [apply (marker_changes_read w k insertion)|]. simpl.
    intros x (Hk & ? & ? & ? & <- & <- & ? & ?). rewrite Hk. done.
  - eapply Forall_impl; [apply (marker_changes_read w _ deletion)|]. simpl.
    intros x (Hk & ? & ? & ? & <- & <- & ? & ?). rewrite Hk. done.
Qed.

Lemma extract_paragraph_order w k para_idx p :
  StronglySorted in_extraction_order (extract_paragraph w k para_idx p).1.
Proof.
  unfold extract_paragraph. destruct (paragraph_contexts p) as [o c].
  destruct (negb (nonempty o) && negb (nonempty c)); [constructor|]. cbn [fst].
  pose proof (marker_changes_read w k insertion o c para_idx (xpath_desc "w:ins" p)) as Hi.
  pose proof (marker_changes_read w
                (marker_changes w k insertion "w:t" o c para_idx (xpath_desc "w:ins" p)).2
                deletion o c para_idx (xpath_desc "w:del" p)) as Hd.
  cbn [text_tag] in Hi, Hd. revert Hi Hd.
  generalize (marker_changes w k insertion "w:t" o c para_idx (xpath_desc "w:ins" p)).1.
  generalize (marker_changes w
                (marker_changes w k insertion "w:t" o c para_idx (xpath_desc "w:ins" p)).2
                deletion "w:delText" o c para_idx (xpath_desc "w:del" p)).1.
  intros dels inss Hi Hd.
  assert (Hdels : StronglySorted in_extraction_order dels).
  { induction Hd as [|x l Hx Hl IH]; constructor; [done|].
    eapply Forall_impl; [apply Hl|]. simpl. intros y Hy. right.
    destruct Hx as (? & _ & _ & _ & _ & _ & ? & _), Hy as (? & _ & _ & _ & _ & _ & ? & _).
    split; [congruence|done]. }
  induction Hi as [|x l Hx Hl IH]; [done|]. simpl. constructor; [done|].
  apply Forall_app. split.
  - eapply Forall_impl; [apply Hl|]. simpl. intros y Hy. right.
    destruct Hx as (Hkx & _ & _ & _ & _ & _ & ? & _), Hy as (? & _ & _ & _ & _ & _ & ? & _).
    split; [congruence|]. rewrite Hkx. done.
  - eapply Forall_impl; [apply Hd|]. simpl. intros y Hy. right.
    destruct Hx as (Hkx & _ & _ & _ & _ & _ & ? & _), Hy as (? & _ & _ & _ & _ & _ & ? & _).
    split; [congruence|done].
Qed.

Lemma extract_paragraphs_read w k para_idx ps :
  Forall (fun c => para_idx <= paragraph_index c
                   /\ exists p, ps !! (paragraph_index c - para_idx) = Some p
                        /\ c_element c ∈ xpath_desc (marker_tag (c_type c)) p
                        /\ c_text c = strip (xpath_text (text_tag (c_type c)) (c_element c))
                        /\ c_text c ≠ []
                        /\ (original_context c, current_context c) = paragraph_contexts p
                        /\ paragraph_contexts p ≠ ([], [])
                        /\ author c = get (c_element c) "w:author" (lit "Unknown"))
         (extract_paragraphs w k para_idx ps).
Proof.
  revert k para_idx. induction ps as [|p ps IH]; intros k para_idx; [constructor|].
  cbn [extract_paragraphs]. apply Forall_app. split.
  - eapply Forall_impl; [apply extract_paragraph_read|]. simpl.
    intros c (-> & H). split; [done|]. exists p. by rewrite Nat.sub_diag.
  - eapply Forall_impl; [apply IH|]. simpl. intros c (Hle & q & Hq & H).
    split; [lia|]. exists q. split; [|done].
    replace (paragraph_index c - para_idx) with (S (paragraph_index c - S para_idx)) by lia.
    done.
Qed.

Lemma extract_paragraphs_order w k para_idx ps :
  StronglySorted in_extraction_order (extract_paragraphs w k para_idx ps).
Proof.
  revert k para_idx. induction ps as [|p ps IH]; intros k para_idx; [constructor|].
  cbn [extract_paragraphs].
  pose proof (extract_paragraph_order w k para_idx p) as Hp.
  pose proof (extract_paragraph_read w k para_idx p) as Hr.
  pose proof (extract_paragraphs_read w (extract_paragraph w k para_idx p).2 (S para_idx) ps)
    as Hrest.
  specialize (IH (extract_paragraph w k para_idx p).2 (S para_idx)).
  revert Hp Hr Hrest IH.
  generalize (extract_paragraph w k para_idx p).1.
  generalize (extract_paragraphs w (extract_paragraph w k para_idx p).2 (S para_idx) ps).
  intros rest here Hp Hr Hrest IH.
  induction Hp as [|x l Hl IHl Hx]; [done|]. simpl.
  apply Forall_cons in Hr as [Hxr Hr]. constructor; [by apply IHl|].
  apply Forall_app. split; [done|].
  eapply Forall_impl; [apply Hrest|]. simpl. intros y [Hy _]. left.
  destruct Hxr as [-> _]. lia.
Qed.

Lemma extract_paragraphs_complete w k para_idx ps i p m kind :
  ps !! i = Some p -> paragraph_contexts p ≠ ([], []) ->
  m ∈ xpath_desc (marker_tag kind) p -> strip (xpath_text (text_tag kind) m) ≠ [] ->
  exists c, c ∈ extract_paragraphs w k para_idx ps
    /\ c_type c = kind /\ c_element c = m /\ paragraph_index c = para_idx + i.
Proof.
  revert k para_idx i. induction ps as [|q ps IH]; intros k para_idx i; [done|].
  cbn [extract_paragraphs]. destruct i as [|i]; simpl.
  - intros [= ->] Hctx Hm Hne.
    unfold extract_paragraph. destruct (paragraph_contexts p) as [o c] eqn:Hoc.
    destruct (negb (nonempty o) && negb (nonempty c)) eqn:E.
    { exfalso. apply Hctx. apply andb_true_iff in E as [E1 E2].
      apply negb_true_iff, nonempty_nil in E1, E2. by subst. }
    cbn [fst]. destruct kind.
    + destruct (marker_changes_complete w k insertion o c para_idx _ m Hm Hne) as (x & Hx & Hel).
      pose proof (marker_changes_read w k insertion o c para_idx (xpath_desc "w:ins" p)) as Hr.
      rewrite Forall_forall in Hr. destruct (Hr x Hx) as (? & _ & _ & _ & _ & _ & ? & _).
      exists x. rewrite !elem_of_app. repeat split; try done; [by left; left|lia].
    + set (k' := (marker_changes w k insertion "w:t" o c para_idx (xpath_desc "w:ins" p)).2).
      destruct (marker_changes_complete w k' deletion o c para_idx _ m Hm Hne) as (x & Hx & Hel).
      pose proof (marker_changes_read w k' deletion o c para_idx (xpath_desc "w:del" p)) as Hr.
      rewrite Forall_forall in Hr. destruct (Hr x Hx) as (? & _ & _ & _ & _ & _ & ? & _).
      exists x. rewrite !elem_of_app. repeat split; try done; [by left; right|lia].
  - intros Hp Hctx Hm Hne.
    destruct (IH (extract_paragraph w k para_idx q).2 (S para_idx) i Hp Hctx Hm Hne)
      as (x & Hx & ? & ? & ?).
    exists x. rewrite elem_of_app. repeat split; try done; [by right|lia].
Qed.

End extraction_facts.

(** X9. Every record of [_extract_changes_from_english_docx] was read from a
    marker of the body paragraph it names: the marker is an insertion or a
    deletion marker of that paragraph, according to the type of the record;
    the text is the stripped text of the marker and is not empty; the
    contexts are those of the paragraph, and not both empty; the author is
    the one the marker carries, or [Unknown]. *)
Theorem extraction_reads_markers w root :
  Forall (read_from (xpath_root "w:body" "w:p" root))
         (_extract_changes_from_english_docx w root).
Proof.
  eapply Forall_impl; [apply extract_paragraphs_read|]. simpl.
  intros c (_ & p & Hp & H). exists p. by rewrite Nat.sub_0_r in Hp.
Qed.

(** X10. In a body paragraph whose contexts are not both empty, every
    insertion or deletion marker whose stripped text is not empty gives a
    record of its kind, with the position of the paragraph. *)
Theorem extraction_misses_no_marker w root i p m kind :
  xpath_root "w:body" "w:p" root !! i = Some p ->
  paragraph_contexts p ≠ ([], []) ->
  m ∈ xpath_desc (marker_tag kind) p ->
  strip (xpath_text (text_tag kind) m) ≠ [] ->
  exists c, c ∈ _extract_changes_from_english_docx w root
    /\ c_type c = kind /\ c_element c = m /\ paragraph_index c = i.
Proof. apply (extract_paragraphs_complete w 0 0). Qed.

(** An insertion marker around the run [new], behind the run [kept ]. *)
Lemma extraction_misses_no_marker_witness :
  let stamps := [("w:author", lit "Ann")] in
  let m := Element "w:ins" stamps [] [] [sample_run "new"] in
  let root := sample_document [sample_run "kept "; m] in
  exists c, c ∈ _extract_changes_from_english_docx (fixed_world "noon" "1") root
    /\ c_type c = insertion /\ c_element c = m /\ paragraph_index c = 0.
Proof.
  intros stamps m root.
  apply (extraction_misses_no_marker (fixed_world "noon" "1") root 0
           (sample_paragraph [sample_run "kept "; m]) m insertion).
  - reflexivity.
  - discriminate.
  - apply list_elem_of_In. simpl. by left.
  - discriminate.
Defined.

(** X11. The records come in the order of the body paragraphs, and within one
    paragraph the insertions come ahead of the deletions. *)
Theorem extraction_follows_document_order w root :
  StronglySorted in_extraction_order (_extract_changes_from_english_docx w root).
Proof. apply extract_paragraphs_order. Qed.

Section context_facts.

Lemma runs_info_without_text (runs : list (nat * element)) :
  Forall (fun ic : nat * element => xpath_text "w:t" ic.2 = []) runs ->
  flat_map (fun ir : nat * element =>
              let run := ir.2 in
              let run_text := xpath_text "w:t" run in
              if nonempty run_text
              then [{| ri_text := run_text; ri_element := run;
                       is_insertion := nonempty (xpath_desc "w:ins" run);
                       is_deletion := nonempty (xpath_desc "w:del" run) |}]
              else []) runs = [].
Proof.
  intros H. cbv zeta. induction H as [|ic l Hic Hl IH]; [done|]. cbn [flat_map].
  by rewrite Hic, IH.
Qed.

Lemma paragraph_contexts_without_run_text p :
  Forall (fun t => t = []) (child_run_texts "w:t" (children p)) ->
  paragraph_contexts p = ([], []).
Proof.
  intros H. rewrite <- child_run_texts_xpath in H. apply Forall_map in H.
  unfold paragraph_contexts, _get_paragraph_text_with_structure.
  by rewrite runs_info_without_text.
Qed.

Lemma unmarked_desc tg r : self_and_descendants tg r = [] -> xpath_desc tg r = [].
Proof.
  destruct r as [t a x y cs]. unfold xpath_desc. simpl. intros H.
  by apply app_eq_nil in H as [_ H].
Qed.

Lemma context_parts_unmarked (runs : list (nat * element)) :
  Forall (fun ic : nat * element => unmarked ic.2) runs ->
  let runs_info :=
    flat_map (fun ir : nat * element =>
                let run := ir.2 in
                let run_text := xpath_text "w:t" run in
                if nonempty run_text
                then [{| ri_text := run_text; ri_element := run;
                         is_insertion := nonempty (xpath_desc "w:ins" run);
                         is_deletion := nonempty (xpath_desc "w:del" run) |}]
                else []) runs in
  join (flat_map original_part runs_info)
  = join (map (fun ic : nat * element => xpath_text "w:t" ic.2) runs)
  /\ join (flat_map current_part runs_info)
     = join (map (fun ic : nat * element => xpath_text "w:t" ic.2) runs).
Proof.
  intros H. cbv zeta. induction H as [|ic l [Hi Hd] Hl IH]; [done|]. cbn [flat_map map].
  destruct IH as [IHo IHc]. rewrite !join_cons.
  destruct (xpath_text "w:t" ic.2) as [|ch t] eqn:E; cbn [nonempty app]; [done|].
  cbn [flat_map]. unfold original_part at 1, current_part at 1.
  cbn [is_deletion is_insertion ri_text].
  rewrite (unmarked_desc _ _ Hi), (unmarked_desc _ _ Hd). cbn [nonempty].
  rewrite !join_app, IHo, IHc. unfold join at 1 3. simpl.
  by rewrite !app_nil_r.
Qed.

End context_facts.

(** X12. Both extractors record stripped texts: the text of every record has a
    character that is not white space at each end. *)
Theorem extracted_texts_are_trimmed :
  (forall w root,
     Forall (fun c => trimmed (c_text c)) (_extract_changes_from_english_docx w root))
  /\ (forall tree,
        Forall (fun c => trimmed (Docs.text c)) (Docs.extract_tracked_changes tree)).
Proof.
  split.
  - intros w root. eapply Forall_impl; [apply extract_paragraphs_read|]. simpl.
    intros c (_ & p & _ & _ & Ht & Hne & _). rewrite Ht in Hne |- *. by apply strip_trimmed.
  - intros tree. unfold Docs.extract_tracked_changes, Docs.marked_texts.
    apply Forall_app. split.
    all: apply Forall_forall; intros c Hc;
      apply list_elem_of_In, in_flat_map in Hc as (m & _ & Hc);
      case_bool_decide as Hm; [done|]; destruct Hc as [<-|[]]; by apply strip_trimmed.
Qed.

(** X13. A body paragraph none of whose child runs holds text in [w:t]
    elements gives no record, whatever markers it holds: no record names its
    position. *)
Theorem paragraph_without_run_text_is_skipped w root i p :
  xpath_root "w:body" "w:p" root !! i = Some p ->
  Forall (fun t => t = []) (child_run_texts "w:t" (children p)) ->
  Forall (fun c => paragraph_index c ≠ i) (_extract_changes_from_english_docx w root).
Proof.
  intros Hp Hruns. eapply Forall_impl; [apply extract_paragraphs_read|]. simpl.
  intros c (_ & q & Hq & _ & _ & _ & _ & Hctx & _) <-. rewrite Nat.sub_0_r in Hq.
  assert (q = p) as -> by congruence.
  by apply Hctx, paragraph_contexts_without_run_text.
Qed.

(** A second paragraph whose only run stands under an insertion marker. *)
Lemma paragraph_without_run_text_is_skipped_witness :
  let stamps := [("w:author", lit "Ann"); ("w:date", lit "2024"); ("w:id", lit "7")] in
  let p := sample_paragraph [Element "w:ins" stamps [] [] [sample_run "new text"]] in
  let root := Element "w:document" [] [] []
                [Element "w:body" [] [] [] [sample_paragraph [sample_run "kept"]; p]] in
  xpath_desc "w:ins" p ≠ []
  /\ Forall (fun c => paragraph_index c ≠ 1)
            (_extract_changes_from_english_docx (fixed_world "noon" "1") root).
Proof.
  intros stamps p root. split; [discriminate|].
  apply (paragraph_without_run_text_is_skipped (fixed_world "noon" "1") root 1 p).
  - reflexivity.
  - constructor.
Defined.

(** X14. For a paragraph none of whose child runs holds a marker, the original
    and the current context are both the stripped text of its child runs. *)
Theorem contexts_of_unmarked_paragraph p :
  Forall unmarked (List.filter (has_tag "w:r") (children p)) ->
  let T := join (child_run_texts "w:t" (children p)) in
  paragraph_contexts p = (strip T, strip T).
Proof.
  intros Hruns T. unfold paragraph_contexts. rewrite context_parts_spec. cbn [fst snd].
  unfold _get_paragraph_text_with_structure.
  assert (Hr : Forall (fun ic : nat * element => unmarked ic.2) (xpath_child "w:r" p)).
  { apply Forall_forall. intros ic Hic. rewrite Forall_forall in Hruns. apply Hruns.
    rewrite <- map_snd_xpath_child. apply list_elem_of_In, in_map. by apply list_elem_of_In. }
  destruct (context_parts_unmarked _ Hr) as [Ho Hc]. cbv zeta in Ho, Hc.
  rewrite Ho, Hc, child_run_texts_xpath. done.
Qed.

(** The runs [ Hello ] and [world ] behind a properties element. *)
Lemma contexts_of_unmarked_paragraph_witness :
  let p := sample_paragraph [Element "w:pPr" [] [] [] []; sample_run " Hello "; sample_run "world "] in
  paragraph_contexts p = (lit "Hello world", lit "Hello world").
Proof.
  intros p. apply (contexts_of_unmarked_paragraph p). repeat constructor.
Defined.

(** X15. What [_create_track_changes_element] writes the extractor reads back.
    A paragraph that holds one written run among children without markers,
    and whose contexts are not both empty, gives exactly one record: of the
    kind written, with the stripped text, and with the author, the date and
    the identifier the run was written with; one reading of the clock is
    consumed. *)
Theorem written_change_is_read_back w k idx kind text a d i pa px pt cs cs' :
  Forall unmarked cs -> Forall unmarked cs' -> strip text ≠ [] ->
  let run := _create_track_changes_element kind text a d i in
  let p := Element "w:p" pa px pt (cs ++ run :: cs') in
  paragraph_contexts p ≠ ([], []) ->
  exists m,
    children run = [m]
    /\ extract_paragraph w k idx p
       = ([{| c_type := kind; c_text := strip text;
              original_context := (paragraph_contexts p).1;
              current_context := (paragraph_contexts p).2;
              paragraph_index := idx; author := a; date := d; change_id := i;
              c_element := m |}], S k).
Proof.
  intros Hcs Hcs' Hne run p Hctx.
  assert (Hnone : forall tg l, Forall unmarked l -> (tg = "w:ins" \/ tg = "w:del") ->
            flat_map (self_and_descendants tg) l = []).
  { intros tg l Hl Htg. induction Hl as [|c l [Hi Hd] Hl IH]; [done|]. simpl.
    rewrite IH. by destruct Htg as [-> | ->]; rewrite ?Hi, ?Hd. }
  assert (Hdesc : forall tg, tg = "w:ins" \/ tg = "w:del" ->
            xpath_desc tg p = self_and_descendants tg run).
  { intros tg Htg. unfold xpath_desc, p. cbn [children]. rewrite flat_map_app. cbn [flat_map].
    rewrite !Hnone by done. by rewrite app_nil_r. }
  unfold extract_paragraph. destruct (paragraph_contexts p) as [o c] eqn:Hoc.
  destruct (negb (nonempty o) && negb (nonempty c)) eqn:E.
  { exfalso. apply Hctx. apply andb_true_iff in E as [E1 E2].
    apply negb_true_iff, nonempty_nil in E1, E2. by subst. }
  rewrite !Hdesc by auto. apply nonempty_true in Hne.
  destruct kind.
  - set (m := Element "w:ins" (marker_attrib a d i) [] []
                [Element "w:t" [("xml:space", lit "preserve")] text [] []]).
    exists m. split; [done|].
    change (self_and_descendants "w:ins" run) with [m].
    change (self_and_descendants "w:del" run) with (@nil element).
    assert (Ht : xpath_text "w:t" m = text) by (unfold xpath_text; simpl; apply app_nil_r).
    cbn [marker_changes]. rewrite Ht, Hne. reflexivity.
  - set (m := Element "w:del" (marker_attrib a d i) [] []
                [Element "w:delText" [("xml:space", lit "preserve")] text [] []]).
    exists m. split; [done|].
    change (self_and_descendants "w:ins" run) with (@nil element).
    change (self_and_descendants "w:del" run) with [m].
    assert (Ht : xpath_text "w:delText" m = text) by (unfold xpath_text; simpl; apply app_nil_r).
    cbn [marker_changes]. rewrite Ht, Hne. reflexivity.
Qed.

(** A deletion of [ old ] written between the runs [kept ] and [text]. *)
Lemma written_change_is_read_back_witness :
  let run := _create_track_changes_element deletion (lit " old ") (lit "Ann") (lit "2024") (lit "7") in
  let p := Element "w:p" [] [] [] ([sample_run "kept "] ++ run :: [sample_run "text"]) in
  exists m,
    children run = [m]
    /\ extract_paragraph (fixed_world "noon" "1") 0 3 p
       = ([{| c_type := deletion; c_text := lit "old";
              original_context := lit "kept text";
              current_context := lit "kept text";
              paragraph_index := 3; author := lit "Ann"; date := lit "2024";
              change_id := lit "7"; c_element := m |}], 1).
Proof.
  intros run p.
  apply (written_change_is_read_back (fixed_world "noon" "1") 0 3 deletion (lit " old ")
           (lit "Ann") (lit "2024") (lit "7") [] [] [] [sample_run "kept "] [sample_run "text"]).
  - repeat constructor.
  - repeat constructor.
  - discriminate.
  - discriminate.
Defined.

(* ===================================================================== *)
(** ** The groups of changes and the counters *)
(* ===================================================================== *)

Section grouping.

Lemma changes_by_para_snoc changes ch :
  changes_by_para (changes ++ [ch])
  = group_append (paragraph_index ch) ch (changes_by_para changes).
Proof. unfold changes_by_para. by rewrite fold_left_app. Qed.

Lemma group_append_keys k ch groups :
  map fst (group_append k ch groups)
  = if bool_decide (k ∈ map fst groups) then map fst groups else map fst groups ++ [k].
Proof.
  induction groups as [|[k0 l0] rest IH]; [done|]. cbn [group_append].
  destruct (k0 =? k) eqn:E.
  - apply Nat.eqb_eq in E as ->. cbn [map fst].
    rewrite bool_decide_eq_true_2; [done|left].
  - apply Nat.eqb_neq in E. cbn [map fst]. rewrite IH.
    destruct (decide (k ∈ map fst rest)) as [Hin|Hin].
    + rewrite !bool_decide_eq_true_2; [done|by right|done].
    + rewrite !bool_decide_eq_false_2; [done| |done].
      rewrite elem_of_cons. intros [?|?]; [congruence|done].
Qed.

Lemma group_append_NoDup k ch groups :
  NoDup (map fst groups) -> NoDup (map fst (group_append k ch groups)).
Proof.
  intros Hnd. rewrite group_append_keys. case_bool_decide as Hin; [done|].
  apply NoDup_app. split; [done|]. split; [|apply NoDup_singleton].
  intros x Hx ->%list_elem_of_singleton. done.
Qed.

Lemma changes_of_paragraph_snoc k changes ch :
  changes_of_paragraph k (changes ++ [ch])
  = changes_of_paragraph k changes ++ (if paragraph_index ch =? k then [ch] else []).
Proof.
  unfold changes_of_paragraph. rewrite List.filter_app. simpl.
  by destruct (paragraph_index ch =? k).
Qed.

Lemma group_append_groups ch groups changes :
  NoDup (map fst groups) ->
  Forall (fun g : nat * list change => g.2 = changes_of_paragraph g.1 changes /\ g.2 ≠ []) groups ->
  (paragraph_index ch ∉ map fst groups -> changes_of_paragraph (paragraph_index ch) changes = []) ->
  Forall (fun g : nat * list change =>
            g.2 = changes_of_paragraph g.1 (changes ++ [ch]) /\ g.2 ≠ [])
         (group_append (paragraph_index ch) ch groups).
Proof.
  induction groups as [|[k0 l0] rest IH]; intros Hnd Hall Hnew; cbn [group_append].
  - constructor; [|constructor]. cbn [fst snd]. split; [|done].
    rewrite changes_of_paragraph_snoc, Nat.eqb_refl, Hnew; [done|]. by intros ?%elem_of_nil.
  - cbn [map fst] in Hnd. apply NoDup_cons in Hnd as [Hk0 Hnd].
    apply Forall_cons in Hall as [[Hl0 Hne0] Hall]. cbn [fst snd] in *.
    destruct (k0 =? paragraph_index ch) eqn:E.
    + apply Nat.eqb_eq in E. constructor.
      * cbn [fst snd]. split; [|by destruct l0].
        rewrite changes_of_paragraph_snoc, <- E, Nat.eqb_refl, Hl0. done.
      * apply Forall_forall. intros [k l] Hg. rewrite Forall_forall in Hall.
        destruct (Hall _ Hg) as [Hl Hne]. cbn [fst snd] in *. split; [|done].
        rewrite changes_of_paragraph_snoc.
        replace (paragraph_index ch =? k) with false; [by rewrite app_nil_r|].
        symmetry. apply Nat.eqb_neq. intros Heq. apply Hk0.
        rewrite E, Heq. apply list_elem_of_In, in_map_iff. exists (k, l). split; [done|].
        by apply list_elem_of_In.
    + apply Nat.eqb_neq in E. constructor.
      * cbn [fst snd]. split; [|done]. rewrite changes_of_paragraph_snoc.
        replace (paragraph_index ch =? k0) with false; [by rewrite app_nil_r|].
        symmetry. apply Nat.eqb_neq. congruence.
      * apply IH; [done..|]. intros Hin. apply Hnew. cbn [map fst].
        rewrite not_elem_of_cons. split; [congruence|done].
Qed.

Lemma changes_by_para_spec changes :
  let groups := changes_by_para changes in
  NoDup (map fst groups)
  /\ Forall (fun g : nat * list change =>
               g.2 = changes_of_paragraph g.1 changes /\ g.2 ≠ []) groups
  /\ forall k, k ∉ map fst groups -> changes_of_paragraph k changes = [].
Proof.
  induction changes as [|ch changes IH] using rev_ind; cbv zeta.
  - repeat split; [constructor|constructor].
  - cbv zeta in IH. destruct IH as (Hnd & Hall & Hnone). rewrite changes_by_para_snoc.
    split; [by apply group_append_NoDup|]. split.
    + apply group_append_groups; [done..|]. apply Hnone.
    + intros k Hk. rewrite group_append_keys in Hk. rewrite changes_of_paragraph_snoc.
      case_bool_decide as Hin.
      * rewrite Hnone by done. destruct (paragraph_index ch =? k) eqn:E; [|done].
        apply Nat.eqb_eq in E. congruence.
      * rewrite not_elem_of_app, list_elem_of_singleton in Hk. destruct Hk as [Hk Hne].
        rewrite Hnone by done. destruct (paragraph_index ch =? k) eqn:E; [|done].
        apply Nat.eqb_eq in E. congruence.
Qed.

Lemma group_append_total k ch groups :
  sum_list (map (fun g : nat * list change => length g.2) (group_append k ch groups))
  = sum_list (map (fun g : nat * list change => length g.2) groups) + 1.
Proof.
  induction groups as [|[k0 l0] rest IH]; [done|]. cbn [group_append].
  destruct (k0 =? k); cbn [map sum_list snd].
  - rewrite length_app. simpl. lia.
  - rewrite IH. lia.
Qed.

Lemma changes_by_para_total changes :
  sum_list (map (fun g : nat * list change => length g.2) (changes_by_para changes))
  = length changes.
Proof.
  induction changes as [|ch changes IH] using rev_ind; [done|].
  by rewrite changes_by_para_snoc, group_append_total, IH, length_app.
Qed.

End grouping.

Section counting.

Lemma apply_group_counted chinese_text n p l :
  counted (apply_group chinese_text (n, p) l).1 = counted n + length l.
Proof.
  revert n p. induction l as [|[ch a] l IH]; intros n p; cbn [apply_group length fst]; [lia|].
  pose proof (apply_one_counts_once chinese_text n p ch a) as H. cbv zeta in H.
  destruct (apply_one chinese_text (n, p) ch a) as [n' p'].
  rewrite IH. cbn [fst] in H. unfold counted. lia.
Qed.

Lemma process_group_counted o all m n ps g n' ps' :
  process_group o all m (n, ps) g = Ok (n', ps') ->
  counted n' = counted n + length g.2 /\ length ps' = length ps.
Proof.
  destruct g as [para_idx para_changes]. unfold process_group.
  destruct (alignment o para_idx) as [response|]; [|done].
  destruct (_find_best_chinese_paragraph_match all m response (best_match o para_idx))
    as [[chinese_text i]|].
  2:{ intros [= <- <-]. unfold counted. simpl. split; [lia|done]. }
  unfold Docs.getitem. destruct (ps !! i) as [target|]; cbn [mbind result_bind]; [|done].
  destruct (negb (nonempty chinese_text) || negb (nonempty (children target))).
  { intros [= <- <-]. unfold counted. simpl. split; [lia|done]. }
  intros [= <- <-]. rewrite apply_group_counted, length_imap, length_insert. done.
Qed.

Lemma process_groups_counted o all m n ps groups n' ps' :
  process_groups o all m (n, ps) groups = Ok (n', ps') ->
  counted n' = counted n + sum_list (map (fun g : nat * list change => length g.2) groups)
  /\ length ps' = length ps.
Proof.
  revert n ps. induction groups as [|g groups IH]; intros n ps; cbn [process_groups].
  - intros [= <- <-]. simpl. split; [lia|done].
  - destruct (process_group o all m (n, ps) g) as [[n1 ps1]|] eqn:E;
      cbn [mbind result_bind]; [|done].
    intros H. apply IH in H as [H1 H2]. apply process_group_counted in E as [E1 E2].
    simpl. split; [lia|congruence].
Qed.

End counting.

(** X20. [changes_by_para]: the keys are pairwise distinct, the group of a key
    holds exactly the changes of that paragraph index, in the order of the
    list, and is not empty, and the paragraph index of every change is a
    key. *)
Theorem changes_grouped_by_paragraph changes :
  let groups := changes_by_para changes in
  NoDup (map fst groups)
  /\ Forall (fun g : nat * list change =>
               g.2 = changes_of_paragraph g.1 changes /\ g.2 ≠ []) groups
  /\ forall ch, ch ∈ changes -> paragraph_index ch ∈ map fst groups.
Proof.
  destruct (changes_by_para_spec changes) as (Hnd & Hall & Hnone). cbv zeta.
  split; [done|]. split; [done|]. intros ch Hch.
  destruct (decide (paragraph_index ch ∈ map fst (changes_by_para changes))) as [|Hout];
    [done|]. exfalso.
  apply Hnone in Hout.
  assert (Hin : ch ∈ changes_of_paragraph (paragraph_index ch) changes).
  { unfold changes_of_paragraph. apply list_elem_of_In, filter_In.
    split; [by apply list_elem_of_In|apply Nat.eqb_refl]. }
  rewrite Hout in Hin. by apply elem_of_nil in Hin.
Qed.

(** X21. When the loop over the groups completes, the two counters of the
    final report add up to the number of changes, and the document has as
    many body paragraphs as before. *)
Theorem every_change_is_counted_once o chinese_paragraphs changes n ps' :
  apply_changes_by_para o chinese_paragraphs changes = Ok (n, ps') ->
  successful_changes n + failed_changes n = length changes
  /\ length ps' = length chinese_paragraphs.
Proof.
  unfold apply_changes_by_para. destruct (build_para_map chinese_paragraphs) as [m all].
  intros H. apply process_groups_counted in H as [H1 H2].
  rewrite changes_by_para_total in H1. unfold counted in H1. simpl in H1. split; [lia|done].
Qed.

(** A deletion that is applied and an insertion without translation, in
    one group. *)
Lemma every_change_is_counted_once_witness :
  let ps := [sample_paragraph [sample_run "Hello "; sample_run "world"]] in
  exists n ps',
    apply_changes_by_para (sample_oracle "0" (sample_answers "lo wo")) ps
      [sample_change; sample_insertion] = Ok (n, ps')
    /\ successful_changes n = 1 /\ failed_changes n = 1
    /\ successful_changes n + failed_changes n = 2 /\ length ps' = 1.
Proof.
  intros ps. eexists _, _. split; [vm_compute; reflexivity|]. split; [reflexivity|].
  split; [reflexivity|].
  eapply (every_change_is_counted_once (sample_oracle "0" (sample_answers "lo wo")) ps
            [sample_change; sample_insertion]).
  vm_compute. reflexivity.
Defined.

Section matcher.

Lemma matcher_names_paragraph ps response bm t i :
  _find_best_chinese_paragraph_match (build_para_map ps).2 (build_para_map ps).1 response bm
  = Some (t, i) ->
  last_with_text ps t i.
Proof.
  unfold _find_best_chinese_paragraph_match.
  assert (Hsecond : match bm with
                    | Some j => paragraph_at (build_para_map ps).2 (build_para_map ps).1 j
                    | None => None
                    end = Some (t, i) -> last_with_text ps t i).
  { destruct bm as [j|]; [apply paragraph_at_last|done]. }
  destruct (search_digits response) as [ds|]; [|done].
  destruct (int_of_digits ds <? length (build_para_map ps).2); [apply paragraph_at_last|done].
Qed.

Lemma paragraph_at_None ps index :
  paragraph_at (build_para_map ps).2 (build_para_map ps).1 index = None ->
  length (build_para_map ps).2 <= index.
Proof.
  intros H. destruct ((build_para_map ps).2 !! index) as [t|] eqn:Ht.
  - destruct (paragraph_at_defined ps index t Ht) as [i Hi]. congruence.
  - by apply lookup_ge_None.
Qed.

Lemma text_needs_children p : _get_paragraph_text p ≠ [] -> children p ≠ [].
Proof. intros H Hc. apply H. unfold _get_paragraph_text, xpath_text. by rewrite Hc. Qed.

Lemma last_with_text_target ps t i :
  last_with_text ps t i ->
  exists p, ps !! i = Some p /\ _get_paragraph_text p = t /\ strip t ≠ [] /\ t ≠ []
            /\ children p ≠ [].
Proof.
  intros [(p & Hp & Ht) [Hne _]]. exists p. apply nonempty_true in Hne.
  assert (t ≠ []) by (by intros ->).
  repeat split; try done. apply text_needs_children. congruence.
Qed.

End matcher.

(** X19. [_find_best_chinese_paragraph_match] on the dictionary and the list
    built from the body paragraphs: a match names a paragraph of the document
    whose text is the matched text, is not blank, and which has children; and
    there is no match only when the alignment answer holds no index below the
    number of listed texts and the similarity scores single out none. *)
Theorem matcher_answers_paragraph_of_document ps response bm :
  match _find_best_chinese_paragraph_match (build_para_map ps).2 (build_para_map ps).1
          response bm with
  | Some (t, i) =>
      exists p, ps !! i = Some p /\ _get_paragraph_text p = t /\ strip t ≠ []
                /\ children p ≠ []
  | None =>
      (forall ds, search_digits response = Some ds ->
                  length (build_para_map ps).2 <= int_of_digits ds)
      /\ (forall j, bm = Some j -> length (build_para_map ps).2 <= j)
  end.
Proof.
  destruct (_find_best_chinese_paragraph_match _ _ response bm) as [[t i]|] eqn:E.
  - apply matcher_names_paragraph, last_with_text_target in E as (p & ? & ? & ? & ? & ?).
    by exists p.
  - unfold _find_best_chinese_paragraph_match in E.
    assert (Hsecond : match bm with
                      | Some j => paragraph_at (build_para_map ps).2 (build_para_map ps).1 j
                      | None => None
                      end = None -> forall j, bm = Some j -> length (build_para_map ps).2 <= j).
    { intros H j ->. by apply paragraph_at_None. }
    destruct (search_digits response) as [ds|].
    + destruct (int_of_digits ds <? length (build_para_map ps).2) eqn:Hlt.
      * apply paragraph_at_None in E. apply Nat.ltb_lt in Hlt. lia.
      * apply Nat.ltb_ge in Hlt. split; [by intros ? [= <-]|by apply Hsecond].
    + split; [done|by apply Hsecond].
Qed.

Section running.

Lemma process_group_outcome o ps0 n ps g :
  length ps = length ps0 ->
  match process_group o (build_para_map ps0).2 (build_para_map ps0).1 (n, ps) g with
  | Ok _ => is_Some (alignment o g.1)
  | Raise e => e = ConnectionError /\ alignment o g.1 = None
  end.
Proof.
  intros Hlen. destruct g as [para_idx para_changes]. unfold process_group. cbn [fst].
  destruct (alignment o para_idx) as [response|]; [|done].
  destruct (_find_best_chinese_paragraph_match _ _ response (best_match o para_idx))
    as [[t i]|] eqn:E; [|eauto].
  apply matcher_names_paragraph in E as [(p & Hp & _) _].
  apply lookup_lt_Some in Hp. rewrite <- Hlen in Hp.
  destruct (lookup_lt_is_Some_2 ps i Hp) as [target Htarget].
  unfold Docs.getitem. rewrite Htarget. cbn [mbind result_bind].
  destruct (negb (nonempty t) || negb (nonempty (children target))); eauto.
Qed.

Lemma process_groups_outcome o ps0 n ps groups :
  length ps = length ps0 ->
  match process_groups o (build_para_map ps0).2 (build_para_map ps0).1 (n, ps) groups with
  | Ok _ => Forall (fun g : nat * list change => is_Some (alignment o g.1)) groups
  | Raise e => e = ConnectionError
               /\ Exists (fun g : nat * list change => alignment o g.1 = None) groups
  end.
Proof.
  revert n ps. induction groups as [|g groups IH]; intros n ps Hlen; cbn [process_groups].
  - constructor.
  - pose proof (process_group_outcome o ps0 n ps g Hlen) as Hg.
    destruct (process_group o _ _ (n, ps) g) as [[n1 ps1]|e] eqn:E; cbn [mbind result_bind].
    + apply process_group_counted in E as [_ Hl].
      specialize (IH n1 ps1 ltac:(congruence)).
      destruct (process_groups o _ _ (n1, ps1) groups) as [r|e].
      * by constructor.
      * destruct IH as [-> Hex]. split; [done|by right].
    + destruct Hg as [-> Hg]. split; [done|by left].
Qed.

Lemma group_keys_from_changes changes g :
  g ∈ changes_by_para changes -> exists ch, ch ∈ changes /\ paragraph_index ch = g.1.
Proof.
  intros Hg. destruct (changes_by_para_spec changes) as (_ & Hall & _). cbv zeta in Hall.
  rewrite Forall_forall in Hall. destruct (Hall g Hg) as [Heq Hne].
  destruct g.2 as [|ch l] eqn:El; [done|]. exists ch.
  assert (Hin : ch ∈ changes_of_paragraph g.1 changes) by (rewrite <- Heq; left).
  unfold changes_of_paragraph in Hin. apply list_elem_of_In, filter_In in Hin as [Hin Hk].
  split; [by apply list_elem_of_In|by apply Nat.eqb_eq].
Qed.

Lemma skipped_groups o all m n ps groups :
  Forall (fun g : nat * list change =>
            exists response, alignment o g.1 = Some response
              /\ _find_best_chinese_paragraph_match all m response (best_match o g.1) = None)
         groups ->
  process_groups o all m (n, ps) groups
  = Ok ({| successful_changes := successful_changes n;
           failed_changes := failed_changes n
                             + sum_list (map (fun g : nat * list change => length g.2) groups) |},
        ps).
Proof.
  intros H. revert n. induction H as [|[k l] groups (r & Hr & Hm) Hall IH]; intros n.
  - cbn [process_groups map]. simpl. rewrite Nat.add_0_r. by destruct n.
  - cbn [process_groups]. unfold process_group. cbn [fst] in Hr, Hm. rewrite Hr, Hm.
    cbn [mbind result_bind]. rewrite IH. simpl. do 3 f_equal. lia.
Qed.

End running.

(** X22. The loop over the groups raises nothing but [ConnectionError], and
    only when the alignment call of the paragraph of some change raised; when
    it completes, the alignment call of every change's paragraph was
    answered. *)
Theorem changes_loop_stops_only_on_connection_error o chinese_paragraphs changes :
  match apply_changes_by_para o chinese_paragraphs changes with
  | Ok _ => forall ch, ch ∈ changes -> is_Some (alignment o (paragraph_index ch))
  | Raise e =>
      e = ConnectionError
      /\ exists ch, ch ∈ changes /\ alignment o (paragraph_index ch) = None
  end.
Proof.
  unfold apply_changes_by_para.
  pose proof (process_groups_outcome o chinese_paragraphs
                {| successful_changes := 0; failed_changes := 0 |}
                chinese_paragraphs (changes_by_para changes) eq_refl) as H.
  destruct (build_para_map chinese_paragraphs) as [m all]. cbn [fst snd] in H.
  destruct (process_groups o all m _ (changes_by_para changes)) as [r|e].
  - intros ch Hch. rewrite Forall_forall in H.
    destruct (changes_by_para_spec changes) as (_ & _ & Hnone).
    destruct (decide (paragraph_index ch ∈ map fst (changes_by_para changes))) as [Hin|Hout].
    + apply list_elem_of_In, in_map_iff in Hin as (g & Hg & Hin).
      rewrite <- Hg. apply H. by apply list_elem_of_In.
    + exfalso. apply Hnone in Hout.
      assert (Hin : ch ∈ changes_of_paragraph (paragraph_index ch) changes).
      { unfold changes_of_paragraph. apply list_elem_of_In, filter_In.
        split; [by apply list_elem_of_In|apply Nat.eqb_refl]. }
      rewrite Hout in Hin. by apply elem_of_nil in Hin.
  - destruct H as [-> Hex]. split; [done|]. apply Exists_exists in Hex as (g & Hg & Hnone).
    destruct (group_keys_from_changes changes g Hg) as (ch & Hch & Hk).
    exists ch. split; [done|congruence].
Qed.

(** X23. When the alignment answers hold no number and the similarity scores
    single out no paragraph, every change is counted as failed, none as
    successful, and the paragraphs stay as they were. *)
Theorem unmatched_paragraphs_fail_their_changes o chinese_paragraphs changes :
  (forall ch, ch ∈ changes ->
     exists response, alignment o (paragraph_index ch) = Some response
       /\ search_digits response = None
       /\ best_match o (paragraph_index ch) = None) ->
  apply_changes_by_para o chinese_paragraphs changes
  = Ok ({| successful_changes := 0; failed_changes := length changes |}, chinese_paragraphs).
Proof.
  intros H. unfold apply_changes_by_para.
  destruct (build_para_map chinese_paragraphs) as [m all].
  rewrite skipped_groups.
  - by rewrite changes_by_para_total.
  - apply Forall_forall. intros g Hg.
    destruct (group_keys_from_changes changes g Hg) as (ch & Hch & Hk).
    destruct (H ch Hch) as (r & Hr & Hd & Hb). rewrite Hk in Hr, Hb.
    exists r. split; [done|]. unfold _find_best_chinese_paragraph_match. by rewrite Hd, Hb.
Qed.

(** The alignment answer [none of them] for a deletion and an insertion. *)
Lemma unmatched_paragraphs_fail_their_changes_witness :
  let ps := [sample_paragraph [sample_run "Hello "; sample_run "world"]] in
  apply_changes_by_para (sample_oracle "none of them" (sample_answers "lo wo")) ps
    [sample_change; sample_insertion]
  = Ok ({| successful_changes := 0; failed_changes := 2 |}, ps).
Proof.
  intros ps.
  apply (unmatched_paragraphs_fail_their_changes
           (sample_oracle "none of them" (sample_answers "lo wo")) ps
           [sample_change; sample_insertion]).
  intros ch _. exists (lit "none of them"). repeat split.
Defined.

(* ===================================================================== *)
(** ** Archives and the whole run *)
(* ===================================================================== *)

Section archive_facts.

Lemma read_snoc (z : archive) name data : read (z ++ [(name, data)]) name = Ok data.
Proof.
  induction z as [|[n d] z IH]; cbn [app read].
  - by rewrite String.eqb_refl.
  - by rewrite IH.
Qed.

Lemma copy_items_names (z_in items : archive) :
  items ⊆ z_in ->
  exists es, copy_items z_in items = Ok es
    /\ map fst es = map fst (other_entries items)
    /\ Forall (fun item : string * list Byte.byte =>
                 item.1 ≠ document_xml /\ read z_in item.1 = Ok item.2) es.
Proof.
  induction items as [|[n d] items IH]; intros Hsub.
  - exists []. by repeat split.
  - destruct IH as (es & Hes & Hnames & Hall); [set_solver|].
    cbn [copy_items other_entries List.filter]. unfold copy_item. cbn [fst snd].
    fold (other_entries items). rewrite Hes.
    destruct (String.eqb n document_xml) eqn:E; cbn [negb mbind result_bind].
    + exists es. by repeat split.
    + destruct (read_present z_in n) as (data & Hdata & _).
      { apply list_elem_of_In, in_map_iff. exists (n, d). split; [done|].
        apply list_elem_of_In. set_solver. }
      rewrite Hdata. cbn [mbind result_bind]. exists ((n, data) :: es).
      split; [done|]. split; [cbn [map fst app]; by rewrite Hnames|].
      constructor; [|done]. cbn [fst snd]. split; [by apply String.eqb_neq|done].
Qed.

Lemma read_snoc_ne (z : archive) n d name :
  n ≠ name -> read (z ++ [(n, d)]) name = read z name.
Proof.
  intros Hne. induction z as [|[n' d'] z IH]; cbn [app read].
  - by rewrite (proj2 (String.eqb_neq n name)) by done.
  - by rewrite IH.
Qed.

End archive_facts.

(** X24. For every input archive the output is written: it holds the names of
    the entries other than the payload, in the order of the input, each with
    the bytes that reading the input by that name gives, followed by the new
    payload, which is what reading the output by the payload name gives. *)
Theorem written_archive_keeps_names_and_last_entries z_in final_xml_string :
  exists es,
    write_output z_in final_xml_string = Ok (es ++ [(document_xml, final_xml_string)])
    /\ map fst es = map fst (other_entries z_in)
    /\ Forall (fun item : string * list Byte.byte =>
                 item.1 ≠ document_xml /\ read z_in item.1 = Ok item.2) es
    /\ read (es ++ [(document_xml, final_xml_string)]) document_xml = Ok final_xml_string.
Proof.
  destruct (copy_items_names z_in z_in) as (es & Hes & Hnames & Hall); [done|].
  exists es. unfold write_output. rewrite Hes. cbn [mbind result_bind].
  repeat split; try done. apply read_snoc.
Qed.

(** Without a payload entry neither program writes an output. *)
Lemma missing_payload_raises z regenerate :
  (forall n, n ∈ map fst z -> Docs.path_of n ≠ Docs.doc_xml_path) ->
  output_archive z regenerate = Raise KeyError
  /\ exists e, Docs.repack z regenerate = Raise e.
Proof.
  intros Hz. split.
  - unfold output_archive. rewrite read_missing; [done|]. intros Hin. by apply (Hz _ Hin).
  - unfold Docs.repack. destruct (Docs.extractall z) as [tmp_dir|e] eqn:Hex;
      cbn [mbind result_bind]; [|by exists e].
    destruct (tmp_dir !! Docs.doc_xml_path) as [[xml|]|] eqn:Hdoc; [|by exists OSError..].
    destruct (extract_members_files _ _ _ _ _ _ Hex Hdoc) as [H | (n & Hn & Hp)].
    + by rewrite lookup_empty in H.
    + by destruct (Hz n Hn).
Qed.

(** X8. [docs.py], for an archive of plain names none of which lies below
    another, with repeated names or without, that holds the payload: the
    call packs an archive. It holds the regenerated payload under
    [word/document.xml], under every other name of the input the bytes of
    the last entry of that name, and an empty entry named with a closing
    slash for every directory above a member; it holds nothing else. *)
Theorem repacked_archive_keeps_last_entries z regenerate xml :
  Forall plain_name (map fst z) -> clash_free (map fst z) ->
  read z document_xml = Ok xml ->
  exists out,
    Docs.repack z regenerate = Ok out
    /\ forall name data,
         (name, data) ∈ out
         <-> (name = document_xml /\ data = regenerate xml)
             \/ (name ≠ document_xml /\ read z name = Ok data)
             \/ (data = []
                 /\ exists n q, n ∈ map fst z /\ q ≠ [] /\ strict_prefix q (Docs.path_of n)
                      /\ name = (Docs.name_of q ++ "/")%string).
Proof. apply repack_plain. Qed.

(** An archive with two entries named [word/styles.xml]: the bytes of the
    second are packed, with the entry of the directory [word]. *)
Lemma repacked_archive_keeps_last_entries_witness :
  exists out,
    Docs.repack twice_named_archive (fun _ => [Byte.x07]) = Ok out
    /\ entry "word/styles.xml" [Byte.x02] ∈ out
    /\ (entry "word/styles.xml" [Byte.x01] ∉ out)
    /\ entry "word/document.xml" [Byte.x07] ∈ out
    /\ entry "word/" [] ∈ out.
Proof.
  destruct (repacked_archive_keeps_last_entries twice_named_archive (fun _ => [Byte.x07])
              [Byte.x03]) as (out & Hout & Hin).
  - repeat constructor.
  - unfold clash_free. repeat constructor; by intros [[k Hk] Hne].
  - reflexivity.
  - exists out. split; [exact Hout|]. split; [|split; [|split]].
    + apply Hin. right. left. split; [discriminate|reflexivity].
    + intros H. apply Hin in H as [[H _] | [[_ H] | [H _]]]; discriminate H.
    + apply Hin. left. split; reflexivity.
    + apply Hin. right. right. split; [reflexivity|].
      exists "word/document.xml"%string, ["word"%string]. split; [left|].
      split; [discriminate|]. split; [|reflexivity].
      split; [by exists ["document.xml"%string]|discriminate].
Defined.

Section whole_run.

Lemma blank_markers_no_changes w k kind tt o c idx ms :
  Forall (fun m => strip (xpath_text tt m) = []) ms ->
  marker_changes w k kind tt o c idx ms = ([], k).
Proof.
  induction 1 as [|m ms Hm Hms IH]; [done|]. cbn [marker_changes]. by rewrite Hm.
Qed.

Lemma extract_paragraphs_blank w k idx ps :
  Forall blank_markers ps -> extract_paragraphs w k idx ps = [].
Proof.
  intros H. revert k idx. induction H as [|p ps [Hi Hd] Hps IH]; intros k idx; [done|].
  cbn [extract_paragraphs]. unfold extract_paragraph.
  destruct (paragraph_contexts p) as [o c].
  destruct (negb (nonempty o) && negb (nonempty c)); cbn [fst snd app]; [apply IH|].
  rewrite !blank_markers_no_changes by done. cbn [fst snd app]. apply IH.
Qed.

Lemma changes_by_para_nonempty changes : changes ≠ [] -> changes_by_para changes ≠ [].
Proof.
  intros Hne Hnil. pose proof (changes_by_para_total changes) as H. rewrite Hnil in H.
  destruct changes; [done|]. simpl in H. lia.
Qed.

End whole_run.

(** X25. [run_document_processing] on an English document none of whose
    markers holds text: the output is the Chinese archive as it is, entry for
    entry, and the model is not asked. *)
Theorem document_without_changes_is_copied w cd o english chinese xml root :
  read english document_xml = Ok xml -> fromstring cd xml = Ok root ->
  Forall blank_markers (xpath_root "w:body" "w:p" root) ->
  run_document_processing w cd o english chinese = Some chinese.
Proof.
  intros Hread Hparse Hblank. unfold run_document_processing.
  rewrite Hread. cbn [mbind result_bind]. rewrite Hparse.
  unfold _extract_changes_from_english_docx. by rewrite extract_paragraphs_blank.
Qed.

(** An English document with one run and no marker; the Chinese archive
    holds two entries of one name. *)
Lemma document_without_changes_is_copied_witness :
  run_document_processing (fixed_world "noon" "1")
    (sample_codec (sample_document [sample_run "Hello"])) silent_oracle
    sample_archive twice_named_archive
  = Some twice_named_archive.
Proof.
  apply (document_without_changes_is_copied _ _ _ _ _ [Byte.x03]
           (sample_document [sample_run "Hello"])).
  - reflexivity.
  - reflexivity.
  - repeat constructor.
Defined.

(** X26. [run_document_processing] when the English document has at least one
    change and every alignment call raises: no output is written. *)
Theorem unreachable_model_gives_no_output w cd o english chinese xml root :
  read english document_xml = Ok xml -> fromstring cd xml = Ok root ->
  _extract_changes_from_english_docx w root ≠ [] ->
  (forall para_idx, alignment o para_idx = None) ->
  run_document_processing w cd o english chinese = None.
Proof.
  intros Hread Hparse Hne Hsilent. unfold run_document_processing.
  rewrite Hread. cbn [mbind result_bind]. rewrite Hparse.
  apply nonempty_true in Hne as Hne'. rewrite Hne'. cbn [negb].
  unfold _create_updated_docx.
  destruct (read chinese document_xml) as [cxml|]; cbn [mbind result_bind]; [|done].
  destruct (fromstring cd cxml) as [croot|]; cbn [mbind result_bind]; [|done].
  unfold apply_changes_by_para. destruct (build_para_map _) as [m all].
  destruct (changes_by_para _) as [|[k l] groups] eqn:Hg.
  { by apply changes_by_para_nonempty in Hg. }
  cbn [process_groups]. unfold process_group. by rewrite Hsilent.
Qed.

(** One insertion, and a model whose alignment calls raise. *)
Lemma unreachable_model_gives_no_output_witness :
  let root := sample_document
                [sample_run "kept "; marked_run "w:ins" "w:t" [("w:author", lit "Ann")] "new"] in
  run_document_processing (fixed_world "noon" "1") (sample_codec root) silent_oracle
    sample_archive sample_archive
  = None.
Proof.
  intros root.
  apply (unreachable_model_gives_no_output _ _ _ _ _ [Byte.x03] root).
  - reflexivity.
  - reflexivity.
  - discriminate.
  - reflexivity.
Defined.

(** X27. [run_document_processing] when both payloads are present and parse
    and every alignment call is answered: an output is written, and its entry
    names are those of the Chinese archive. *)
Theorem answered_run_writes_output w cd o english chinese xml root cxml croot :
  read english document_xml = Ok xml -> fromstring cd xml = Ok root ->
  read chinese document_xml = Ok cxml -> fromstring cd cxml = Ok croot ->
  (forall para_idx, is_Some (alignment o para_idx)) ->
  exists out,
    run_document_processing w cd o english chinese = Some out
    /\ forall name, name ∈ map fst chinese <-> name ∈ map fst out.
Proof.
  intros Hread Hparse Hcread Hcparse Hans. unfold run_document_processing.
  rewrite Hread. cbn [mbind result_bind]. rewrite Hparse.
  destruct (negb (nonempty (_extract_changes_from_english_docx w root))); [by exists chinese|].
  unfold _create_updated_docx. rewrite Hcread. cbn [mbind result_bind]. rewrite Hcparse.
  cbn [mbind result_bind].
  pose proof (process_groups_outcome o (xpath_root "w:body" "w:p" croot)
                {| successful_changes := 0; failed_changes := 0 |}
                (xpath_root "w:body" "w:p" croot)
                (changes_by_para (_extract_changes_from_english_docx w root)) eq_refl) as H.
  unfold apply_changes_by_para.
  destruct (build_para_map (xpath_root "w:body" "w:p" croot)) as [m all]. cbn [fst snd] in H.
  destruct (process_groups o all m _ _) as [[n ps']|e].
  2:{ destruct H as [_ Hex]. apply Exists_exists in Hex as (g & _ & Hnone).
      destruct (Hans g.1) as [r Hr]. congruence. }
  cbn [mbind result_bind snd].
  destruct (copy_items_names chinese chinese) as (es & Hes & Hnames & Hall); [done|].
  unfold write_output. rewrite Hes. cbn [mbind result_bind snd].
  eexists. split; [reflexivity|]. intros name.
  rewrite map_app, elem_of_app, Hnames. cbn [map fst]. rewrite list_elem_of_singleton.
  unfold other_entries. split.
  - intros Hin. destruct (decide (name = document_xml)) as [->|Hne]; [by right|left].
    apply list_elem_of_In, in_map_iff in Hin as ([n' d] & <- & Hin).
    apply list_elem_of_In, in_map_iff. exists (n', d). split; [done|].
    apply filter_In. split; [done|]. cbn [fst] in *. apply negb_true_iff. by apply String.eqb_neq.
  - intros [Hin| ->].
    + apply list_elem_of_In, in_map_iff in Hin as ([n' d] & <- & Hin).
      apply filter_In in Hin as [Hin _].
      apply list_elem_of_In, in_map_iff. by exists (n', d).
    + apply read_Ok_present in Hcread.
      apply list_elem_of_In, in_map_iff. exists (document_xml, cxml). split; [done|].
      by apply list_elem_of_In.
Qed.

(** One insertion, and a model that answers [0] to the alignment prompt. *)
Lemma answered_run_writes_output_witness :
  let root := sample_document
                [sample_run "kept "; marked_run "w:ins" "w:t" [("w:author", lit "Ann")] "new"] in
  exists out,
    run_document_processing (fixed_world "noon" "1") (sample_codec root)
      (sample_oracle "0" (sample_answers "")) sample_archive sample_archive = Some out
    /\ forall name, name ∈ map fst sample_archive <-> name ∈ map fst out.
Proof.
  intros root.
  apply (answered_run_writes_output _ _ _ _ _ [Byte.x03] root [Byte.x03] root).
  - reflexivity.
  - reflexivity.
  - reflexivity.
  - reflexivity.
  - intros para_idx. by eexists.
Defined.

(* ===================================================================== *)
(** ** The answers of the model *)
(* ===================================================================== *)

Section llm_facts.

Lemma split_head_app sep (family tag : pystr) :
  sep ∉ family -> split_head sep (family ++ sep :: tag) = family.
Proof.
  induction family as [|c family IH]; intros Hsep; cbn [app split_head].
  - by rewrite Ascii.eqb_refl.
  - apply not_elem_of_cons in Hsep as [Hc Hsep].
    rewrite (proj2 (Ascii.eqb_neq c sep)) by congruence. by rewrite IH.
Qed.

Lemma startswith_one (s : pystr) c :
  startswith s [c] = true -> exists t, s = c :: t.
Proof.
  destruct s as [|d t]; [done|]. simpl. rewrite andb_true_iff, bool_decide_eq_true.
  intros [-> _]. by exists t.
Qed.

Lemma endswith_one (s : pystr) c :
  endswith s [c] = true -> exists t, s = t ++ [c].
Proof.
  unfold endswith. simpl. intros H. apply startswith_one in H as [t Ht].
  exists (rev t). rewrite <- (rev_involutive s), Ht. done.
Qed.

(** A text between two quote characters loses them; a lone quote
    character becomes the empty text. *)
Lemma unquoted (s : pystr) c :
  startswith s [c] = true -> endswith s [c] = true ->
  (s = [c] /\ slice 1 (length s - 1) s = [])
  \/ s = [c] ++ slice 1 (length s - 1) s ++ [c].
Proof.
  intros [t ->]%startswith_one [u Hu]%endswith_one.
  destruct u as [|d u].
  - injection Hu as ->. by left.
  - injection Hu as <- ->. right. unfold slice. cbn [length drop app].
    rewrite length_app. cbn [length].
    replace (S (length u + 1) - 1 - 1) with (length u) by lia.
    rewrite drop_0. by rewrite take_app_length.
Qed.

End llm_facts.

(** X28. [is_available] compares the listed names with the configured model
    name up to its first colon: a server that answers with status 200 and
    lists any model whose name starts with that prefix is reported available,
    whatever tag was configured. *)
Theorem availability_ignores_model_tag family tag names name :
  ":"%char ∉ family -> name ∈ names -> startswith name family = true ->
  OllamaClient.is_available (family ++ ":"%char :: tag) (Some (200, names)) = true.
Proof.
  intros Hfam Hname Hstart. unfold OllamaClient.is_available. cbn [Nat.eqb negb].
  rewrite split_head_app by done. apply existsb_exists. exists name.
  split; [by apply list_elem_of_In|done].
Qed.

(** The model [deepseek-r1:1.5b] and a server that lists
    [deepseek-r1:70b]. *)
Lemma availability_ignores_model_tag_witness :
  OllamaClient.is_available (lit "deepseek-r1" ++ ":"%char :: lit "1.5b")
    (Some (200, [lit "llama3:8b"; lit "deepseek-r1:70b"])) = true.
Proof.
  apply (availability_ignores_model_tag (lit "deepseek-r1") (lit "1.5b")
           [lit "llama3:8b"; lit "deepseek-r1:70b"] (lit "deepseek-r1:70b")).
  - compute_done.
  - compute_done.
  - reflexivity.
Defined.

(** X29. [_get_llm_response] raises nothing but [ConnectionError], and only
    when the server is not available or the query failed. Otherwise the
    query text is already stripped, and the answer is that text, or that text
    without the two double quotes that wrap it, or the empty text when the
    query text is one double quote. *)
Theorem llm_response_is_cleaned_answer model tags generate :
  match _get_llm_response model tags generate with
  | Raise e =>
      e = ConnectionError
      /\ (OllamaClient.is_available model tags = false \/ OllamaClient.query generate = None)
  | Ok r =>
      OllamaClient.is_available model tags = true
      /\ exists raw, OllamaClient.query generate = Some raw /\ strip raw = raw
           /\ (r = raw
               \/ raw = double_quote ++ r ++ double_quote
               \/ (raw = double_quote /\ r = []))
  end.
Proof.
  unfold _get_llm_response.
  destruct (OllamaClient.is_available model tags); cbn [negb]; [|by split; [|left]].
  destruct (OllamaClient.query generate) as [raw|] eqn:Hq; [|by split; [|right]].
  assert (Hraw : strip raw = raw).
  { unfold OllamaClient.query in Hq. destruct generate as [[status field]|]; [|done].
    destruct (negb (status =? 200)); [done|]. injection Hq as <-. apply strip_idempotent. }
  cbv zeta. rewrite Hraw.
  destruct (startswith raw double_quote && endswith raw double_quote) eqn:E.
  - split; [done|]. exists raw. split; [done|]. split; [done|]. right.
    apply andb_true_iff in E as [E1 E2].
    destruct (unquoted raw _ E1 E2) as [[H1 H2]|H]; [by right|by left].
  - split; [done|]. exists raw. by repeat split; [..|left].
Qed.

(** X30. A blank answer to the translation prompt is no failure: the call of
    [_get_llm_response] returns the empty text, the insertion adds a run to
    the paragraph, and the change is counted as a success. *)
Theorem blank_translation_is_counted_as_success model tags field chinese_text n p ch pa :
  OllamaClient.is_available model tags = true ->
  strip (default [] field) = [] ->
  c_type ch = insertion ->
  let a := {| translation := outcome (_get_llm_response model tags (Some (200, field)));
              position_answer := pa; identification := None |} in
  exists p',
    apply_one chinese_text (n, p) ch a = (succeeded n, p')
    /\ count_runs (children p) < count_runs (children p').
Proof.
  intros Havail Hblank Hins a.
  assert (Htr : translation a = Some []).
  { unfold a, _get_llm_response, OllamaClient.query. cbn [translation Nat.eqb negb].
    rewrite Havail, Hblank. reflexivity. }
  destruct (apply_insertion_count p [] chinese_text ch pa eq_refl) as (p' & Hp' & Hcount & _).
  exists p'. unfold apply_one. rewrite Hins, Htr. cbn [position_answer a]. rewrite Hp'.
  split; [done|]. lia.
Qed.

(** The answer of two spaces to the translation prompt. *)
Lemma blank_translation_is_counted_as_success_witness :
  let a := {| translation :=
                outcome (_get_llm_response (lit "deepseek-r1:1.5b")
                           (Some (200, [lit "deepseek-r1:1.5b"])) (Some (200, Some (lit "  "))));
              position_answer := None; identification := None |} in
  exists p',
    apply_one (lit "abc") (no_changes, sample_paragraph [sample_run "abc"]) sample_insertion a
    = (succeeded no_changes, p')
    /\ count_runs (children (sample_paragraph [sample_run "abc"])) < count_runs (children p').
Proof.
  intros a.
  apply (blank_translation_is_counted_as_success (lit "deepseek-r1:1.5b")
           (Some (200, [lit "deepseek-r1:1.5b"])) (Some (lit "  ")) (lit "abc") no_changes
           (sample_paragraph [sample_run "abc"]) sample_insertion None).
  - reflexivity.
  - reflexivity.
  - reflexivity.
Defined.

